(** * Infrared pulse protocol engine: decoder base class, tag protocol,
      CRC test protocol and multi-sensor receiver.

    Shallow embedding of [protocol.py], [tag_protocol.py],
    [test_protocol.py] and [infrared.py].  Python integers are [Z];
    a [bytearray] is a [list Z] whose elements are checked to lie in
    [0, 256) wherever Python checks them; Python exceptions are the
    [Raise] results of an error monad; a method that mutates [self]
    is a computation in a state-and-error monad over the decoder
    record. *)

From Stdlib Require Import ZArith List Bool Lia String QArith Qminmax Floats.
From Stdlib Require Import Permutation Sorted.
Import ListNotations.

Local Open Scope Z_scope.

(** ** Python exceptions and results *)

Inductive exn : Type :=
| IndexError
| ValueError
| KeyError
| ZeroDivisionError
| OverflowError
| TypeError.

Inductive result (A : Type) : Type :=
| Ok (a : A)
| Raise (e : exn).

Arguments Ok {A} a.
Arguments Raise {A} e.

Definition bytes := list Z.

Definition len {A : Type} (l : list A) : Z := Z.of_nat (List.length l).

(** [l[i]] with Python's negative indices. *)
Definition py_index {A : Type} (l : list A) (i : Z) : result A :=
  let j := if i <? 0 then i + len l else i in
  if j <? 0 then Raise IndexError
  else match nth_error l (Z.to_nat j) with
       | Some x => Ok x
       | None => Raise IndexError
       end.

(** [x << n]; Python rejects a negative shift count. *)
Definition py_shiftl (x n : Z) : result Z :=
  if n <? 0 then Raise ValueError else Ok (Z.shiftl x n).

Definition is_byte (x : Z) : bool := (0 <=? x) && (x <? 256).

(** [bytearray.append(x)]. *)
Definition bytearray_append (b : bytes) (x : Z) : result bytes :=
  if is_byte x then Ok (b ++ [x]) else Raise ValueError.

(** [bytearray([x])]. *)
Definition bytearray_of (x : Z) : result bytes :=
  if is_byte x then Ok [x] else Raise ValueError.

(** ** protocol.py: InfraredDecoder *)

Record InfraredDecoder : Type := mkDecoder {
  _error_threshold : Z;
  _decoder_state : Z;
  _received_data : bytes;
  _received_bit_index : Z;
  _received_byte : Z;
  _max_error_margin : Z;
  _last_error_margin : Z
}.

(** [InfraredDecoder.__init__]. *)
Definition InfraredDecoder_init (error_threshold : Z) : InfraredDecoder :=
  {| _error_threshold := error_threshold;
     _decoder_state := 0;
     _received_data := [];
     _received_bit_index := 0;
     _received_byte := 0;
     _max_error_margin := 0;
     _last_error_margin := 0 |}.

(** Field assignments. *)
Definition set_decoder_state (v : Z) (d : InfraredDecoder) :=
  mkDecoder (_error_threshold d) v (_received_data d) (_received_bit_index d)
            (_received_byte d) (_max_error_margin d) (_last_error_margin d).
Definition set_received_data (v : bytes) (d : InfraredDecoder) :=
  mkDecoder (_error_threshold d) (_decoder_state d) v (_received_bit_index d)
            (_received_byte d) (_max_error_margin d) (_last_error_margin d).
Definition set_received_bit_index (v : Z) (d : InfraredDecoder) :=
  mkDecoder (_error_threshold d) (_decoder_state d) (_received_data d) v
            (_received_byte d) (_max_error_margin d) (_last_error_margin d).
Definition set_received_byte (v : Z) (d : InfraredDecoder) :=
  mkDecoder (_error_threshold d) (_decoder_state d) (_received_data d)
            (_received_bit_index d) v (_max_error_margin d) (_last_error_margin d).
Definition set_max_error_margin (v : Z) (d : InfraredDecoder) :=
  mkDecoder (_error_threshold d) (_decoder_state d) (_received_data d)
            (_received_bit_index d) (_received_byte d) v (_last_error_margin d).
Definition set_last_error_margin (v : Z) (d : InfraredDecoder) :=
  mkDecoder (_error_threshold d) (_decoder_state d) (_received_data d)
            (_received_bit_index d) (_received_byte d) (_max_error_margin d) v.

(** *** Methods as computations over [self] *)

Definition M (A : Type) : Type := InfraredDecoder -> result (A * InfraredDecoder).

Definition ret {A : Type} (a : A) : M A := fun self => Ok (a, self).

Definition bind {A B : Type} (m : M A) (k : A -> M B) : M B :=
  fun self =>
    match m self with
    | Ok (a, self') => k a self'
    | Raise e => Raise e
    end.

Definition get : M InfraredDecoder := fun self => Ok (self, self).
Definition modify (f : InfraredDecoder -> InfraredDecoder) : M unit :=
  fun self => Ok (tt, f self).
Definition lift {A : Type} (r : result A) : M A :=
  fun self => match r with Ok a => Ok (a, self) | Raise e => Raise e end.

Declare Scope py_scope.
Delimit Scope py_scope with py.
Notation "x <- c ;; k" := (bind c (fun x => k))
  (at level 61, c at next level, right associativity) : py_scope.
Notation "c ;; k" := (bind c (fun _ => k))
  (at level 61, right associativity) : py_scope.
Local Open Scope py_scope.

(** [_reset_bit_writer]. *)
Definition _reset_bit_writer : M unit :=
  modify (set_received_byte 0) ;;
  modify (set_received_bit_index 7).

(** [reset]. *)
Definition reset (error_margin : Z) : M unit :=
  modify (set_decoder_state 0) ;;
  modify (set_received_data []) ;;
  _reset_bit_writer ;;
  modify (set_max_error_margin 0) ;;
  modify (set_last_error_margin error_margin).

(** [check_pulse]. *)
Definition check_pulse (received expected : Z) : M bool :=
  let margin := Z.abs (received - expected) in
  self <- get ;;
  let matched := margin <? _error_threshold self in
  (if matched
   then modify (set_max_error_margin (Z.max (_max_error_margin self) margin))
   else ret tt) ;;
  ret matched.

(** [write_bit]. *)
Definition write_bit (bit : Z) : M unit :=
  (if bit =? 1
   then self <- get ;;
        mask <- lift (py_shiftl 1 (_received_bit_index self)) ;;
        modify (set_received_byte (Z.lor (_received_byte self) mask))
   else ret tt) ;;
  self <- get ;;
  modify (set_received_bit_index (_received_bit_index self - 1)) ;;
  self <- get ;;
  if _received_bit_index self <? 0
  then data <- lift (bytearray_append (_received_data self) (_received_byte self)) ;;
       modify (set_received_data data) ;;
       _reset_bit_writer
  else ret tt.

(** Properties. *)
Definition decoder_state (self : InfraredDecoder) : Z := _decoder_state self.
Definition received_data (self : InfraredDecoder) : bytes := _received_data self.

(** [last_error_margin]: the return annotation is [int | None]; the
    body returns the field. *)
Definition last_error_margin (self : InfraredDecoder) : option Z :=
  Some (_last_error_margin self).

(** [last_signal_strength].  The float arithmetic [1.3 - m / t] is taken
    in exact rational arithmetic. *)
Definition last_signal_strength (self : InfraredDecoder) : result Q :=
  if _last_error_margin self =? 0 then Ok 1%Q
  else if _error_threshold self =? 0 then Raise ZeroDivisionError
  else
    let error_ratio :=
      (inject_Z (_last_error_margin self) / inject_Z (_error_threshold self))%Q in
    Ok (Qmin 1 ((13 # 10) - error_ratio)).

(** The same property in binary64 arithmetic, as Python computes it, for
    a margin and a threshold that a float holds exactly (below 2^53):
    the literal [1.3] is the nearest float, [/] on two such integers is
    float division, and [min(1, x)] is [x] when [x < 1] and 1 otherwise. *)
Definition float_of_int (n : Z) : float := PrimFloat.of_uint63 (Uint63.of_Z n).

Definition last_signal_strength_binary64 (self : InfraredDecoder) : result float :=
  if _last_error_margin self =? 0 then Ok 1%float
  else if _error_threshold self =? 0 then Raise ZeroDivisionError
  else
    let error_ratio :=
      (float_of_int (_last_error_margin self) / float_of_int (_error_threshold self))%float in
    let x := (0x1.4cccccccccccdp+0 - error_ratio)%float in
    Ok (if PrimFloat.ltb x 1 then x else 1%float).

(** ** tag_protocol.py *)

Definition TAG_ERROR_MARGIN : Z := 500.
Definition TAG_PREAMBLE : list Z := [3000; 6000; 3000].
Definition TAG_MARK : Z := 2000.
Definition TAG_SPACE_ZERO : Z := 1000.
Definition TAG_SPACE_ONE : Z := 2000.

Definition TAG_TEAM_BITS : Z := 2.
Definition TAG_PLAYER_BITS : Z := 3.
Definition TAG_DAMAGE_BITS : Z := 2.
Definition TAG_DATA_BITS : Z := TAG_TEAM_BITS + TAG_PLAYER_BITS + TAG_DAMAGE_BITS.
Definition TAG_TOTAL_PULSES : Z := len TAG_PREAMBLE + TAG_DATA_BITS * 2.

Record TagData : Type := mkTagData {
  team : Z;
  player : Z;
  damage : Z
}.

(** [decode_tag_data]. *)
Definition decode_tag_data (data : bytes) : result TagData :=
  if len data <? 1 then Raise ValueError
  else
    match py_index data 0 with
    | Raise e => Raise e
    | Ok byte =>
        let team := Z.land (Z.shiftr byte 5) 3 in
        let player := 1 + Z.land (Z.shiftr byte 2) 7 in
        let damage := 1 + Z.land byte 3 in
        Ok (mkTagData team player damage)
    end.

(** [encode_tag_data]. *)
Definition encode_tag_data (tag_data : TagData) : result bytes :=
  if (team tag_data <? 0) || (team tag_data >? 3) then Raise ValueError
  else if (player tag_data <? 1) || (player tag_data >? 8) then Raise ValueError
  else if (damage tag_data <? 1) || (damage tag_data >? 4) then Raise ValueError
  else
    let byte := Z.shiftl (Z.land (team tag_data) 3) 5 in
    let byte := Z.lor byte (Z.shiftl (Z.land (player tag_data - 1) 7) 2) in
    let byte := Z.lor byte (Z.land (damage tag_data - 1) 3) in
    bytearray_of byte.

(** [TagInfraredDecoder.__init__]. *)
Definition TagInfraredDecoder_init : InfraredDecoder :=
  InfraredDecoder_init TAG_ERROR_MARGIN.

Definition incr_decoder_state : M unit :=
  self <- get ;; modify (set_decoder_state (decoder_state self + 1)).

(** [TagInfraredDecoder.decode].  A branch that falls off the end of the
    method returns [None]. *)
Definition TagInfraredDecoder_decode (pulse : Z) : M (option bytes) :=
  self <- get ;;
  if decoder_state self <? len TAG_PREAMBLE then
    expected_pulse <- lift (py_index TAG_PREAMBLE (decoder_state self)) ;;
    ok <- check_pulse pulse expected_pulse ;;
    (if ok then incr_decoder_state else reset TAG_ERROR_MARGIN) ;;
    ret None
  else if decoder_state self <? TAG_TOTAL_PULSES then
    let bit_index := decoder_state self - len TAG_PREAMBLE in
    if bit_index mod 2 =? 0 then
      ok <- check_pulse pulse TAG_MARK ;;
      if negb ok then reset TAG_ERROR_MARGIN ;; ret None
      else incr_decoder_state ;; ret None
    else
      one <- check_pulse pulse TAG_SPACE_ONE ;;
      if one then write_bit 1 ;; incr_decoder_state ;; ret None
      else
        zero <- check_pulse pulse TAG_SPACE_ZERO ;;
        if zero then write_bit 0 ;; incr_decoder_state ;; ret None
        else reset TAG_ERROR_MARGIN ;; ret None
  else if decoder_state self =? TAG_TOTAL_PULSES then
    write_bit 0 ;;
    self <- get ;;
    first <- lift (py_index (received_data self) 0) ;;
    let tag_data := Z.shiftr first 1 in
    reset (_max_error_margin self) ;;
    packet <- lift (bytearray_of tag_data) ;;
    ret (Some packet)
  else
    reset TAG_ERROR_MARGIN ;;
    ret None.

(** An [array.array("H", ...)]: unsigned 16-bit items, assigned by index. *)
Definition array_set (a : list Z) (i : Z) (v : Z) : result (list Z) :=
  if (v <? 0) || (65535 <? v) then Raise OverflowError
  else
    let j := if i <? 0 then i + len a else i in
    if (j <? 0) || (len a <=? j) then Raise IndexError
    else Ok (firstn (Z.to_nat j) a ++ v :: skipn (S (Z.to_nat j)) a).

(** The loop [for pulse in TAG_PREAMBLE] of [encode]; the state is
    [(durations, duration_index)]. *)
Fixpoint encode_preamble (preamble : list Z) (st : list Z * Z) : result (list Z * Z) :=
  match preamble with
  | [] => Ok st
  | pulse :: rest =>
      let '(durations, duration_index) := st in
      match array_set durations duration_index pulse with
      | Raise e => Raise e
      | Ok durations => encode_preamble rest (durations, duration_index + 1)
      end
  end.

(** The loop [for i in range(TAG_DATA_BITS)] of [encode]; the state is
    [(durations, duration_index, tag_data)]. *)
Fixpoint encode_bits (n : nat) (st : list Z * Z * Z) : result (list Z * Z * Z) :=
  match n with
  | O => Ok st
  | S n' =>
      let '(durations, duration_index, tag_data) := st in
      match array_set durations duration_index TAG_MARK with
      | Raise e => Raise e
      | Ok durations =>
          let duration_index := duration_index + 1 in
          match array_set durations duration_index
                  (if Z.land tag_data 128 >? 0 then TAG_SPACE_ONE else TAG_SPACE_ZERO) with
          | Raise e => Raise e
          | Ok durations =>
              encode_bits n' (durations, duration_index + 1, Z.shiftl tag_data 1)
          end
      end
  end.

(** [TagInfraredEncoder.encode]. *)
Definition TagInfraredEncoder_encode (data : bytes) : result (list Z) :=
  let durations := repeat 0 (Z.to_nat (len TAG_PREAMBLE + TAG_DATA_BITS * 2)) in
  match encode_preamble TAG_PREAMBLE (durations, 0) with
  | Raise e => Raise e
  | Ok (durations, duration_index) =>
      match py_index data 0 with
      | Raise e => Raise e
      | Ok tag_data =>
          let tag_data := Z.shiftl tag_data 1 in
          match encode_bits (Z.to_nat TAG_DATA_BITS) (durations, duration_index, tag_data) with
          | Raise e => Raise e
          | Ok (durations, _, _) => Ok durations
          end
      end
  end.

(** Feeding pulses one at a time to a decoder's [decode]; the outputs of
    the successive calls are collected in order. *)
Fixpoint feed (decode : Z -> M (option bytes)) (pulses : list Z)
  : M (list (option bytes)) :=
  match pulses with
  | [] => ret []
  | p :: rest =>
      out <- decode p ;;
      outs <- feed decode rest ;;
      ret (out :: outs)
  end.

(** ** test_protocol.py: the CRC protocol *)

Definition IR_UNIT : Z := 500.
(** [IR_UNIT / 2] is the float [250.0]; it is only compared with and
    stored next to integers, so the integer 250 stands for it. *)
Definition IR_ERROR_MARGIN : Z := 250.
Definition IR_HEADER_MARK : Z := IR_UNIT * 8.
Definition IR_HEADER_SPACE : Z := IR_UNIT * 6.
Definition IR_ZERO : Z := IR_UNIT.
Definition IR_ONE : Z := IR_UNIT * 3.
Definition IR_LEAD_OUT : Z := IR_UNIT * 10.
Definition IR_CRC_GENERATOR : Z := 29.

(** The inner loop [for j in range(8)] of [_calculate_crc]. *)
Fixpoint crc_shift (n : nat) (crc : Z) : Z :=
  match n with
  | O => crc
  | S n' =>
      crc_shift n'
        (if negb (Z.land crc 128 =? 0)
         then Z.lxor (Z.land (Z.shiftl crc 1) 255) IR_CRC_GENERATOR
         else Z.land (Z.shiftl crc 1) 255)
  end.

(** [_calculate_crc]. *)
Definition _calculate_crc (data : bytes) : Z :=
  fold_left (fun crc data_byte => crc_shift 8 (Z.lxor crc data_byte)) data 0.

(** [MWDecoder.__init__]. *)
Definition MWDecoder_init : InfraredDecoder := InfraredDecoder_init IR_ERROR_MARGIN.

(** [MWDecoder.decode].  The [print] on a CRC mismatch writes to the
    console and is not part of the state. *)
Definition MWDecoder_decode (pulse : Z) : M (option bytes) :=
  self <- get ;;
  if decoder_state self =? 0 then
    ok <- check_pulse pulse IR_HEADER_MARK ;;
    (if ok then modify (set_decoder_state 1) else ret tt) ;;
    ret None
  else if decoder_state self =? 1 then
    ok <- check_pulse pulse IR_HEADER_SPACE ;;
    (if ok then modify (set_decoder_state 2) else reset IR_ERROR_MARGIN) ;;
    ret None
  else if decoder_state self =? 2 then
    one <- check_pulse pulse IR_ONE ;;
    if one then write_bit 1 ;; ret None
    else
      zero <- check_pulse pulse IR_ZERO ;;
      if zero then write_bit 0 ;; ret None
      else
        lead_out <- check_pulse pulse IR_LEAD_OUT ;;
        if lead_out then
          self <- get ;;
          let data := received_data self in
          if len data <? 2 then
            reset IR_ERROR_MARGIN ;; ret None
          else
            received_crc <- lift (py_index data (-1)) ;;
            let data_without_crc := firstn (Z.to_nat (len data - 1)) data in
            let calculated_crc := _calculate_crc data_without_crc in
            reset (_max_error_margin self) ;;
            if received_crc =? calculated_crc then ret (Some data_without_crc)
            else ret None
        else
          reset IR_ERROR_MARGIN ;; ret None
  else ret None.

(** ** infrared.py *)

(** A Python [dict] keyed by sensor name: the items in insertion order. *)
Definition dict (V : Type) : Type := list (string * V).

Definition keys {V : Type} (d : dict V) : list string := map fst d.

Fixpoint dict_get {V : Type} (d : dict V) (k : string) : option V :=
  match d with
  | [] => None
  | (k', v) :: rest => if String.eqb k' k then Some v else dict_get rest k
  end.

(** [d[k] = v]: an existing key keeps its place, a new key goes last. *)
Fixpoint dict_set {V : Type} (d : dict V) (k : string) (v : V) : dict V :=
  match d with
  | [] => [(k, v)]
  | (k', v') :: rest =>
      if String.eqb k' k then (k', v) :: rest else (k', v') :: dict_set rest k v
  end.

(** A [PulseReader] is the queue of pulses it still holds;
    [read_pulse] takes the oldest one ([PulseInReader.read_pulse]). *)
Definition PulseReader : Type := list Z.

Definition read_pulse (reader : PulseReader) : option Z * PulseReader :=
  match reader with
  | [] => (None, [])
  | p :: rest => (Some p, rest)
  end.

Record InfraredMultiReceiver : Type := mkMulti {
  _pulse_readers : dict PulseReader;
  _decoders : dict InfraredDecoder;
  _last_error_margins : dict Z;
  _last_signal_strengths : dict Q
}.

(** [InfraredMultiReceiver.__init__]. *)
Definition InfraredMultiReceiver_init (pulse_readers : dict PulseReader)
    (decoder_factory : unit -> InfraredDecoder) : InfraredMultiReceiver :=
  {| _pulse_readers := pulse_readers;
     _decoders := fold_left (fun acc name => dict_set acc name (decoder_factory tt))
                            (keys pulse_readers) [];
     _last_error_margins := [];
     _last_signal_strengths := [] |}.

(** The scan for the minimum error margin; [None] as the running
    minimum is [float("inf")]. *)
Fixpoint best_scan (items : list (string * Z)) (min_error_margin : option Z)
    (best_receiver_name : option string) : option string :=
  match items with
  | [] => best_receiver_name
  | (name, error_margin) :: rest =>
      if match min_error_margin with
         | None => true
         | Some m => error_margin <? m
         end
      then best_scan rest (Some error_margin) (Some name)
      else best_scan rest min_error_margin best_receiver_name
  end.

(** [last_best_receiver]. *)
Definition last_best_receiver (self : InfraredMultiReceiver) : option string :=
  best_scan (_last_error_margins self) None None.

(** [for decoder in self._decoders.values(): decoder.reset(decoder.last_error_margin)]. *)
Fixpoint reset_all (decoders : dict InfraredDecoder) : result (dict InfraredDecoder) :=
  match decoders with
  | [] => Ok []
  | (name, decoder) :: rest =>
      match last_error_margin decoder with
      | None => Raise TypeError
      | Some m =>
          match reset m decoder with
          | Raise e => Raise e
          | Ok (_, decoder') =>
              match reset_all rest with
              | Raise e => Raise e
              | Ok rest' => Ok ((name, decoder') :: rest')
              end
          end
      end
  end.

(** The loop that reads one pulse from each sensor: the readers after
    the reads, and the dict [pulses]. *)
Fixpoint read_pulses (readers : dict PulseReader) (pulses : dict Z)
  : dict PulseReader * dict Z :=
  match readers with
  | [] => ([], pulses)
  | (name, pulse_reader) :: rest =>
      let '(next_pulse, pulse_reader') := read_pulse pulse_reader in
      let pulses' := match next_pulse with
                     | Some p => dict_set pulses name p
                     | None => pulses
                     end in
      let '(rest', out) := read_pulses rest pulses' in
      ((name, pulse_reader') :: rest', out)
  end.

(** The loop that records the receiver stats of the sensors in [datas]. *)
Fixpoint record_stats (decoders : dict InfraredDecoder) (datas : dict bytes)
    (margins : dict Z) (strengths : dict Q) : result (dict Z * dict Q) :=
  match decoders with
  | [] => Ok (margins, strengths)
  | (name, decoder) :: rest =>
      match dict_get datas name with
      | Some _ =>
          match last_error_margin decoder, last_signal_strength decoder with
          | Some m, Ok s =>
              record_stats rest datas (dict_set margins name m) (dict_set strengths name s)
          | None, _ => Raise TypeError
          | _, Raise e => Raise e
          end
      | None => record_stats rest datas margins strengths
      end
  end.

Inductive round_result : Type :=
| NoPulses
| NoPacket
| Packet (data : bytes).

Section MultiReceiver.

(** The [decode] method of the decoders the factory builds. *)
Variable decode : Z -> M (option bytes).

(** The loop that decodes each pulse: the decoders after the calls,
    and the dict [datas]. *)
Fixpoint decode_pulses (pulses : dict Z) (decoders : dict InfraredDecoder)
    (datas : dict bytes) : result (dict InfraredDecoder * dict bytes) :=
  match pulses with
  | [] => Ok (decoders, datas)
  | (name, pulse) :: rest =>
      match dict_get decoders name with
      | None => Raise KeyError
      | Some decoder =>
          match decode pulse decoder with
          | Raise e => Raise e
          | Ok (data, decoder') =>
              decode_pulses rest (dict_set decoders name decoder')
                (match data with
                 | Some b => dict_set datas name b
                 | None => datas
                 end)
          end
      end
  end.

(** One iteration of the [while] loop of [receive]. *)
Definition receive_round (self : InfraredMultiReceiver)
  : result (round_result * InfraredMultiReceiver) :=
  let '(readers, pulses) := read_pulses (_pulse_readers self) [] in
  if len pulses =? 0 then
    Ok (NoPulses,
        mkMulti readers (_decoders self)
                (_last_error_margins self) (_last_signal_strengths self))
  else
    match decode_pulses pulses (_decoders self) [] with
    | Raise e => Raise e
    | Ok (decoders, datas) =>
        if len datas >? 0 then
          match record_stats decoders datas [] [] with
          | Raise e => Raise e
          | Ok (margins, strengths) =>
              let best_receiver_name := best_scan margins None None in
              match reset_all decoders with
              | Raise e => Raise e
              | Ok decoders' =>
                  match best_receiver_name with
                  | None => Raise KeyError
                  | Some best =>
                      match dict_get datas best with
                      | None => Raise KeyError
                      | Some data =>
                          Ok (Packet data, mkMulti readers decoders' margins strengths)
                      end
                  end
              end
          end
        else
          Ok (NoPacket,
              mkMulti readers decoders
                      (_last_error_margins self) (_last_signal_strengths self))
    end.

(** The [while] loop, at most [fuel] iterations; [None] when the
    iterations run out. *)
Fixpoint receive_loop (fuel : nat) (self : InfraredMultiReceiver)
  : option (result (option bytes * InfraredMultiReceiver)) :=
  match fuel with
  | O => None
  | S fuel' =>
      match receive_round self with
      | Raise e => Some (Raise e)
      | Ok (NoPulses, self') => Some (Ok (None, self'))
      | Ok (Packet data, self') => Some (Ok (Some data, self'))
      | Ok (NoPacket, self') => receive_loop fuel' self'
      end
  end.

(** The number of pulses the sensors still hold. *)
Definition queued (readers : dict PulseReader) : nat :=
  fold_right (fun item n => (List.length (snd item) + n)%nat) O readers.

(** [InfraredMultiReceiver.receive]. *)
Definition InfraredMultiReceiver_receive (self : InfraredMultiReceiver)
  : option (result (option bytes * InfraredMultiReceiver)) :=
  receive_loop (S (queued (_pulse_readers self))) self.

End MultiReceiver.

(** The receiver after [n] iterations of the [while] loop of [receive]
    in which no decoder returned a packet; [None] when one of the first
    [n] iterations ends the loop. *)
Fixpoint quiet_rounds (decode : Z -> M (option bytes)) (n : nat)
    (self : InfraredMultiReceiver) : option InfraredMultiReceiver :=
  match n with
  | O => Some self
  | S n' =>
      match receive_round decode self with
      | Ok (NoPacket, self') => quiet_rounds decode n' self'
      | _ => None
      end
  end.

(** The value a method call returns, when it returns. *)
Definition returned {A S : Type} (r : result (A * S)) : option A :=
  match r with
  | Ok (a, _) => Some a
  | Raise _ => None
  end.


(** The field ranges of a valid [TagData]. *)
Definition tag_in_range (t : TagData) : Prop :=
  0 <= team t <= 3 /\ 1 <= player t <= 8 /\ 1 <= damage t <= 4.

(** ** Reachable states of a tag decoder *)

(** The number of data bits written before decoder state [s]. *)
Definition bits_written (s : Z) : Z := if s <? 3 then 0 else (s - 3) / 2.

(** What holds of a tag decoder between two calls: either the bit
    writer was reset before the packet began, or the decoder is new
    (bit index 0) and has not written a bit yet, or it was new and the
    first bit has already completed a byte. *)
Definition tag_inv (d : InfraredDecoder) : Prop :=
  _error_threshold d = TAG_ERROR_MARGIN
  /\ 0 <= _decoder_state d <= 17
  /\ 0 <= _received_byte d < 256
  /\ ((_received_data d = []
       /\ _received_bit_index d = 7 - bits_written (_decoder_state d))
      \/ (_received_data d = []
          /\ _received_bit_index d = 0 /\ _decoder_state d <= 4)
      \/ (exists b : Z,
            _received_data d = [b] /\ 0 <= b < 256 /\ 5 <= _decoder_state d
            /\ _received_bit_index d = 8 - bits_written (_decoder_state d))).

(** The states a [TagInfraredDecoder] goes through: constructed, then
    any sequence of [decode] and [reset] calls. *)
Inductive tag_reachable : InfraredDecoder -> Prop :=
| reach_init : tag_reachable TagInfraredDecoder_init
| reach_decode (d d' : InfraredDecoder) (pulse : Z) (out : option bytes) :
    tag_reachable d ->
    TagInfraredDecoder_decode pulse d = Ok (out, d') ->
    tag_reachable d'
| reach_reset (d d' : InfraredDecoder) (error_margin : Z) :
    tag_reachable d ->
    reset error_margin d = Ok (tt, d') ->
    tag_reachable d'.

(** A returned packet is one byte of at most 0x7F. *)
Definition packet_ok (out : option bytes) : Prop :=
  match out with
  | None => True
  | Some packet => exists v : Z, packet = [v] /\ 0 <= v <= 127
  end.

(** A tag decoder as [reset] leaves it, ready for a preamble. *)
Definition tag_ready (d : InfraredDecoder) : Prop :=
  _error_threshold d = TAG_ERROR_MARGIN
  /\ _decoder_state d = 0
  /\ _received_data d = []
  /\ _received_bit_index d = 7
  /\ _received_byte d = 0.

(** Encoding [data] and feeding the pulses one at a time to the decoder
    [d] makes some [decode] call return [packet]. *)
Definition pipeline_returns (d : InfraredDecoder) (data packet : bytes) : Prop :=
  exists (pulses : list Z) (outs : list (option bytes)) (d' : InfraredDecoder),
    TagInfraredEncoder_encode data = Ok pulses
    /\ feed TagInfraredDecoder_decode pulses d = Ok (outs, d')
    /\ In (Some packet) outs.

(** The seven data bits of a byte, most significant first. *)
Definition tag_bits (b : Z) : list bool := map (Z.testbit b) [6; 5; 4; 3; 2; 1; 0].

(** The mark and space pulses of a sequence of data bits. *)
Definition bit_pulses (bits : list bool) : list Z :=
  flat_map (fun bit : bool =>
              [TAG_MARK; if bit then TAG_SPACE_ONE else TAG_SPACE_ZERO]) bits.

(** The byte the bit writer holds after writing [bits] from index [idx]
    downwards into [byte]. *)
Fixpoint write_bits (bits : list bool) (idx byte : Z) : Z :=
  match bits with
  | [] => byte
  | bit :: rest =>
      write_bits rest (idx - 1) (if bit then Z.lor byte (Z.shiftl 1 idx) else byte)
  end.

Fixpoint pulses_eqb (l l' : list Z) : bool :=
  match l, l' with
  | [], [] => true
  | x :: r, x' :: r' => (x =? x') && pulses_eqb r r'
  | _, _ => false
  end.

(** The checks run over all 256 byte values. *)
Definition encode_check (b : Z) : bool :=
  match TagInfraredEncoder_encode [b] with
  | Ok pulses => pulses_eqb pulses (TAG_PREAMBLE ++ bit_pulses (tag_bits b))
  | Raise _ => false
  end.

Definition bits_check (b : Z) : bool :=
  Z.shiftr (write_bits (tag_bits b) 7 0) 1 =? Z.land b 127.

(** ** Arbitration among sensors *)

(** Whether the sensor [name] completed a packet in this round. *)
Definition has_data (datas : dict bytes) (name : string) : bool :=
  match dict_get datas name with
  | Some _ => true
  | None => false
  end.

(** The decoders of the sensors that completed a packet, in the order of
    the sensors. *)
Definition completed (datas : dict bytes) (decoders : dict InfraredDecoder)
  : dict InfraredDecoder :=
  filter (fun item => has_data datas (fst item)) decoders.

(** [best] has the lowest margin among [items], and is the first of
    those that have it. *)
Definition first_lowest (items : dict Z) (best : string) : Prop :=
  exists (before : dict Z) (m : Z) (after : dict Z),
    items = before ++ (best, m) :: after
    /\ (forall (n : string) (m' : Z), In (n, m') before -> m < m')
    /\ (forall (n : string) (m' : Z), In (n, m') after -> m <= m').

(** The decoder [reset] leaves when called with the decoder's own last
    error margin. *)
Definition reset_own (d : InfraredDecoder) : InfraredDecoder :=
  mkDecoder (_error_threshold d) 0 [] 7 0 0 (_last_error_margin d).

(** Three sensors at the start of a round: the decoders of "Left" and
    "Right" have taken in a whole packet (0x25 with a worst deviation
    of 40, 0x52 with a worst deviation of 10) and each sensor holds one
    more pulse; "NA" has a new decoder and no pulse. *)
Definition arbitration_example : InfraredMultiReceiver :=
  {| _pulse_readers := [("Left"%string, [3000]); ("NA"%string, []);
                        ("Right"%string, [3000])];
     _decoders := [("Left"%string, mkDecoder 500 17 [] 0 74 40 500);
                   ("NA"%string, TagInfraredDecoder_init);
                   ("Right"%string, mkDecoder 500 17 [] 0 164 10 500)];
     _last_error_margins := [];
     _last_signal_strengths := [] |}.

(** ** protocol.py: LoggingInfraredDecoder *)

(** [LoggingInfraredDecoder.__init__]. *)
Definition LoggingInfraredDecoder_init : InfraredDecoder := InfraredDecoder_init 0.

(** [LoggingInfraredDecoder.decode]; the [print] is console output. *)
Definition LoggingInfraredDecoder_decode (pulse : Z) : M (option bytes) := ret None.

(** ** test_protocol.py: TestEncoder *)

(** [TestEncoder._encode_byte]: the loop [for i in range(8)].  The array
    is updated in place; here the updated array is returned. *)
Fixpoint _encode_byte_loop (n : nat) (durations : list Z) (duration_index value : Z)
  : result (list Z) :=
  match n with
  | O => Ok durations
  | S n' =>
      match array_set durations duration_index
              (if Z.land value 128 >? 0 then IR_ONE else IR_ZERO) with
      | Raise e => Raise e
      | Ok durations =>
          _encode_byte_loop n' durations (duration_index + 1) (Z.shiftl value 1)
      end
  end.

Definition _encode_byte (durations : list Z) (duration_index value : Z)
  : result (list Z) :=
  _encode_byte_loop 8 durations duration_index value.

(** The loop [for data_byte in data] of [TestEncoder.encode]. *)
Fixpoint encode_data_bytes (data : bytes) (durations : list Z) (duration_index : Z)
  : result (list Z * Z) :=
  match data with
  | [] => Ok (durations, duration_index)
  | data_byte :: rest =>
      match _encode_byte durations duration_index data_byte with
      | Raise e => Raise e
      | Ok durations => encode_data_bytes rest durations (duration_index + 8)
      end
  end.

(** [TestEncoder.encode]. *)
Definition TestEncoder_encode (data : bytes) : result (list Z) :=
  let durations := repeat 0 (Z.to_nat (2 + len data * 8 + 8 + 1)) in
  match array_set durations 0 IR_HEADER_MARK with
  | Raise e => Raise e
  | Ok durations =>
      match array_set durations 1 IR_HEADER_SPACE with
      | Raise e => Raise e
      | Ok durations =>
          match array_set durations (-1) IR_LEAD_OUT with
          | Raise e => Raise e
          | Ok durations =>
              match encode_data_bytes data durations 2 with
              | Raise e => Raise e
              | Ok (durations, duration_index) =>
                  let crc := _calculate_crc data in
                  _encode_byte durations duration_index crc
              end
          end
      end
  end.

(** ** infrared.py: InfraredSingleReceiver *)

Record InfraredSingleReceiver : Type := mkSingle {
  _pulse_reader : PulseReader;
  _decoder : InfraredDecoder
}.

(** [InfraredSingleReceiver.receive], for a decoder whose [decode]
    method is [decode].  Every iteration of the [while] loop takes one
    pulse off the queue ([read_pulse]), so the loop is a recursion on
    the queue. *)
Fixpoint single_receive_loop (decode : Z -> M (option bytes))
    (reader : PulseReader) (decoder : InfraredDecoder)
  : result (option bytes * InfraredSingleReceiver) :=
  match reader with
  | [] => Ok (None, mkSingle [] decoder)
  | next_pulse :: rest =>
      match decode next_pulse decoder with
      | Raise e => Raise e
      | Ok (Some data, decoder') => Ok (Some data, mkSingle rest decoder')
      | Ok (None, decoder') => single_receive_loop decode rest decoder'
      end
  end.

Definition InfraredSingleReceiver_receive (decode : Z -> M (option bytes))
    (self : InfraredSingleReceiver)
  : result (option bytes * InfraredSingleReceiver) :=
  single_receive_loop decode (_pulse_reader self) (_decoder self).

(** ** infrared.py: InfraredTransmitter *)

(** A [PulseWriter] is the list of the duration sequences written to it,
    oldest first. *)
Definition PulseWriter : Type := list (list Z).

Definition write_pulses (writer : PulseWriter) (durations : list Z) : PulseWriter :=
  writer ++ [durations].

(** [InfraredTransmitter.send], for an encoder whose [encode] method is
    [encode]: the default writer and the override (when one is passed)
    after the call. *)
Definition InfraredTransmitter_send (encode : bytes -> result (list Z))
    (_pulse_writer : PulseWriter) (data : bytes)
    (pulse_writer_override : option PulseWriter)
  : result (PulseWriter * option PulseWriter) :=
  match encode data with
  | Raise e => Raise e
  | Ok durations =>
      match pulse_writer_override with
      | Some override => Ok (_pulse_writer, Some (write_pulses override durations))
      | None => Ok (write_pulses _pulse_writer durations, None)
      end
  end.

(** ** infrared.py: the queries of InfraredMultiReceiver *)

(** Python's [sorted] is stable: an element goes in front of the first
    one it is not greater than, so equal elements keep their order.
    [le x y] says that [x] may stand before [y]. *)
Fixpoint insert_sorted {A : Type} (le : A -> A -> bool) (x : A) (l : list A) : list A :=
  match l with
  | [] => [x]
  | y :: rest => if le x y then x :: l else y :: insert_sorted le x rest
  end.

Definition py_sorted {A : Type} (le : A -> A -> bool) (l : list A) : list A :=
  fold_right (insert_sorted le) [] l.

(** [dict(items)]. *)
Definition dict_of_items {V : Type} (items : list (string * V)) : dict V :=
  fold_left (fun acc item => dict_set acc (fst item) (snd item)) items [].

(** The keys [sorted] computes for the names, by the subscript
    [self._last_error_margins[name]]. *)
Fixpoint margin_keys (margins : dict Z) (names : list string)
  : result (list (string * Z)) :=
  match names with
  | [] => Ok []
  | name :: rest =>
      match dict_get margins name with
      | None => Raise KeyError
      | Some m =>
          match margin_keys margins rest with
          | Raise e => Raise e
          | Ok keyed => Ok ((name, m) :: keyed)
          end
      end
  end.

Definition margin_le (x y : string * Z) : bool := snd x <=? snd y.

(** [reverse=True]: the larger strength stands first. *)
Definition strength_ge (x y : string * Q) : bool := Qle_bool (snd y) (snd x).

(** [last_receivers]. *)
Definition InfraredMultiReceiver_last_receivers (self : InfraredMultiReceiver)
  : result (list string) :=
  match margin_keys (_last_error_margins self) (keys (_last_error_margins self)) with
  | Raise e => Raise e
  | Ok keyed => Ok (map fst (py_sorted margin_le keyed))
  end.

(** [InfraredMultiReceiver.last_error_margin]. *)
Definition InfraredMultiReceiver_last_error_margin (self : InfraredMultiReceiver)
  : result (option Z) :=
  match last_best_receiver self with
  | Some best_receiver_name =>
      match dict_get (_last_error_margins self) best_receiver_name with
      | Some m => Ok (Some m)
      | None => Raise KeyError
      end
  | None => Ok None
  end.

(** [last_error_margins]. *)
Definition InfraredMultiReceiver_last_error_margins (self : InfraredMultiReceiver)
  : dict Z :=
  dict_of_items (py_sorted margin_le (_last_error_margins self)).

(** [InfraredMultiReceiver.last_signal_strength]. *)
Definition InfraredMultiReceiver_last_signal_strength (self : InfraredMultiReceiver)
  : result (option Q) :=
  match last_best_receiver self with
  | Some best_receiver_name =>
      match dict_get (_last_signal_strengths self) best_receiver_name with
      | Some s => Ok (Some s)
      | None => Raise KeyError
      end
  | None => Ok None
  end.

(** [last_signal_strengths]. *)
Definition InfraredMultiReceiver_last_signal_strengths (self : InfraredMultiReceiver)
  : dict Q :=
  dict_of_items (py_sorted strength_ge (_last_signal_strengths self)).

(** ** Vocabulary of the further properties *)

(** Decoding a byte and encoding the fields again, checked over all
    256 byte values. *)
Definition codec_check (b : Z) : bool :=
  match decode_tag_data [b] with
  | Ok t =>
      match encode_tag_data t with
      | Ok [v] => v =? Z.land b 127
      | _ => false
      end
  | Raise _ => false
  end.

(** Every pulse is closer than [threshold] to its nominal duration. *)
Definition within_tolerance (threshold : Z) (pulses nominal : list Z) : Prop :=
  Forall2 (fun p n => Z.abs (p - n) < threshold) pulses nominal.

(** The largest deviation of the pulses from their nominal durations,
    and [start]. *)
Definition max_deviation (pulses nominal : list Z) (start : Z) : Z :=
  fold_left (fun m pn => Z.max m (Z.abs (fst pn - snd pn))) (combine pulses nominal) start.

(** The durations [TagInfraredDecoder.decode] compares a pulse with in
    state [s], for [s] before the completion state. *)
Definition tag_expected (s : Z) : list Z :=
  if s <? 3 then
    match py_index TAG_PREAMBLE s with
    | Ok e => [e]
    | Raise _ => []
    end
  else if (s - 3) mod 2 =? 0 then [TAG_MARK]
  else [TAG_SPACE_ONE; TAG_SPACE_ZERO].

(** The eight bits of a byte, most significant first, and their pulses
    in the CRC protocol. *)
Definition bits8 (v : Z) : list bool := map (Z.testbit v) [7; 6; 5; 4; 3; 2; 1; 0].

Definition bit_pulse (bit : bool) : Z := if bit then IR_ONE else IR_ZERO.

Definition byte_pulses (v : Z) : list Z := map bit_pulse (bits8 v).

(** The pulses [_encode_byte] writes: the test of bit 7 and the left
    shift, [n] times. *)
Fixpoint shift_pulses (n : nat) (value : Z) : list Z :=
  match n with
  | O => []
  | S n' =>
      (if Z.land value 128 >? 0 then IR_ONE else IR_ZERO)
        :: shift_pulses n' (Z.shiftl value 1)
  end.

Definition shift_check (v : Z) : bool :=
  pulses_eqb (shift_pulses 8 v) (byte_pulses v) && (write_bits (bits8 v) 7 0 =? v).

(** An [MWDecoder] as [reset] leaves it. *)
Definition mw_ready (d : InfraredDecoder) : Prop :=
  _error_threshold d = IR_ERROR_MARGIN
  /\ _decoder_state d = 0
  /\ _received_data d = []
  /\ _received_bit_index d = 7
  /\ _received_byte d = 0.

(** The first of the entries with the lowest margin. *)
Fixpoint first_min (items : dict Z) : option (string * Z) :=
  match items with
  | [] => None
  | x :: rest =>
      match first_min rest with
      | None => Some x
      | Some y => if snd x <=? snd y then Some x else Some y
      end
  end.

(** Calling [write_bit] for each bit in turn. *)
Fixpoint write_bit_each (bits : list Z) : M unit :=
  match bits with
  | [] => ret tt
  | bit :: rest => write_bit bit ;; write_bit_each rest
  end.

(** The argument [write_bit] gets for a bit. *)
Definition bit_value (bit : bool) : Z := if bit then 1 else 0.

(** ** The CRC-8 as a polynomial remainder *)

(** A polynomial over GF(2) is the integer whose bit [i] is the
    coefficient of x^i.  The generator polynomial of the CRC-8 is
    x^8 + x^4 + x^3 + x^2 + 1: [IR_CRC_GENERATOR] (0x1D) holds its
    coefficients below x^8. *)
Definition crc_polynomial : Z := Z.lor (Z.shiftl 1 8) IR_CRC_GENERATOR.

(** The product of the generator polynomial and the polynomial with the
    coefficients [q], lowest first. *)
Fixpoint generator_multiple (q : list bool) : Z :=
  match q with
  | [] => 0
  | c :: q' =>
      Z.lxor (if c then crc_polynomial else 0) (Z.shiftl (generator_multiple q') 1)
  end.

(** The bytes as one polynomial, the first byte in the highest
    coefficients. *)
Definition message (data : bytes) : Z := fold_left (fun acc b => 256 * acc + b) data 0.

(** [c] is the CRC-8 of [data]: the remainder, of degree below 8, of
    the message times x^8 in the division by the generator
    polynomial. *)
Definition is_crc8 (data : bytes) (c : Z) : Prop :=
  0 <= c < 256
  /\ exists q : list bool,
       Z.shiftl (message data) 8 = Z.lxor (generator_multiple q) c.

(** The sum of two polynomials given by their coefficients. *)
Fixpoint xor_coeffs (p q : list bool) : list bool :=
  match p, q with
  | [], _ => q
  | _, [] => p
  | a :: p', b :: q' => xorb a b :: xor_coeffs p' q'
  end.

(** The top bits that the [n] shifts of [_calculate_crc] test, first
    shift first: the coefficients of the quotient, highest first. *)
Fixpoint crc_tops (n : nat) (crc : Z) : list bool :=
  match n with
  | O => []
  | S n' =>
      negb (Z.land crc 128 =? 0)
        :: crc_tops n'
             (if negb (Z.land crc 128 =? 0)
              then Z.lxor (Z.land (Z.shiftl crc 1) 255) IR_CRC_GENERATOR
              else Z.land (Z.shiftl crc 1) 255)
  end.

(** Eight shifts divide a byte times x^8 by the generator polynomial,
    checked over all 256 byte values. *)
Definition crc_division_check (c : Z) : bool :=
  Z.shiftl c 8 =? Z.lxor (generator_multiple (rev (crc_tops 8 c))) (crc_shift 8 c).

(** * Properties *)

(** ** The decoder base class *)

Section DecoderEngine.

Variable self : InfraredDecoder.

Lemma check_pulse_match (received expected : Z) :
  Z.abs (received - expected) < _error_threshold self ->
  check_pulse received expected self =
  Ok (true,
      set_max_error_margin
        (Z.max (_max_error_margin self) (Z.abs (received - expected))) self).
Proof.
  intros Hlt. unfold check_pulse, bind, get, modify, ret.
  apply Z.ltb_lt in Hlt. rewrite Hlt. reflexivity.
Qed.

Lemma check_pulse_mismatch (received expected : Z) :
  _error_threshold self <= Z.abs (received - expected) ->
  check_pulse received expected self = Ok (false, self).
Proof.
  intros Hge. unfold check_pulse, bind, get, modify, ret.
  apply Z.ltb_ge in Hge. rewrite Hge. reflexivity.
Qed.

Lemma check_pulse_total (received expected : Z) :
  exists matched self', check_pulse received expected self = Ok (matched, self').
Proof.
  destruct (Z_lt_le_dec (Z.abs (received - expected)) (_error_threshold self)) as [H | H].
  - rewrite (check_pulse_match _ _ H). eauto.
  - rewrite (check_pulse_mismatch _ _ H). eauto.
Qed.

End DecoderEngine.

(** C3.  [check_pulse] answers true exactly when the absolute deviation
    is below the error threshold; a true answer raises the running
    maximum margin to at least that deviation and changes nothing else,
    a false answer changes nothing.  A deviation of threshold - 1
    matches (for a threshold of at least 1), a deviation of exactly the
    threshold never does. *)
Theorem check_pulse_spec (self : InfraredDecoder) (received expected : Z) :
  let margin := Z.abs (received - expected) in
  let threshold := _error_threshold self in
  (returned (check_pulse received expected self) = Some true <-> margin < threshold)
  /\ (margin < threshold ->
      check_pulse received expected self =
      Ok (true, set_max_error_margin (Z.max (_max_error_margin self) margin) self))
  /\ (~ margin < threshold ->
      check_pulse received expected self = Ok (false, self))
  /\ (1 <= threshold ->
      returned (check_pulse (expected + (threshold - 1)) expected self) = Some true
      /\ returned (check_pulse (expected - (threshold - 1)) expected self) = Some true)
  /\ returned (check_pulse (expected + threshold) expected self) = Some false
  /\ returned (check_pulse (expected - threshold) expected self) = Some false.
Proof.
  cbv zeta. repeat split.
  - intros H.
    destruct (Z_lt_le_dec (Z.abs (received - expected)) (_error_threshold self)) as [Hlt | Hge];
      [exact Hlt |].
    rewrite (check_pulse_mismatch _ _ _ Hge) in H. discriminate H.
  - intros H. rewrite (check_pulse_match _ _ _ H). reflexivity.
  - apply check_pulse_match.
  - intros H. apply check_pulse_mismatch. lia.
  - rewrite check_pulse_match; [reflexivity | lia].
  - rewrite check_pulse_match; [reflexivity | lia].
  - rewrite check_pulse_mismatch; [reflexivity | lia].
  - rewrite check_pulse_mismatch; [reflexivity | lia].
Qed.

Lemma check_pulse_spec_witness :
  returned (check_pulse 3499 3000 TagInfraredDecoder_init) = Some true
  /\ returned (check_pulse 3500 3000 TagInfraredDecoder_init) = Some false.
Proof.
  pose proof (check_pulse_spec TagInfraredDecoder_init 3000 3000) as H.
  cbv zeta in H.
  destruct H as (_ & _ & _ & Hnear & Hfar & _).
  split.
  - apply Hnear. vm_compute. discriminate.
  - exact Hfar.
Defined.

(** The bit written by [write_bit]: the current byte with the bit set at
    the current index when the bit is 1. *)
Lemma write_bit_inside (self : InfraredDecoder) (bit : Z) :
  1 <= _received_bit_index self ->
  write_bit bit self =
  Ok (tt,
      set_received_bit_index (_received_bit_index self - 1)
        (set_received_byte
           (if bit =? 1
            then Z.lor (_received_byte self) (Z.shiftl 1 (_received_bit_index self))
            else _received_byte self) self)).
Proof.
  intros Hidx. destruct self as [t st data idx byte mx lst]. cbn in Hidx.
  unfold write_bit, bind, get, modify, ret, lift, py_shiftl. cbn.
  destruct (bit =? 1); cbn.
  - destruct (Z.ltb_spec idx 0); [lia |]. cbn.
    destruct (Z.ltb_spec (idx - 1) 0); [lia |]. reflexivity.
  - destruct (Z.ltb_spec (idx - 1) 0); [lia |]. reflexivity.
Qed.

(** At index 0 the byte is complete: it is appended and the bit writer
    starts a new byte at index 7. *)
Lemma write_bit_last (self : InfraredDecoder) (bit : Z) :
  _received_bit_index self = 0 ->
  0 <= _received_byte self < 256 ->
  write_bit bit self =
  Ok (tt,
      set_received_bit_index 7
        (set_received_byte 0
           (set_received_data
              (_received_data self ++
               [if bit =? 1 then Z.lor (_received_byte self) 1 else _received_byte self])
              self))).
Proof.
  intros Hidx Hbyte. destruct self as [t st data idx byte mx lst]. cbn in Hidx, Hbyte.
  subst idx.
  assert (Hlor : 0 <= Z.lor byte 1 < 256).
  { split.
    - apply Z.lor_nonneg. lia.
    - change 256 with (2 ^ 8). apply Z.log2_lt_cancel.
      destruct (Z.eq_dec byte 0) as [-> | Hnz]; [cbn; lia |].
      rewrite Z.log2_lor by lia.
      change (Z.log2 1) with 0. rewrite Z.log2_pow2 by lia.
      apply Z.max_lub_lt; [| lia].
      apply Z.log2_lt_pow2; lia. }
  unfold write_bit, bind, get, modify, ret, lift, py_shiftl, bytearray_append, is_byte. cbn.
  destruct (bit =? 1); cbn.
  - destruct (Z.leb_spec 0 (Z.lor byte 1)); [| lia].
    destruct (Z.ltb_spec (Z.lor byte 1) 256); [| lia]. reflexivity.
  - destruct (Z.leb_spec 0 byte); [| lia].
    destruct (Z.ltb_spec byte 256); [| lia]. reflexivity.
Qed.

(** C2.  [__init__] leaves the bit index at 0, not 7: the first bit
    written on a newly constructed decoder lands in bit 0 and completes a
    byte at once. *)
Theorem fresh_decoder_write_bit (error_threshold : Z) :
  _received_bit_index (InfraredDecoder_init error_threshold) = 0
  /\ write_bit 1 (InfraredDecoder_init error_threshold) =
     Ok (tt,
         set_received_bit_index 7
           (set_received_data [1] (InfraredDecoder_init error_threshold))).
Proof.
  split; reflexivity.
Qed.

(** C6.  On a newly constructed decoder [last_error_margin] is the
    integer 0, not [None], and the signal strength reads 1. *)
Theorem fresh_decoder_last_error_margin (error_threshold : Z) :
  last_error_margin (InfraredDecoder_init error_threshold) = Some 0
  /\ last_signal_strength (InfraredDecoder_init error_threshold) = Ok 1%Q.
Proof.
  split; reflexivity.
Qed.





(** In binary64 arithmetic the strength at a margin equal to the
    threshold is the float nearest to 1.3 - 1, again not 0. *)
Lemma last_signal_strength_at_threshold_binary64 :
  last_signal_strength_binary64 (mkDecoder 500 0 [] 7 0 0 500)
  = Ok 0x1.3333333333334p-2%float
  /\ PrimFloat.ltb 0 0x1.3333333333334p-2 = true.
Proof.
  split; vm_compute; reflexivity.
Qed.

(** ** The tag field codec *)

Ltac tag_cases t :=
  let tm := fresh "tm" in
  let pl := fresh "pl" in
  let dm := fresh "dm" in
  let H := fresh "H" in
  destruct t as [tm pl dm]; unfold tag_in_range; cbn [team player damage];
  intros H;
  assert (tm = 0 \/ tm = 1 \/ tm = 2 \/ tm = 3) by lia;
  assert (pl = 1 \/ pl = 2 \/ pl = 3 \/ pl = 4 \/ pl = 5 \/ pl = 6 \/ pl = 7 \/ pl = 8)
    by lia;
  assert (dm = 1 \/ dm = 2 \/ dm = 3 \/ dm = 4) by lia;
  clear H;
  repeat match goal with
         | H : _ \/ _ |- _ => destruct H
         end;
  subst.

Lemma encode_tag_data_in_range (t : TagData) :
  tag_in_range t ->
  encode_tag_data t =
  Ok [Z.lor (Z.lor (Z.shiftl (team t) 5) (Z.shiftl (player t - 1) 2)) (damage t - 1)].
Proof.
  tag_cases t; reflexivity.
Qed.

Lemma encode_tag_data_out_of_range (t : TagData) :
  ~ tag_in_range t -> encode_tag_data t = Raise ValueError.
Proof.
  destruct t as [tm pl dm]. unfold tag_in_range, encode_tag_data. cbn [team player damage].
  intros Hout.
  destruct (Z.ltb_spec tm 0); [reflexivity |].
  destruct (Z.gtb_spec tm 3); [reflexivity |].
  destruct (Z.ltb_spec pl 1); [reflexivity |].
  destruct (Z.gtb_spec pl 8); [reflexivity |].
  destruct (Z.ltb_spec dm 1); [reflexivity |].
  destruct (Z.gtb_spec dm 4); [reflexivity |].
  exfalso. apply Hout. lia.
Qed.

(** C8.  [encode_tag_data] raises [ValueError] exactly when a field is
    out of range; in range it returns the one byte
    [team<<5 | (player-1)<<2 | (damage-1)]; team 2, player 5, damage 3
    gives 0x52. *)
Theorem encode_tag_data_spec (t : TagData) :
  (encode_tag_data t = Raise ValueError <-> ~ tag_in_range t)
  /\ (tag_in_range t ->
      encode_tag_data t =
      Ok [Z.lor (Z.lor (Z.shiftl (team t) 5) (Z.shiftl (player t - 1) 2)) (damage t - 1)])
  /\ encode_tag_data (mkTagData 2 5 3) = Ok [82].
Proof.
  split; [| split].
  - split.
    + intros Hraise Hin. rewrite (encode_tag_data_in_range t Hin) in Hraise.
      discriminate Hraise.
    + apply encode_tag_data_out_of_range.
  - apply encode_tag_data_in_range.
  - reflexivity.
Qed.

Lemma encode_tag_data_spec_witness :
  encode_tag_data (mkTagData 3 8 4) = Ok [127]
  /\ encode_tag_data (mkTagData 4 1 1) = Raise ValueError.
Proof.
  split.
  - apply (proj1 (proj2 (encode_tag_data_spec (mkTagData 3 8 4)))).
    unfold tag_in_range; cbn; lia.
  - apply (proj1 (encode_tag_data_spec (mkTagData 4 1 1))).
    unfold tag_in_range; cbn; lia.
Defined.

(** C9.  Decoding the byte that [encode_tag_data] returns for a valid
    [TagData] gives back the same team, player and damage. *)
Theorem tag_data_roundtrip (t : TagData) :
  tag_in_range t ->
  exists data : bytes,
    encode_tag_data t = Ok data /\ decode_tag_data data = Ok t.
Proof.
  tag_cases t; eexists; split; reflexivity.
Qed.

Lemma tag_data_roundtrip_witness :
  exists data : bytes,
    encode_tag_data (mkTagData 2 5 3) = Ok data
    /\ decode_tag_data data = Ok (mkTagData 2 5 3).
Proof.
  apply (tag_data_roundtrip (mkTagData 2 5 3)).
  unfold tag_in_range; cbn; lia.
Defined.

(** ** The CRC protocol decoder *)

Lemma bind_ok {A B : Type} (m : M A) (k : A -> M B) (self self' : InfraredDecoder) (a : A) :
  m self = Ok (a, self') -> bind m k self = k a self'.
Proof.
  intros H. unfold bind. rewrite H. reflexivity.
Qed.

Lemma py_index_last (body : bytes) (crc : Z) :
  py_index (body ++ [crc]) (-1) = Ok crc.
Proof.
  unfold py_index, len. cbn [Z.ltb Z.compare].
  rewrite length_app. cbn [List.length].
  replace (-1 + Z.of_nat (List.length body + 1)) with (Z.of_nat (List.length body)) by lia.
  destruct (Z.ltb_spec (Z.of_nat (List.length body)) 0); [lia |].
  rewrite Nat2Z.id, nth_error_app2 by lia.
  rewrite Nat.sub_diag. reflexivity.
Qed.

Lemma firstn_body (body : bytes) (crc : Z) :
  firstn (Z.to_nat (len (body ++ [crc]) - 1)) (body ++ [crc]) = body.
Proof.
  unfold len. rewrite length_app. cbn [List.length].
  replace (Z.to_nat (Z.of_nat (List.length body + 1) - 1)) with (List.length body) by lia.
  rewrite firstn_app, Nat.sub_diag, firstn_all. cbn. apply app_nil_r.
Qed.

(** *** The checksum *)

Lemma byte_in_range (b : Z) :
  0 <= b < 256 -> In b (map Z.of_nat (seq 0 256)).
Proof.
  intros Hb. apply in_map_iff. exists (Z.to_nat b). split; [lia |].
  apply in_seq. lia.
Qed.

Lemma forall_bytes (P : Z -> bool) :
  forallb P (map Z.of_nat (seq 0 256)) = true ->
  forall b : Z, 0 <= b < 256 -> P b = true.
Proof.
  intros H b Hb. rewrite forallb_forall in H. apply H, byte_in_range, Hb.
Qed.

Lemma lxor_byte (a b : Z) : 0 <= a < 256 -> 0 <= b < 256 -> 0 <= Z.lxor a b < 256.
Proof.
  intros Ha Hb. split.
  - apply Z.lxor_nonneg. lia.
  - destruct (Z.eq_dec (Z.lxor a b) 0) as [-> | Hnz]; [lia |].
    assert (Hpos : 0 < Z.lxor a b).
    { pose proof (proj2 (Z.lxor_nonneg a b)) as H. lia. }
    change 256 with (2 ^ 8). apply Z.log2_lt_pow2; [exact Hpos |].
    pose proof (Z.log2_lxor a b ltac:(lia) ltac:(lia)) as Hlog.
    assert (Hla : Z.log2 a < 8).
    { destruct (Z.eq_dec a 0) as [-> | Hna]; [cbn; lia |].
      apply Z.log2_lt_pow2; [lia | change (2 ^ 8) with 256; lia]. }
    assert (Hlb : Z.log2 b < 8).
    { destruct (Z.eq_dec b 0) as [-> | Hnb]; [cbn; lia |].
      apply Z.log2_lt_pow2; [lia | change (2 ^ 8) with 256; lia]. }
    lia.
Qed.

Lemma land_byte (x : Z) : 0 <= Z.land x 255 < 256.
Proof.
  change 255 with (Z.ones 8). rewrite Z.land_ones by lia.
  change 256 with (2 ^ 8). apply Z.mod_pos_bound. lia.
Qed.

Lemma crc_shift_byte (n : nat) :
  forall crc : Z, 0 <= crc < 256 -> 0 <= crc_shift n crc < 256.
Proof.
  induction n as [| n IH]; intros crc Hcrc; [exact Hcrc |].
  cbn [crc_shift]. apply IH.
  destruct (negb (Z.land crc 128 =? 0)).
  - apply lxor_byte; [apply land_byte | unfold IR_CRC_GENERATOR; lia].
  - apply land_byte.
Qed.

Lemma crc_shift_8_byte (crc : Z) : 0 <= crc_shift 8 crc < 256.
Proof.
  change (crc_shift 8 crc)
    with (crc_shift 7
            (if negb (Z.land crc 128 =? 0)
             then Z.lxor (Z.land (Z.shiftl crc 1) 255) IR_CRC_GENERATOR
             else Z.land (Z.shiftl crc 1) 255)).
  apply crc_shift_byte.
  destruct (negb (Z.land crc 128 =? 0)).
  - apply lxor_byte; [apply land_byte | unfold IR_CRC_GENERATOR; lia].
  - apply land_byte.
Qed.

Lemma calculate_crc_from (data : bytes) :
  forall crc : Z,
    0 <= crc < 256 ->
    0 <= fold_left (fun crc data_byte => crc_shift 8 (Z.lxor crc data_byte)) data crc < 256.
Proof.
  induction data as [| x rest IH]; intros crc Hcrc; [exact Hcrc |].
  cbn [fold_left]. apply IH, crc_shift_8_byte.
Qed.

Lemma calculate_crc_byte (data : bytes) : 0 <= _calculate_crc data < 256.
Proof.
  apply calculate_crc_from. lia.
Qed.

Lemma calculate_crc_snoc (data : bytes) (x : Z) :
  _calculate_crc (data ++ [x]) = crc_shift 8 (Z.lxor (_calculate_crc data) x).
Proof.
  unfold _calculate_crc. rewrite fold_left_app. reflexivity.
Qed.

Lemma crc_division_byte (c : Z) :
  0 <= c < 256 ->
  Z.shiftl c 8 = Z.lxor (generator_multiple (rev (crc_tops 8 c))) (crc_shift 8 c).
Proof.
  intros Hc. apply Z.eqb_eq.
  apply (forall_bytes crc_division_check); [vm_compute; reflexivity | exact Hc].
Qed.

Lemma generator_multiple_xor (p : list bool) :
  forall q : list bool,
    generator_multiple (xor_coeffs p q)
    = Z.lxor (generator_multiple p) (generator_multiple q).
Proof.
  induction p as [| a p IH]; intros q.
  - cbn [xor_coeffs generator_multiple]. symmetry. apply Z.lxor_0_l.
  - destruct q as [| b q];
      [cbn [xor_coeffs generator_multiple]; symmetry; apply Z.lxor_0_r |].
    cbn [xor_coeffs generator_multiple]. rewrite IH, Z.shiftl_lxor.
    apply Z.bits_inj'. intros n Hn. rewrite !Z.lxor_spec.
    destruct a, b; cbn [xorb]; rewrite ?Z.bits_0;
      destruct (Z.testbit crc_polynomial n),
        (Z.testbit (Z.shiftl (generator_multiple p) 1) n),
        (Z.testbit (Z.shiftl (generator_multiple q) 1) n); reflexivity.
Qed.

Lemma generator_multiple_shift (q : list bool) :
  generator_multiple (repeat false 8 ++ q) = Z.shiftl (generator_multiple q) 8.
Proof.
  cbn [repeat app generator_multiple]. rewrite !Z.lxor_0_l.
  rewrite !Z.shiftl_shiftl by lia. reflexivity.
Qed.

Lemma generator_multiple_nonneg (q : list bool) : 0 <= generator_multiple q.
Proof.
  induction q as [| c q IH]; [cbn; lia |].
  cbn [generator_multiple]. apply Z.lxor_nonneg.
  assert (0 <= Z.shiftl (generator_multiple q) 1) by (apply Z.shiftl_nonneg; exact IH).
  destruct c; [vm_compute (0 <= crc_polynomial) |]; intuition (try discriminate; lia).
Qed.

(** A multiple of the generator polynomial is 0 or has degree 8 at
    least. *)
Lemma generator_multiple_degree (q : list bool) :
  generator_multiple q = 0 \/ 256 <= generator_multiple q.
Proof.
  induction q as [| c q IH]; [left; reflexivity |].
  cbn [generator_multiple]. destruct IH as [-> | Hbig].
  - rewrite Z.shiftl_0_l, Z.lxor_0_r. destruct c; [right | left; reflexivity].
    vm_compute. discriminate.
  - right.
    set (low := if c then crc_polynomial else 0).
    set (high := Z.shiftl (generator_multiple q) 1).
    assert (Hlow : 0 <= low < 512) by (subst low; destruct c; vm_compute; split; discriminate || reflexivity).
    assert (Hhigh : 512 <= high).
    { subst high. rewrite Z.shiftl_mul_pow2 by lia. change (2 ^ 1) with 2. lia. }
    assert (Hnn : 0 <= Z.lxor low high) by (apply Z.lxor_nonneg; lia).
    assert (Hshift : Z.shiftr (Z.lxor low high) 9 = Z.shiftr high 9).
    { rewrite Z.shiftr_lxor. rewrite (Z.shiftr_div_pow2 low) by lia.
      change (2 ^ 9) with 512. rewrite Z.div_small by lia. apply Z.lxor_0_l. }
    rewrite !Z.shiftr_div_pow2 in Hshift by lia. change (2 ^ 9) with 512 in Hshift.
    destruct (Z_lt_le_dec (Z.lxor low high) 512) as [Hlt | Hge]; [| lia].
    rewrite (Z.div_small (Z.lxor low high)) in Hshift by lia.
    assert (1 <= high / 512) by (apply Z.div_le_lower_bound; lia). lia.
Qed.

Lemma message_snoc (data : bytes) (x : Z) :
  message (data ++ [x]) = 256 * message data + x.
Proof. unfold message. rewrite fold_left_app. reflexivity. Qed.

Lemma append_byte_xor (m x : Z) :
  0 <= x < 256 -> 256 * m + x = Z.lxor (Z.shiftl m 8) x.
Proof.
  intros Hx. rewrite <- Z.add_nocarry_lxor.
  - rewrite Z.shiftl_mul_pow2 by lia. change (2 ^ 8) with 256. lia.
  - apply Z.bits_inj'. intros n Hn. rewrite Z.land_spec, Z.bits_0.
    destruct (Z_lt_le_dec n 8) as [Hlow | Hhigh].
    + rewrite Z.shiftl_spec_low by exact Hlow. reflexivity.
    + assert (Hbit : Z.testbit x n = false).
      { destruct (Z.eq_dec x 0) as [-> | Hnz]; [apply Z.bits_0 |].
        apply Z.bits_above_log2; [lia |].
        assert (Z.log2 x < 8) by (apply Z.log2_lt_pow2; [lia | change (2 ^ 8) with 256; lia]).
        lia. }
      rewrite Hbit. apply andb_false_r.
Qed.

Lemma xor_swap (a b c d : Z) : Z.lxor a c = Z.lxor b d -> Z.lxor a b = Z.lxor c d.
Proof.
  intros H. apply Z.bits_inj'. intros n Hn.
  apply (f_equal (fun v => Z.testbit v n)) in H. rewrite !Z.lxor_spec in H |- *.
  destruct (Z.testbit a n), (Z.testbit b n), (Z.testbit c n), (Z.testbit d n);
    cbn in H |- *; congruence.
Qed.

(** The value [_calculate_crc] returns for bytes is their CRC-8. *)
Lemma calculate_crc_is_crc8 (data : bytes) :
  Forall (fun b : Z => 0 <= b < 256) data -> is_crc8 data (_calculate_crc data).
Proof.
  intros Hdata. split; [apply calculate_crc_byte |].
  induction data as [| x data IH] using rev_ind.
  - exists []. reflexivity.
  - apply Forall_app in Hdata. destruct Hdata as [Hdata Hx].
    inversion Hx as [| x' l' Hbyte _]; subst.
    destruct (IH Hdata) as (q & Hq).
    pose proof (calculate_crc_byte data) as Hcrc.
    pose proof (lxor_byte _ _ Hcrc Hbyte) as Hin.
    exists (xor_coeffs (repeat false 8 ++ q)
              (rev (crc_tops 8 (Z.lxor (_calculate_crc data) x)))).
    rewrite generator_multiple_xor, generator_multiple_shift.
    rewrite calculate_crc_snoc, message_snoc, (append_byte_xor _ x Hbyte).
    rewrite Hq, (Z.lxor_assoc (generator_multiple q)), Z.shiftl_lxor.
    rewrite (crc_division_byte _ Hin). rewrite !Z.lxor_assoc. reflexivity.
Qed.

(** The CRC-8 of a byte string is unique: the remainder of the division. *)
Lemma crc8_unique (data : bytes) (c c' : Z) :
  is_crc8 data c -> is_crc8 data c' -> c = c'.
Proof.
  intros [Hc (q & Hq)] [Hc' (q' & Hq')].
  rewrite Hq in Hq'. apply xor_swap in Hq'.
  rewrite <- generator_multiple_xor in Hq'.
  pose proof (lxor_byte _ _ Hc Hc') as Hsmall.
  destruct (generator_multiple_degree (xor_coeffs q q')) as [Hzero | Hbig]; [| lia].
  rewrite Hzero in Hq'. symmetry in Hq'. apply Z.lxor_eq in Hq'. exact Hq'.
Qed.

(** C7.  A lead-out pulse in the data state of [MWDecoder]: with fewer
    than 2 bytes collected the decoder resets and returns nothing;
    otherwise the last byte is compared with [_calculate_crc] of the
    bytes before it, and those bytes are returned exactly when the two
    are equal; on a mismatch nothing is returned.  In every case the
    decoder is back in its reset state.  [_calculate_crc] of bytes is
    their CRC-8, the remainder of the message times x^8 in the division
    by the generator polynomial x^8 + x^4 + x^3 + x^2 + 1 (0x1D below
    x^8): the bytes are returned exactly when the last byte is the
    CRC-8 of the bytes before it. *)
Theorem MWDecoder_lead_out (self : InfraredDecoder) (pulse : Z) :
  decoder_state self = 2 ->
  _error_threshold self = IR_ERROR_MARGIN ->
  Z.abs (pulse - IR_LEAD_OUT) < IR_ERROR_MARGIN ->
  (len (received_data self) < 2 ->
   MWDecoder_decode pulse self =
   Ok (None, mkDecoder IR_ERROR_MARGIN 0 [] 7 0 0 IR_ERROR_MARGIN))
  /\ (forall (body : bytes) (crc : Z),
        received_data self = body ++ [crc] -> body <> [] ->
        MWDecoder_decode pulse self =
        Ok (if crc =? _calculate_crc body then Some body else None,
            mkDecoder IR_ERROR_MARGIN 0 [] 7 0 0
              (Z.max (_max_error_margin self) (Z.abs (pulse - IR_LEAD_OUT))))
        /\ (returned (MWDecoder_decode pulse self) = Some (Some body)
            <-> crc = _calculate_crc body)
        /\ (crc <> _calculate_crc body ->
            returned (MWDecoder_decode pulse self) = Some None)
        /\ (Forall (fun b : Z => 0 <= b < 256) body ->
            is_crc8 body (_calculate_crc body)
            /\ (returned (MWDecoder_decode pulse self) = Some (Some body)
                <-> is_crc8 body crc))).
Proof.
  intros Hstate Hthr Hpulse.
  assert (Hone : check_pulse pulse IR_ONE self = Ok (false, self)).
  { apply check_pulse_mismatch. rewrite Hthr.
    unfold IR_ONE, IR_LEAD_OUT, IR_ERROR_MARGIN, IR_UNIT in *. lia. }
  assert (Hzero : check_pulse pulse IR_ZERO self = Ok (false, self)).
  { apply check_pulse_mismatch. rewrite Hthr.
    unfold IR_ZERO, IR_LEAD_OUT, IR_ERROR_MARGIN, IR_UNIT in *. lia. }
  assert (Hlead : check_pulse pulse IR_LEAD_OUT self =
                  Ok (true,
                      set_max_error_margin
                        (Z.max (_max_error_margin self) (Z.abs (pulse - IR_LEAD_OUT))) self)).
  { apply check_pulse_match. rewrite Hthr. exact Hpulse. }
  assert (Hdecode :
            MWDecoder_decode pulse self =
            (let self1 := set_max_error_margin
                            (Z.max (_max_error_margin self) (Z.abs (pulse - IR_LEAD_OUT)))
                            self in
             let data := received_data self1 in
             (if len data <? 2 then reset IR_ERROR_MARGIN ;; ret None
              else received_crc <- lift (py_index data (-1)) ;;
                   reset (_max_error_margin self1) ;;
                   if received_crc =? _calculate_crc (firstn (Z.to_nat (len data - 1)) data)
                   then ret (Some (firstn (Z.to_nat (len data - 1)) data))
                   else ret None) self1)).
  { unfold MWDecoder_decode.
    rewrite (bind_ok get _ self self self) by reflexivity.
    cbv beta. rewrite Hstate.
    change (2 =? 0) with false. change (2 =? 1) with false. change (2 =? 2) with true.
    cbv iota.
    rewrite (bind_ok _ _ _ _ _ Hone). cbv beta iota.
    rewrite (bind_ok _ _ _ _ _ Hzero). cbv beta iota.
    rewrite (bind_ok _ _ _ _ _ Hlead). cbv beta iota.
    rewrite (bind_ok get _ _ _ _ eq_refl).
    reflexivity. }
  rewrite Hdecode. cbv zeta.
  destruct self as [t st data idx byte mx lst].
  unfold decoder_state, received_data in *. cbn in Hstate, Hthr |- *. subst t st.
  split.
  - intros Hlen. destruct (Z.ltb_spec (len data) 2); [| lia]. reflexivity.
  - intros body crc Hdata Hbody. subst data.
    assert (Hlen : 2 <= len (body ++ [crc])).
    { unfold len. rewrite length_app. cbn [List.length].
      destruct body; [congruence | cbn [List.length]; lia]. }
    destruct (Z.ltb_spec (len (body ++ [crc])) 2); [lia |].
    unfold bind at 1. unfold lift at 1. rewrite py_index_last, firstn_body.
    unfold reset, _reset_bit_writer, bind, modify, ret. cbn.
    assert (Hspec : Forall (fun b : Z => 0 <= b < 256) body ->
                    is_crc8 body (_calculate_crc body)
                    /\ (crc = _calculate_crc body <-> is_crc8 body crc)).
    { intros Hbytes. pose proof (calculate_crc_is_crc8 body Hbytes) as Hcrc.
      split; [exact Hcrc |]. split; [intros ->; exact Hcrc |].
      intros Hgiven. exact (crc8_unique body _ _ Hgiven Hcrc). }
    destruct (Z.eqb_spec crc (_calculate_crc body)) as [Heq | Hne]; cbn.
    + split; [reflexivity |]. split; [split; [intros _; exact Heq | reflexivity] |].
      split; [intros Hne; contradiction |].
      intros Hbytes. destruct (Hspec Hbytes) as [Hcrc Hiff].
      split; [exact Hcrc |]. split; [intros _; apply Hiff; exact Heq | reflexivity].
    + split; [reflexivity |].
      split; [split; [intros Hsome; discriminate Hsome | intros Heq; contradiction] |].
      split; [reflexivity |].
      intros Hbytes. destruct (Hspec Hbytes) as [Hcrc Hiff].
      split; [exact Hcrc |]. split; [intros Hsome; discriminate Hsome |].
      intros Hgiven. apply Hiff in Hgiven. contradiction.
Qed.

Lemma MWDecoder_lead_out_witness :
  returned (MWDecoder_decode 5000 (mkDecoder IR_ERROR_MARGIN 2 [49; 50; 253] 7 0 0 0))
  = Some (Some [49; 50])
  /\ returned (MWDecoder_decode 5000 (mkDecoder IR_ERROR_MARGIN 2 [49; 50; 150] 7 0 0 0))
    = Some None
  /\ returned (MWDecoder_decode 5000 (mkDecoder IR_ERROR_MARGIN 2 [49] 7 0 0 0))
    = Some None.
Proof.
  split; [| split].
  - destruct (MWDecoder_lead_out (mkDecoder IR_ERROR_MARGIN 2 [49; 50; 253] 7 0 0 0) 5000)
      as [_ H]; [reflexivity | reflexivity | vm_compute; reflexivity |].
    destruct (H [49; 50] 253 eq_refl) as (_ & Hiff & _); [discriminate |].
    apply Hiff. vm_compute. reflexivity.
  - destruct (MWDecoder_lead_out (mkDecoder IR_ERROR_MARGIN 2 [49; 50; 150] 7 0 0 0) 5000)
      as [_ H]; [reflexivity | reflexivity | vm_compute; reflexivity |].
    destruct (H [49; 50] 150 eq_refl) as (_ & _ & Hne & _); [discriminate |].
    apply Hne. vm_compute. discriminate.
  - destruct (MWDecoder_lead_out (mkDecoder IR_ERROR_MARGIN 2 [49] 7 0 0 0) 5000)
      as [H _]; [reflexivity | reflexivity | vm_compute; reflexivity |].
    rewrite H; [reflexivity | vm_compute; reflexivity].
Defined.

(** The CRC of the code is the CRC-8 with polynomial 0x1D and initial
    value 0: its check value over the ASCII digits 1 to 9 is 0x37. *)
Example calculate_crc_check_value :
  _calculate_crc [49; 50; 51; 52; 53; 54; 55; 56; 57] = 55.
Proof. reflexivity. Qed.

(** ** The tag decoder state machine *)

Lemma check_pulse_shape (d : InfraredDecoder) (r e : Z) :
  exists b mx, check_pulse r e d = Ok (b, set_max_error_margin mx d).
Proof.
  destruct (Z_lt_le_dec (Z.abs (r - e)) (_error_threshold d)) as [H | H].
  - rewrite (check_pulse_match _ _ _ H). eauto.
  - rewrite (check_pulse_mismatch _ _ _ H). exists false, (_max_error_margin d).
    destruct d; reflexivity.
Qed.

Lemma shiftr_byte (b : Z) : 0 <= b < 256 -> 0 <= Z.shiftr b 1 <= 127.
Proof.
  intros H. rewrite Z.shiftr_div_pow2 by lia. change (2 ^ 1) with 2.
  split; [apply Z.div_pos; lia | apply Z.lt_succ_r; apply Z.div_lt_upper_bound; lia].
Qed.


Lemma lor_byte (a b : Z) : 0 <= a < 256 -> 0 <= b < 256 -> 0 <= Z.lor a b < 256.
Proof.
  intros Ha Hb. split.
  - apply Z.lor_nonneg. lia.
  - destruct (Z.eq_dec a 0) as [-> | Hna]; [rewrite Z.lor_0_l; lia |].
    destruct (Z.eq_dec b 0) as [-> | Hnb]; [rewrite Z.lor_0_r; lia |].
    change 256 with (2 ^ 8). apply Z.log2_lt_cancel.
    rewrite Z.log2_lor by lia. rewrite Z.log2_pow2 by lia.
    apply Z.max_lub_lt; apply Z.log2_lt_pow2; lia.
Qed.

Ltac step_check :=
  match goal with
  | |- context [bind (check_pulse ?r ?e) ?k ?d] =>
      let b := fresh "matched" in
      let m := fresh "margin" in
      let H := fresh "Hcheck" in
      destruct (check_pulse_shape d r e) as (b & m & H);
      rewrite (bind_ok _ _ _ _ _ H); clear H; cbv beta;
      destruct b; cbv iota
  end.

Ltac step_write :=
  match goal with
  | |- context [bind (write_bit ?bit) ?k ?d] =>
      first
        [ rewrite (bind_ok _ _ _ _ _ (write_bit_inside d bit ltac:(cbn; lia)))
        | rewrite (bind_ok _ _ _ _ _ (write_bit_last d bit eq_refl ltac:(cbn; lia))) ];
      cbv beta
  end.

Ltac tag_simpl :=
  cbn -[check_pulse write_bit Z.lor Z.shiftl Z.shiftr tag_inv packet_ok].

Ltac tag_run := repeat (tag_simpl; first [step_check | step_write]); tag_simpl.


Lemma bytearray_of_byte (v : Z) : 0 <= v < 256 -> bytearray_of v = Ok [v].
Proof.
  intros H. unfold bytearray_of, is_byte.
  destruct (Z.leb_spec 0 v); [| lia]. destruct (Z.ltb_spec v 256); [| lia]. reflexivity.
Qed.

Ltac tag_fields :=
  cbv beta iota delta
    [ret lift bind modify get
     set_decoder_state set_received_bit_index set_received_byte set_received_data
     set_max_error_margin set_last_error_margin
     _error_threshold _decoder_state _received_data _received_bit_index
     _received_byte _max_error_margin _last_error_margin].

Lemma tag_decode_step (d : InfraredDecoder) (p : Z) :
  tag_inv d ->
  exists (out : option bytes) (d' : InfraredDecoder),
    TagInfraredDecoder_decode p d = Ok (out, d') /\ tag_inv d' /\ packet_ok out.
Proof.
  destruct d as [t s data idx byte mx lst]. unfold tag_inv.
  cbn [_error_threshold _decoder_state _received_data _received_bit_index _received_byte].
  intros (-> & Hs & Hbyte & Hshape).
  assert (Hcases : s = 0 \/ s = 1 \/ s = 2 \/ s = 3 \/ s = 4 \/ s = 5 \/ s = 6 \/ s = 7
                   \/ s = 8 \/ s = 9 \/ s = 10 \/ s = 11 \/ s = 12 \/ s = 13 \/ s = 14
                   \/ s = 15 \/ s = 16 \/ s = 17) by lia.
  clear Hs.
  assert (Hmask : forall i, 0 <= i <= 7 -> 0 <= Z.lor byte (Z.shiftl 1 i) < 256).
  { intros i Hi. apply lor_byte; [exact Hbyte |].
    rewrite Z.shiftl_1_l. split; [apply Z.pow_nonneg; lia |].
    change 256 with (2 ^ 8). apply Z.pow_lt_mono_r; lia. }
  repeat (destruct Hcases as [-> | Hcases]); try subst s;
    (destruct Hshape as [(-> & ->) | [(-> & -> & Hle) | (b & -> & Hb & Hge & ->)]];
     [ | try lia .. ]).
  all: unfold TagInfraredDecoder_decode;
    rewrite (bind_ok get _ _ _ _ eq_refl); cbv beta;
    cbn [decoder_state _decoder_state];
    try match goal with
        | |- context [py_index TAG_PREAMBLE ?s] =>
            let v := eval vm_compute in (py_index TAG_PREAMBLE s) in
            change (py_index TAG_PREAMBLE s) with v
        end;
    tag_run.
  all: try match goal with
           | |- context [bytearray_of (Z.shiftr ?x 1)] =>
               rewrite (bytearray_of_byte (Z.shiftr x 1))
                 by (pose proof (shiftr_byte x ltac:(assumption)); lia)
           end;
    tag_fields.
  all: eexists; eexists; split; [reflexivity |].
  all: split;
    [ unfold tag_inv;
      cbn [_error_threshold _decoder_state _received_data _received_bit_index
           _received_byte];
      split; [reflexivity |]; split; [lia |]; split;
      [ first [exact Hbyte | apply Hmask; lia | lia] |]
    | first [exact I
            | eexists; split; [reflexivity | apply shiftr_byte; eassumption]] ].
  all: first
    [ left; split; [reflexivity | vm_compute; reflexivity]
    | right; left; split; [reflexivity | split; [reflexivity | lia]]
    | right; right; eexists; split; [reflexivity |]; split;
      [ first [exact Hb | exact Hbyte | exact (Hmask 0 ltac:(lia)) ] |];
      split; [lia | vm_compute; reflexivity] ].
Qed.

Lemma tag_inv_init : tag_inv TagInfraredDecoder_init.
Proof.
  unfold tag_inv. cbn. repeat split; try lia.
  right; left. repeat split; lia.
Qed.

Lemma tag_inv_reset (d d' : InfraredDecoder) (error_margin : Z) :
  _error_threshold d = TAG_ERROR_MARGIN ->
  reset error_margin d = Ok (tt, d') ->
  tag_inv d' /\ tag_ready d'.
Proof.
  intros Ht Hreset. destruct d as [t s data idx byte mx lst]. cbn in Ht. subst t.
  cbv in Hreset. injection Hreset as <-.
  split.
  - unfold tag_inv. cbn. repeat split; try lia. left. split; reflexivity.
  - unfold tag_ready. cbn. repeat split.
Qed.

Lemma tag_reachable_inv (d : InfraredDecoder) : tag_reachable d -> tag_inv d.
Proof.
  induction 1 as [| d d' pulse out Hreach IH Hdecode | d d' m Hreach IH Hreset].
  - exact tag_inv_init.
  - destruct (tag_decode_step d pulse IH) as (out' & d'' & Hstep & Hinv & _).
    rewrite Hstep in Hdecode. injection Hdecode as _ <-. exact Hinv.
  - destruct IH as (Ht & _). exact (proj1 (tag_inv_reset d d' m Ht Hreset)).
Qed.

(** C10.  Whatever pulses are fed to a tag decoder, in any state it can
    be in, no call raises, and every packet a call returns is exactly
    one byte with a value of at most 0x7F. *)
Theorem tag_decode_packet_shape (d : InfraredDecoder) (pulses : list Z) :
  tag_reachable d ->
  exists (outs : list (option bytes)) (d' : InfraredDecoder),
    feed TagInfraredDecoder_decode pulses d = Ok (outs, d')
    /\ tag_reachable d'
    /\ forall packet : bytes,
         In (Some packet) outs -> exists v : Z, packet = [v] /\ 0 <= v <= 127.
Proof.
  revert d. induction pulses as [| p rest IH]; intros d Hreach.
  - exists [], d. repeat split; [exact Hreach | intros packet []].
  - destruct (tag_decode_step d p (tag_reachable_inv d Hreach))
      as (out & d1 & Hstep & _ & Hout).
    assert (Hreach1 : tag_reachable d1) by exact (reach_decode d d1 p out Hreach Hstep).
    destruct (IH d1 Hreach1) as (outs & d' & Hfeed & Hreach' & Houts).
    exists (out :: outs), d'. split; [| split].
    + cbn [feed]. rewrite (bind_ok _ _ _ _ _ Hstep).
      rewrite (bind_ok _ _ _ _ _ Hfeed). reflexivity.
    + exact Hreach'.
    + intros packet [Heq | Hin].
      * subst out. exact Hout.
      * exact (Houts packet Hin).
Qed.

Lemma tag_decode_packet_shape_witness :
  exists (outs : list (option bytes)) (d' : InfraredDecoder),
    feed TagInfraredDecoder_decode
      [3000; 6000; 3000; 2000; 2000; 2000; 1000; 2000; 2000; 2000; 1000;
       2000; 1000; 2000; 2000; 2000; 1000; 3000]
      TagInfraredDecoder_init = Ok (outs, d')
    /\ tag_reachable d'
    /\ forall packet : bytes,
         In (Some packet) outs -> exists v : Z, packet = [v] /\ 0 <= v <= 127.
Proof.
  apply (tag_decode_packet_shape TagInfraredDecoder_init). exact reach_init.
Defined.

(** ** Encoder to decoder *)

Lemma pulses_eqb_eq (l l' : list Z) : pulses_eqb l l' = true -> l = l'.
Proof.
  revert l'. induction l as [| x r IH]; destruct l' as [| x' r']; cbn;
    try discriminate; [reflexivity |].
  intros H. apply andb_prop in H. destruct H as [Hx Hr].
  apply Z.eqb_eq in Hx. subst x'. f_equal. exact (IH r' Hr).
Qed.

(** The encoder emits the preamble and then the seven low bits of the
    byte, most significant first. *)
Lemma encode_pulses (b : Z) :
  0 <= b < 256 ->
  TagInfraredEncoder_encode [b] = Ok (TAG_PREAMBLE ++ bit_pulses (tag_bits b)).
Proof.
  intros Hb.
  assert (Hcheck : encode_check b = true).
  { apply forall_bytes; [vm_compute; reflexivity | exact Hb]. }
  unfold encode_check in Hcheck.
  destruct (TagInfraredEncoder_encode [b]) as [pulses | e]; [| discriminate Hcheck].
  f_equal. apply pulses_eqb_eq, Hcheck.
Qed.

Lemma written_bits_value (b : Z) :
  0 <= b < 256 -> Z.shiftr (write_bits (tag_bits b) 7 0) 1 = Z.land b 127.
Proof.
  intros Hb. apply Z.eqb_eq. apply (forall_bytes bits_check); [vm_compute; reflexivity | exact Hb].
Qed.

Lemma feed_app (decode : Z -> M (option bytes)) (l1 l2 : list Z)
    (d d1 d2 : InfraredDecoder) (outs1 outs2 : list (option bytes)) :
  feed decode l1 d = Ok (outs1, d1) ->
  feed decode l2 d1 = Ok (outs2, d2) ->
  feed decode (l1 ++ l2) d = Ok (outs1 ++ outs2, d2).
Proof.
  revert d outs1. induction l1 as [| p rest IH]; intros d outs1 H1 H2.
  - cbn in H1. injection H1 as <- <-. exact H2.
  - cbn [feed app] in *. unfold bind in H1 |- *.
    destruct (decode p d) as [[out d'] | e]; [| discriminate H1].
    destruct (feed decode rest d') as [[outs d''] | e] eqn:Hrest; [| discriminate H1].
    cbn in H1. injection H1 as <- <-.
    rewrite (IH d' outs Hrest H2). reflexivity.
Qed.

Ltac step_exact :=
  match goal with
  | |- context [bind (check_pulse ?r ?e) ?k ?d] =>
      first
        [ rewrite (bind_ok _ _ _ _ _
                     (check_pulse_match d r e ltac:(vm_compute; reflexivity)))
        | rewrite (bind_ok _ _ _ _ _
                     (check_pulse_mismatch d r e ltac:(vm_compute; discriminate))) ];
      cbv beta iota
  end.

Ltac tag_simpl' :=
  cbn -[check_pulse write_bit Z.lor Z.shiftl Z.shiftr Z.max Z.abs].

Ltac tag_exact :=
  repeat (tag_simpl'; first [step_exact | step_write]); tag_simpl'.


Lemma feed_cons (decode : Z -> M (option bytes)) (p : Z) (rest : list Z)
    (d d1 d2 : InfraredDecoder) (out : option bytes) (outs : list (option bytes)) :
  decode p d = Ok (out, d1) ->
  feed decode rest d1 = Ok (outs, d2) ->
  feed decode (p :: rest) d = Ok (out :: outs, d2).
Proof.
  intros H1 H2. cbn [feed]. rewrite (bind_ok _ _ _ _ _ H1).
  rewrite (bind_ok _ _ _ _ _ H2). reflexivity.
Qed.

Ltac decode_one :=
  unfold TagInfraredDecoder_decode;
  rewrite (bind_ok get _ _ _ _ eq_refl); cbv beta;
  cbn [decoder_state _decoder_state];
  try match goal with
      | |- context [py_index TAG_PREAMBLE ?s] =>
          let v := eval vm_compute in (py_index TAG_PREAMBLE s) in
          change (py_index TAG_PREAMBLE s) with v
      end;
  tag_exact; tag_fields; reflexivity.

Lemma decode_preamble (mx lst : Z) :
  exists mx' : Z,
    feed TagInfraredDecoder_decode TAG_PREAMBLE (mkDecoder 500 0 [] 7 0 mx lst)
    = Ok ([None; None; None], mkDecoder 500 3 [] 7 0 mx' lst).
Proof.
  eexists. unfold TAG_PREAMBLE.
  eapply feed_cons; [decode_one |].
  eapply feed_cons; [decode_one |].
  eapply feed_cons; [decode_one |].
  reflexivity.
Qed.

Lemma decode_bit (j : Z) (bit : bool) (byte mx lst : Z) :
  0 <= j <= 6 ->
  exists mx' : Z,
    feed TagInfraredDecoder_decode (bit_pulses [bit])
      (mkDecoder 500 (3 + 2 * j) [] (7 - j) byte mx lst)
    = Ok ([None; None],
          mkDecoder 500 (3 + 2 * (j + 1)) [] (7 - j - 1)
            (if bit then Z.lor byte (Z.shiftl 1 (7 - j)) else byte) mx' lst).
Proof.
  intros Hj.
  assert (Hcases : j = 0 \/ j = 1 \/ j = 2 \/ j = 3 \/ j = 4 \/ j = 5 \/ j = 6) by lia.
  clear Hj.
  repeat (destruct Hcases as [-> | Hcases]); try subst j; destruct bit;
    eexists; cbn [bit_pulses flat_map app];
    (eapply feed_cons; [decode_one |]);
    (eapply feed_cons; [decode_one |]);
    reflexivity.
Qed.

Lemma len_cons {A : Type} (x : A) (l : list A) : len (x :: l) = len l + 1.
Proof. unfold len. cbn [List.length]. lia. Qed.

Lemma decode_bits (lst : Z) (bits : list bool) :
  forall j s idx byte mx : Z,
    0 <= j -> j + len bits <= 7 -> s = 3 + 2 * j -> idx = 7 - j ->
    exists mx' : Z,
      feed TagInfraredDecoder_decode (bit_pulses bits) (mkDecoder 500 s [] idx byte mx lst)
      = Ok (repeat None (2 * List.length bits),
            mkDecoder 500 (s + 2 * len bits) [] (idx - len bits)
              (write_bits bits idx byte) mx' lst).
Proof.
  induction bits as [| bit rest IH]; intros j s idx byte mx Hj Hlen Hs Hidx.
  - exists mx. cbn [bit_pulses flat_map feed write_bits List.length Nat.mul repeat].
    unfold ret. change (len (@nil bool)) with 0.
    rewrite Z.mul_0_r, Z.add_0_r, Z.sub_0_r. reflexivity.
  - rewrite len_cons in Hlen |- *. subst s idx.
    destruct (decode_bit j bit byte mx lst ltac:(unfold len in Hlen; lia)) as (mx1 & Hbit).
    destruct (IH (j + 1) (3 + 2 * (j + 1)) (7 - j - 1)
                 (if bit then Z.lor byte (Z.shiftl 1 (7 - j)) else byte) mx1
                 ltac:(lia) ltac:(lia) eq_refl ltac:(lia)) as (mx' & Hrest).
    exists mx'.
    change (bit_pulses (bit :: rest)) with (bit_pulses [bit] ++ bit_pulses rest).
    rewrite (feed_app _ _ _ _ _ _ _ _ Hbit Hrest).
    cbn [write_bits].
    replace (2 * List.length (bit :: rest))%nat with (S (S (2 * List.length rest)))%nat
      by (cbn [List.length]; lia).
    replace (3 + 2 * (j + 1) + 2 * len rest) with (3 + 2 * j + 2 * (len rest + 1)) by lia.
    replace (7 - j - 1 - len rest) with (7 - j - (len rest + 1)) by lia.
    reflexivity.
Qed.

Lemma write_bits_byte (bits : list bool) :
  forall idx byte : Z,
    0 <= byte < 256 -> idx <= 7 -> len bits <= idx + 1 ->
    0 <= write_bits bits idx byte < 256.
Proof.
  induction bits as [| bit rest IH]; intros idx byte Hbyte Hidx Hlen.
  - exact Hbyte.
  - rewrite len_cons in Hlen. cbn [write_bits].
    assert (Hrest : 0 <= len rest) by (unfold len; lia).
    apply IH; [| lia | lia].
    destruct bit; [| exact Hbyte].
    apply lor_byte; [exact Hbyte |].
    rewrite Z.shiftl_1_l. split; [apply Z.pow_nonneg; lia |].
    change 256 with (2 ^ 8). apply Z.pow_lt_mono_r; lia.
Qed.

(** Completion: in state 17 any pulse flushes the byte and returns it
    shifted right by one. *)
Lemma decode_complete (byte mx lst next_pulse : Z) :
  0 <= byte < 256 ->
  TagInfraredDecoder_decode next_pulse (mkDecoder 500 17 [] 0 byte mx lst)
  = Ok (Some [Z.shiftr byte 1], mkDecoder 500 0 [] 7 0 0 mx).
Proof.
  intros Hbyte. unfold TagInfraredDecoder_decode.
  rewrite (bind_ok get _ _ _ _ eq_refl). cbv beta. tag_exact.
  rewrite (bytearray_of_byte (Z.shiftr byte 1))
    by (pose proof (shiftr_byte byte Hbyte); lia).
  tag_fields. reflexivity.
Qed.

(** C1, as the code has it.  On a tag decoder that has been reset (state
    0, empty buffer, bit index 7) the 17 pulses of an encoded byte make
    no call return a packet; the call for the next pulse, whatever its
    duration, returns the one-byte packet [b & 0x7F], which is the
    encoded byte when that byte is at most 0x7F, and leaves the decoder
    reset again. *)
Theorem tag_pipeline_roundtrip (d : InfraredDecoder) (b next_pulse : Z) :
  tag_ready d ->
  0 <= b < 256 ->
  exists (pulses : list Z) (d1 d2 : InfraredDecoder),
    TagInfraredEncoder_encode [b] = Ok pulses
    /\ feed TagInfraredDecoder_decode pulses d = Ok (repeat None 17, d1)
    /\ TagInfraredDecoder_decode next_pulse d1 = Ok (Some [Z.land b 127], d2)
    /\ tag_ready d2
    /\ (b <= 127 -> Z.land b 127 = b).
Proof.
  intros Hready Hb.
  destruct d as [t s data idx byte mx lst]. unfold tag_ready in Hready.
  cbn in Hready. destruct Hready as (-> & -> & -> & -> & ->).
  destruct (decode_preamble mx lst) as (mx1 & Hpre).
  destruct (decode_bits lst (tag_bits b) 0 3 7 0 mx1
              ltac:(lia) ltac:(vm_compute; discriminate) eq_refl eq_refl)
    as (mx2 & Hbits).
  pose proof (feed_app _ _ _ _ _ _ _ _ Hpre Hbits) as Hfeed.
  assert (Hbyte : 0 <= write_bits (tag_bits b) 7 0 < 256).
  { apply write_bits_byte; [lia | lia | vm_compute; discriminate]. }
  exists (TAG_PREAMBLE ++ bit_pulses (tag_bits b)).
  eexists. eexists.
  split; [exact (encode_pulses b Hb) |].
  split; [exact Hfeed |].
  split.
  - change (3 + 2 * len (tag_bits b)) with 17.
    change (7 - len (tag_bits b)) with 0.
    rewrite (decode_complete _ _ _ next_pulse Hbyte).
    rewrite (written_bits_value b Hb). reflexivity.
  - split.
    + unfold tag_ready. cbn. repeat split.
    + intros Hle. change 127 with (Z.ones 7). rewrite Z.land_ones by lia.
      apply Z.mod_small. change (2 ^ 7) with 128. lia.
Qed.

Lemma tag_pipeline_roundtrip_witness :
  exists (pulses : list Z) (d1 d2 : InfraredDecoder),
    TagInfraredEncoder_encode [82] = Ok pulses
    /\ feed TagInfraredDecoder_decode pulses (mkDecoder 500 0 [] 7 0 0 500)
       = Ok (repeat None 17, d1)
    /\ TagInfraredDecoder_decode 3000 d1 = Ok (Some [82], d2)
    /\ tag_ready d2
    /\ (82 <= 127 -> Z.land 82 127 = 82).
Proof.
  apply (tag_pipeline_roundtrip (mkDecoder 500 0 [] 7 0 0 500) 82 3000).
  - unfold tag_ready. cbn. repeat split.
  - lia.
Defined.

(** C1, as the specification has it, fails: fed to a newly constructed
    decoder, the 17 pulses of the encoded byte 0x52 make no call return
    a packet. *)
Lemma tag_pipeline_fresh_decoder :
  ~ pipeline_returns TagInfraredDecoder_init [82] [82].
Proof.
  intros (pulses & outs & d' & Hencode & Hfeed & Hin).
  vm_compute in Hencode. injection Hencode as <-.
  vm_compute in Hfeed. injection Hfeed as <- <-.
  cbn in Hin.
  repeat (destruct Hin as [Hin | Hin]; [discriminate Hin |]).
  exact Hin.
Qed.

(** The first pulse after them completes the packet; on the newly
    constructed decoder the byte returned is 0, whatever was encoded. *)
Lemma tag_pipeline_fresh_decoder_next_pulse :
  returned (feed TagInfraredDecoder_decode
              [3000; 6000; 3000; 2000; 2000; 2000; 1000; 2000; 2000; 2000; 1000;
               2000; 1000; 2000; 2000; 2000; 1000; 3000]
              TagInfraredDecoder_init)
  = Some (repeat None 17 ++ [Some [0]]).
Proof. vm_compute. reflexivity. Qed.

(** ** The multi-sensor receiver *)

Section Dicts.

Context {V : Type}.

Lemma dict_set_fresh (d : dict V) (k : string) (v : V) :
  ~ In k (keys d) -> dict_set d k v = d ++ [(k, v)].
Proof.
  induction d as [| [k' v'] rest IH]; intros Hfresh; [reflexivity |].
  cbn in Hfresh |- *. destruct (String.eqb_spec k' k) as [Heq | Hne].
  - exfalso. apply Hfresh. left. exact Heq.
  - rewrite IH; [reflexivity |]. intros Hin. apply Hfresh. right. exact Hin.
Qed.

Lemma dict_set_keys (d : dict V) (k : string) (v : V) :
  In k (keys d) -> keys (dict_set d k v) = keys d.
Proof.
  induction d as [| [k' v'] rest IH]; intros Hin; [destruct Hin |].
  cbn in Hin |- *. destruct (String.eqb_spec k' k) as [Heq | Hne]; [reflexivity |].
  cbn. f_equal. apply IH. destruct Hin as [Heq | Hin]; [contradiction | exact Hin].
Qed.

Lemma dict_get_in_keys (d : dict V) (k : string) (v : V) :
  dict_get d k = Some v -> In k (keys d).
Proof.
  induction d as [| [k' v'] rest IH]; cbn; [discriminate |].
  destruct (String.eqb_spec k' k) as [Heq | Hne]; intros H.
  - left. exact Heq.
  - right. exact (IH H).
Qed.

Lemma dict_get_set_same (d : dict V) (k : string) (v : V) :
  dict_get (dict_set d k v) k = Some v.
Proof.
  induction d as [| [k' v'] rest IH]; cbn.
  - rewrite String.eqb_refl. reflexivity.
  - destruct (String.eqb_spec k' k) as [Heq | Hne]; cbn.
    + subst k'. rewrite String.eqb_refl. reflexivity.
    + destruct (String.eqb_spec k' k); [contradiction | exact IH].
Qed.

Lemma dict_get_set_other (d : dict V) (k k' : string) (v : V) :
  k <> k' -> dict_get (dict_set d k v) k' = dict_get d k'.
Proof.
  intros Hne. induction d as [| [k0 v0] rest IH]; cbn.
  - destruct (String.eqb_spec k k'); [contradiction | reflexivity].
  - destruct (String.eqb_spec k0 k) as [Heq | Hne0]; cbn.
    + subst k0. destruct (String.eqb_spec k k'); [contradiction | reflexivity].
    + rewrite IH. reflexivity.
Qed.

End Dicts.

Lemma has_data_set (datas : dict bytes) (k n : string) (b : bytes) :
  has_data (dict_set datas k b) n = true -> n = k \/ has_data datas n = true.
Proof.
  unfold has_data. destruct (string_dec k n) as [Heq | Hne]; [left; congruence |].
  rewrite dict_get_set_other by exact Hne. right. assumption.
Qed.

Lemma last_signal_strength_total (d : InfraredDecoder) :
  _error_threshold d <> 0 -> exists s : Q, last_signal_strength d = Ok s.
Proof.
  intros Ht. unfold last_signal_strength.
  destruct (_last_error_margin d =? 0); [eauto |].
  destruct (Z.eqb_spec (_error_threshold d) 0); [contradiction | eauto].
Qed.

(** The stats loop records, after what was there, the margin and the
    strength of each decoder whose sensor completed, in sensor order. *)
Lemma record_stats_spec (datas : dict bytes) (decoders : dict InfraredDecoder) :
  forall (margins : dict Z) (strengths : dict Q),
    NoDup (keys decoders) ->
    (forall n : string,
        In n (keys decoders) -> ~ In n (keys margins) /\ ~ In n (keys strengths)) ->
    (forall (n : string) (d : InfraredDecoder),
        In (n, d) decoders -> _error_threshold d <> 0) ->
    exists new_strengths : dict Q,
      record_stats decoders datas margins strengths =
      Ok (margins ++ map (fun item => (fst item, _last_error_margin (snd item)))
                         (completed datas decoders),
          strengths ++ new_strengths)
      /\ Forall2 (fun item entry =>
                    fst entry = fst item
                    /\ last_signal_strength (snd item) = Ok (snd entry))
                 (completed datas decoders) new_strengths.
Proof.
  induction decoders as [| [name decoder] rest IH];
    intros margins strengths Hnodup Hfresh Hthr.
  - exists []. cbn. rewrite !app_nil_r. split; [reflexivity | constructor].
  - cbn [keys map fst] in Hnodup. inversion Hnodup as [| k ks Hnotin Hnodup']; subst.
    unfold completed. cbn [record_stats filter fst].
    assert (Hhas : has_data datas name
                   = match dict_get datas name with Some _ => true | None => false end)
      by reflexivity.
    rewrite Hhas. clear Hhas. fold (completed datas rest).
    destruct (dict_get datas name) as [b |] eqn:Hget.
    + destruct (last_signal_strength_total decoder (Hthr name decoder (or_introl eq_refl)))
        as (s & Hs).
      unfold last_error_margin. rewrite Hs.
      destruct (Hfresh name (or_introl eq_refl)) as [Hm Hs'].
      rewrite (dict_set_fresh margins name _ Hm), (dict_set_fresh strengths name _ Hs').
      destruct (IH (margins ++ [(name, _last_error_margin decoder)])
                   (strengths ++ [(name, s)]) Hnodup') as (new & Hrec & Hall).
      * intros n Hn. unfold keys in *. rewrite !map_app, !in_app_iff. cbn.
        destruct (Hfresh n (or_intror Hn)) as [H1 H2].
        split; intros [H | [H | []]]; try contradiction; subst n; contradiction.
      * intros n d Hin. exact (Hthr n d (or_intror Hin)).
      * exists ((name, s) :: new). split.
        -- rewrite Hrec. cbn [map fst snd]. rewrite <- !app_assoc. reflexivity.
        -- constructor; [split; [reflexivity | exact Hs] | exact Hall].
    + destruct (IH margins strengths Hnodup') as (new & Hrec & Hall).
      * intros n Hn. exact (Hfresh n (or_intror Hn)).
      * intros n d Hin. exact (Hthr n d (or_intror Hin)).
      * exists new. split; [exact Hrec | exact Hall].
Qed.

(** The scan keeps a strictly lower margin only: the winner is the first
    of the entries with the lowest margin. *)
Lemma best_scan_running (items : dict Z) :
  forall (m0 : Z) (n0 : string),
    (best_scan items (Some m0) (Some n0) = Some n0
     /\ forall (n : string) (m' : Z), In (n, m') items -> m0 <= m')
    \/ (exists best : string,
          best_scan items (Some m0) (Some n0) = Some best
          /\ exists (before : dict Z) (m : Z) (after : dict Z),
               items = before ++ (best, m) :: after
               /\ m < m0
               /\ (forall (n : string) (m' : Z), In (n, m') before -> m < m')
               /\ (forall (n : string) (m' : Z), In (n, m') after -> m <= m')).
Proof.
  induction items as [| [name margin] rest IH]; intros m0 n0.
  - left. split; [reflexivity | intros n m' []].
  - cbn [best_scan]. destruct (Z.ltb_spec margin m0) as [Hlt | Hge].
    + right. destruct (IH margin name) as [[Hbest Hall] | (best & Hbest & before & m & after & Heq & Hm & Hbefore & Hafter)].
      * exists name. split; [exact Hbest |].
        exists [], margin, rest. repeat split; [exact Hlt | intros n m' [] | exact Hall].
      * exists best. split; [exact Hbest |].
        exists ((name, margin) :: before), m, after. subst rest.
        repeat split; [lia | | exact Hafter].
        intros n m' [Heq | Hin]; [injection Heq as <- <-; exact Hm | exact (Hbefore n m' Hin)].
    + destruct (IH m0 n0) as [[Hbest Hall] | (best & Hbest & before & m & after & Heq & Hm & Hbefore & Hafter)].
      * left. split; [exact Hbest |].
        intros n m' [Heq | Hin]; [injection Heq as <- <-; exact Hge | exact (Hall n m' Hin)].
      * right. exists best. split; [exact Hbest |].
        exists ((name, margin) :: before), m, after. subst rest.
        repeat split; [exact Hm | | exact Hafter].
        intros n m' [Heq | Hin]; [injection Heq as <- <-; lia | exact (Hbefore n m' Hin)].
Qed.

Lemma best_scan_first_lowest (items : dict Z) :
  items <> [] ->
  exists best : string,
    best_scan items None None = Some best /\ first_lowest items best.
Proof.
  destruct items as [| [name margin] rest]; [congruence |]. intros _.
  cbn [best_scan].
  destruct (best_scan_running rest margin name)
    as [[Hbest Hall] | (best & Hbest & before & m & after & Heq & Hm & Hbefore & Hafter)].
  - exists name. split; [exact Hbest |].
    exists [], margin, rest. repeat split; [intros n m' [] | exact Hall].
  - exists best. split; [exact Hbest |].
    exists ((name, margin) :: before), m, after. subst rest.
    repeat split; [| exact Hafter].
    intros n m' [Heq | Hin]; [injection Heq as <- <-; exact Hm | exact (Hbefore n m' Hin)].
Qed.

Lemma reset_all_spec (decoders : dict InfraredDecoder) :
  reset_all decoders = Ok (map (fun item => (fst item, reset_own (snd item))) decoders).
Proof.
  induction decoders as [| [name decoder] rest IH]; [reflexivity |].
  cbn [reset_all map fst snd]. unfold last_error_margin. rewrite IH.
  destruct decoder; reflexivity.
Qed.

Section Arbitration.

Variable decode : Z -> M (option bytes).

(** Decoding keeps the sensors of the decoder dict, and only sensors
    of that dict get an entry in [datas]. *)
Lemma decode_pulses_keys (pulses : dict Z) :
  forall (decoders decoders' : dict InfraredDecoder) (datas datas' : dict bytes),
    decode_pulses decode pulses decoders datas = Ok (decoders', datas') ->
    keys decoders' = keys decoders
    /\ (forall n : string,
          has_data datas' n = true ->
          has_data datas n = true \/ In n (keys decoders))
    /\ (datas' = [] -> datas = []).
Proof.
  induction pulses as [| [name pulse] rest IH];
    intros decoders decoders' datas datas' H; cbn in H.
  - injection H as <- <-. repeat split; auto.
  - destruct (dict_get decoders name) as [decoder |] eqn:Hget; [| discriminate H].
    destruct (decode pulse decoder) as [[data decoder'] | e]; [| discriminate H].
    pose proof (dict_get_in_keys _ _ _ Hget) as Hin.
    destruct (IH _ _ _ _ H) as (Hkeys & Hdatas & Hnil).
    rewrite dict_set_keys in Hkeys by exact Hin.
    split; [exact Hkeys |]. split.
    + intros n Hn. destruct (Hdatas n Hn) as [Hd | Hk]; [| right; rewrite dict_set_keys in Hk; assumption].
      destruct data as [b |]; [| left; exact Hd].
      destruct (has_data_set _ _ _ _ Hd) as [-> | Hd']; [right; exact Hin | left; exact Hd'].
    + intros Hd. specialize (Hnil Hd). destruct data as [b |]; [| exact Hnil].
      destruct datas as [| [k v] r]; cbn in Hnil; [discriminate |].
      destruct (String.eqb k name); discriminate.
Qed.

(** One iteration of the loop in which at least one decoder returns a
    packet: what the iteration records, resets and hands back. *)
Lemma arbitration_round (self : InfraredMultiReceiver)
    (readers : dict PulseReader) (pulses : dict Z)
    (decoders : dict InfraredDecoder) (datas : dict bytes) :
  NoDup (keys (_decoders self)) ->
  read_pulses (_pulse_readers self) [] = (readers, pulses) ->
  decode_pulses decode pulses (_decoders self) [] = Ok (decoders, datas) ->
  datas <> [] ->
  (forall (n : string) (d : InfraredDecoder),
      In (n, d) decoders -> _error_threshold d <> 0) ->
  exists (best : string) (data : bytes) (self' : InfraredMultiReceiver),
    receive_round decode self = Ok (Packet data, self')
    /\ _last_error_margins self' =
       map (fun item => (fst item, _last_error_margin (snd item)))
           (completed datas decoders)
    /\ Forall2 (fun item entry =>
                  fst entry = fst item
                  /\ last_signal_strength (snd item) = Ok (snd entry))
               (completed datas decoders) (_last_signal_strengths self')
    /\ first_lowest (_last_error_margins self') best
    /\ _decoders self' = map (fun item => (fst item, reset_own (snd item))) decoders
    /\ _pulse_readers self' = readers
    /\ dict_get datas best = Some data
    /\ last_best_receiver self' = Some best
    /\ (forall a b : string,
          _last_error_margins self' = [(a, 10); (b, 40)]
          \/ _last_error_margins self' = [(b, 40); (a, 10)] ->
          best = a).
Proof.
  intros Hnodup Hread Hdecode Hdatas Hthr.
  destruct (decode_pulses_keys _ _ _ _ _ Hdecode) as (Hkeys & Hsub & _).
  assert (Hpulses : (len pulses =? 0) = false).
  { destruct pulses as [| item rest]; [| reflexivity].
    cbn in Hdecode. injection Hdecode as _ <-. congruence. }
  assert (Hlen : (len datas >? 0) = true).
  { destruct datas as [| item rest]; [congruence | reflexivity]. }
  destruct (record_stats_spec datas decoders [] []) as (strengths & Hstats & Hstrengths).
  { rewrite Hkeys. exact Hnodup. }
  { intros n _. split; intros []. }
  { exact Hthr. }
  cbn [app] in Hstats.
  set (margins := map (fun item => (fst item, _last_error_margin (snd item)))
                      (completed datas decoders)) in *.
  assert (Hsome : margins <> []).
  { destruct datas as [| [k v] rest]; [congruence |].
    assert (Hk : has_data ((k, v) :: rest) k = true).
    { unfold has_data. cbn. rewrite String.eqb_refl. reflexivity. }
    destruct (Hsub k Hk) as [Hfalse | Hin]; [discriminate Hfalse |].
    rewrite <- Hkeys in Hin. unfold keys in Hin. apply in_map_iff in Hin.
    destruct Hin as ([k' d] & Hfst & Hin). cbn in Hfst. subst k'.
    assert (Hc : In (k, d) (completed ((k, v) :: rest) decoders)).
    { unfold completed. apply filter_In. split; [exact Hin | exact Hk]. }
    subst margins. intros Hnil. apply map_eq_nil in Hnil.
    rewrite Hnil in Hc. destruct Hc. }
  destruct (best_scan_first_lowest margins Hsome) as (best & Hbest & Hfirst).
  assert (Hdata : exists data : bytes, dict_get datas best = Some data).
  { destruct Hfirst as (before & m & after & Heq & _).
    assert (Hin : In (best, m) margins) by (rewrite Heq; apply in_elt).
    subst margins. apply in_map_iff in Hin. destruct Hin as ([k d] & Hpair & Hin).
    cbn in Hpair. injection Hpair as -> _.
    unfold completed in Hin. apply filter_In in Hin. destruct Hin as [_ Hhas].
    unfold has_data in Hhas. cbn in Hhas.
    destruct (dict_get datas best) as [data |]; [eauto | discriminate Hhas]. }
  destruct Hdata as (data & Hdata).
  exists best, data,
    (mkMulti readers (map (fun item => (fst item, reset_own (snd item))) decoders)
             margins strengths).
  split.
  { unfold receive_round. rewrite Hread, Hpulses, Hdecode, Hlen, Hstats, Hbest.
    rewrite reset_all_spec, Hdata. reflexivity. }
  cbn [_last_error_margins _last_signal_strengths _decoders _pulse_readers].
  repeat split; try assumption; try reflexivity.
  intros a b Hshape. destruct Hfirst as (before & m & after & Heq & Hbefore & Hafter).
  destruct Hshape as [Hshape | Hshape]; rewrite Hshape in Heq.
  - destruct before as [| x before]; [injection Heq as <- _ _; reflexivity |].
    injection Heq as <- Heq. exfalso.
    destruct before as [| y before]; [| destruct before; discriminate Heq].
    injection Heq as _ <- _. specialize (Hbefore a 10 (or_introl eq_refl)). lia.
  - destruct before as [| x before].
    + injection Heq as _ <- <-. exfalso.
      specialize (Hafter a 10 (or_introl eq_refl)). lia.
    + injection Heq as <- Heq.
      destruct before as [| y before]; [| destruct before; discriminate Heq].
      injection Heq as <- _ _. reflexivity.
Qed.

Lemma queued_cons (name : string) (reader : PulseReader) (rest : dict PulseReader) :
  queued ((name, reader) :: rest) = (List.length reader + queued rest)%nat.
Proof. reflexivity. Qed.

(** Every round that reads a pulse shortens a queue. *)
Lemma read_pulses_queued (readers : dict PulseReader) :
  forall (acc out : dict Z) (readers' : dict PulseReader),
    read_pulses readers acc = (readers', out) ->
    (out = acc /\ queued readers' = queued readers)
    \/ (queued readers' < queued readers)%nat.
Proof.
  induction readers as [| [name reader] rest IH]; intros acc out readers' H.
  - cbn in H. injection H as <- <-. left. split; reflexivity.
  - cbn [read_pulses] in H. destruct reader as [| p reader]; cbn [read_pulse] in H.
    + destruct (read_pulses rest acc) as [rest' out'] eqn:Hrest.
      injection H as <- <-. rewrite !queued_cons.
      destruct (IH _ _ _ Hrest) as [[Hout Hq] | Hq].
      * left. split; [exact Hout | lia].
      * right. lia.
    + destruct (read_pulses rest (dict_set acc name p)) as [rest' out'] eqn:Hrest.
      injection H as <- <-. right. rewrite !queued_cons. cbn [List.length].
      destruct (IH _ _ _ Hrest) as [[_ Hq] | Hq]; lia.
Qed.

Lemma receive_round_queued (self self' : InfraredMultiReceiver) :
  receive_round decode self = Ok (NoPacket, self') ->
  (queued (_pulse_readers self') < queued (_pulse_readers self))%nat.
Proof.
  unfold receive_round.
  destruct (read_pulses (_pulse_readers self) []) as [readers pulses] eqn:Hread.
  destruct (Z.eqb_spec (len pulses) 0) as [Hzero | Hnz]; [discriminate |].
  destruct (read_pulses_queued _ _ _ _ Hread) as [[Hout _] | Hq].
  { subst pulses. exfalso. apply Hnz. reflexivity. }
  destruct (decode_pulses decode pulses (_decoders self) []) as [[decoders datas] | e];
    [| discriminate].
  destruct (len datas >? 0).
  - destruct (record_stats decoders datas [] []) as [[margins strengths] | e];
      [| discriminate].
    destruct (reset_all decoders); [| discriminate].
    destruct (best_scan margins None None); [| discriminate].
    destruct (dict_get datas s); discriminate.
  - intros H. injection H as <-. exact Hq.
Qed.

Lemma receive_loop_fuel (fuel : nat) :
  forall self : InfraredMultiReceiver,
    (queued (_pulse_readers self) < fuel)%nat ->
    receive_loop decode fuel self <> None.
Proof.
  induction fuel as [| fuel IH]; intros self Hfuel; [lia |].
  cbn [receive_loop].
  destruct (receive_round decode self) as [[[| | data] self'] | e] eqn:Hround;
    try discriminate.
  apply IH. pose proof (receive_round_queued _ _ Hround). lia.
Qed.

Lemma quiet_rounds_queued (n : nat) :
  forall start self : InfraredMultiReceiver,
    quiet_rounds decode n start = Some self ->
    (queued (_pulse_readers self) + n <= queued (_pulse_readers start))%nat.
Proof.
  induction n as [| n IH]; intros start self H.
  - cbn in H. injection H as <-. lia.
  - cbn [quiet_rounds] in H.
    destruct (receive_round decode start) as [[[| | data] self1] | e] eqn:Hround;
      try discriminate H.
    pose proof (receive_round_queued _ _ Hround).
    specialize (IH _ _ H). lia.
Qed.

Lemma receive_loop_quiet (n : nat) :
  forall (start self : InfraredMultiReceiver) (fuel : nat),
    quiet_rounds decode n start = Some self ->
    receive_loop decode (n + fuel) start = receive_loop decode fuel self.
Proof.
  induction n as [| n IH]; intros start self fuel H.
  - cbn in H. injection H as <-. reflexivity.
  - cbn [quiet_rounds] in H. cbn [Nat.add receive_loop].
    destruct (receive_round decode start) as [[[| | data] self1] | e];
      try discriminate H.
    exact (IH _ _ _ H).
Qed.

(** The packet of the first iteration that completes one is what
    [receive] returns, with the receiver that iteration leaves. *)
Lemma receive_after_quiet (n : nat) (start self self' : InfraredMultiReceiver)
    (data : bytes) :
  quiet_rounds decode n start = Some self ->
  receive_round decode self = Ok (Packet data, self') ->
  InfraredMultiReceiver_receive decode start = Some (Ok (Some data, self')).
Proof.
  intros Hquiet Hround. unfold InfraredMultiReceiver_receive.
  pose proof (quiet_rounds_queued _ _ _ Hquiet) as Hq.
  replace (S (queued (_pulse_readers start)))
    with (n + S (queued (_pulse_readers start) - n))%nat by lia.
  rewrite (receive_loop_quiet n start self _ Hquiet).
  cbn [receive_loop]. rewrite Hround. reflexivity.
Qed.

(** C4.  A call of [receive] on the receiver [start]: after any number
    of iterations in which no decoder returns a packet the receiver is
    [self]; in the next iteration the pulses read from [self] make at
    least one decoder return a packet.  Then [receive] returns the
    winner's packet and leaves the receiver [self'], in which the
    snapshot holds the margin and strength of exactly the sensors that
    completed, the winner has the lowest margin and is the first with
    it, every decoder (of a winner, a loser or a sensor that did not
    complete) is reset with its own last margin, and
    [last_best_receiver] names the winner.  With two completing sensors
    at margins 10 and 40 the winner is the one at margin 10, in either
    order. *)
Theorem multi_receiver_arbitration (start self : InfraredMultiReceiver)
    (rounds : nat) (readers : dict PulseReader) (pulses : dict Z)
    (decoders : dict InfraredDecoder) (datas : dict bytes) :
  quiet_rounds decode rounds start = Some self ->
  NoDup (keys (_decoders self)) ->
  read_pulses (_pulse_readers self) [] = (readers, pulses) ->
  decode_pulses decode pulses (_decoders self) [] = Ok (decoders, datas) ->
  datas <> [] ->
  (forall (n : string) (d : InfraredDecoder),
      In (n, d) decoders -> _error_threshold d <> 0) ->
  exists (best : string) (data : bytes) (self' : InfraredMultiReceiver),
    InfraredMultiReceiver_receive decode start = Some (Ok (Some data, self'))
    /\ receive_round decode self = Ok (Packet data, self')
    /\ _last_error_margins self' =
       map (fun item => (fst item, _last_error_margin (snd item)))
           (completed datas decoders)
    /\ Forall2 (fun item entry =>
                  fst entry = fst item
                  /\ last_signal_strength (snd item) = Ok (snd entry))
               (completed datas decoders) (_last_signal_strengths self')
    /\ first_lowest (_last_error_margins self') best
    /\ _decoders self' = map (fun item => (fst item, reset_own (snd item))) decoders
    /\ _pulse_readers self' = readers
    /\ dict_get datas best = Some data
    /\ last_best_receiver self' = Some best
    /\ (forall a b : string,
          _last_error_margins self' = [(a, 10); (b, 40)]
          \/ _last_error_margins self' = [(b, 40); (a, 10)] ->
          best = a).
Proof.
  intros Hquiet Hnodup Hread Hdecode Hdatas Hthr.
  destruct (arbitration_round self readers pulses decoders datas
              Hnodup Hread Hdecode Hdatas Hthr)
    as (best & data & self' & Hround & Hrest).
  exists best, data, self'.
  split; [exact (receive_after_quiet rounds start self self' data Hquiet Hround) |].
  split; [exact Hround | exact Hrest].
Qed.

(** X18.  [receive] always comes back: with a result or with an exception of
    a decoder, never by running out of iterations. *)
Lemma receive_terminates (self : InfraredMultiReceiver) :
  InfraredMultiReceiver_receive decode self <> None.
Proof.
  apply receive_loop_fuel. lia.
Qed.

End Arbitration.

Lemma multi_receiver_arbitration_witness :
  exists (data : bytes) (self' : InfraredMultiReceiver),
    InfraredMultiReceiver_receive TagInfraredDecoder_decode
      (InfraredMultiReceiver_init
         [("Left"%string,
           [5; 3000; 6000; 3040; 2000; 1000; 2000; 2000; 2000; 1000; 2000; 1000;
            2000; 2000; 2000; 1000; 2000; 2000; 3000]);
          ("NA"%string, []);
          ("Right"%string,
           [5; 3010; 6000; 3000; 2000; 2000; 2000; 1000; 2000; 2000; 2000; 1000;
            2000; 1000; 2000; 2000; 2000; 1000; 3000])]
         (fun _ => TagInfraredDecoder_init))
    = Some (Ok (Some data, self'))
    /\ data = [82]
    /\ _last_error_margins self' = [("Left"%string, 40); ("Right"%string, 10)]
    /\ last_best_receiver self' = Some "Right"%string.
Proof.
  edestruct (multi_receiver_arbitration TagInfraredDecoder_decode
               (InfraredMultiReceiver_init
                  [("Left"%string,
                    [5; 3000; 6000; 3040; 2000; 1000; 2000; 2000; 2000; 1000; 2000;
                     1000; 2000; 2000; 2000; 1000; 2000; 2000; 3000]);
                   ("NA"%string, []);
                   ("Right"%string,
                    [5; 3010; 6000; 3000; 2000; 2000; 2000; 1000; 2000; 2000; 2000;
                     1000; 2000; 1000; 2000; 2000; 2000; 1000; 3000])]
                  (fun _ => TagInfraredDecoder_init)))
    with (rounds := 18%nat)
    as (best & data & self' & Hreceive & _ & Hmargins & _ & _ & _ & _ & Hdata & Hbest
        & Hpair).
  - vm_compute. reflexivity.
  - repeat constructor; cbn; intuition discriminate.
  - vm_compute. reflexivity.
  - vm_compute. reflexivity.
  - discriminate.
  - intros n d Hin. cbn in Hin.
    repeat (destruct Hin as [Hin | Hin]; [injection Hin as <- <-; discriminate |]).
    destruct Hin.
  - assert (Hsnapshot : _last_error_margins self'
                        = [("Left"%string, 40); ("Right"%string, 10)]).
    { rewrite Hmargins. vm_compute. reflexivity. }
    assert (Hright : best = "Right"%string).
    { apply (Hpair "Right"%string "Left"%string). right. exact Hsnapshot. }
    subst best. exists data, self'. split; [exact Hreceive |].
    split; [| split; [exact Hsnapshot | exact Hbest]].
    vm_compute in Hdata. injection Hdata as <-. reflexivity.
Defined.

(** From construction to the returned packet: after a stray pulse, the
    sensor that receives 0x52 with a deviation of 10 wins over the sensor
    that receives 0x25 with a deviation of 40; the sensor without
    pulses takes no part. *)
Example multi_receiver_run :
  exists self' : InfraredMultiReceiver,
    InfraredMultiReceiver_receive TagInfraredDecoder_decode
      (InfraredMultiReceiver_init
         [("Left"%string,
           [5; 3000; 6000; 3040; 2000; 1000; 2000; 2000; 2000; 1000; 2000; 1000;
            2000; 2000; 2000; 1000; 2000; 2000; 3000]);
          ("NA"%string, []);
          ("Right"%string,
           [5; 3010; 6000; 3000; 2000; 2000; 2000; 1000; 2000; 2000; 2000; 1000;
            2000; 1000; 2000; 2000; 2000; 1000; 3000])]
         (fun _ => TagInfraredDecoder_init))
    = Some (Ok (Some [82], self'))
    /\ _last_error_margins self' = [("Left"%string, 40); ("Right"%string, 10)]
    /\ last_best_receiver self' = Some "Right"%string.
Proof.
  eexists. split; [vm_compute; reflexivity |]. split; reflexivity.
Qed.

(** * Further properties *)

(** ** The CRC *)

(** X10.  [_calculate_crc] always returns a byte, whatever integers it is
    given; a payload followed by its own CRC has CRC 0, and no other
    byte appended to the payload gives CRC 0. *)
Theorem calculate_crc_residue (data : bytes) (c : Z) :
  0 <= _calculate_crc data < 256
  /\ _calculate_crc (data ++ [_calculate_crc data]) = 0
  /\ (0 <= c < 256 ->
      _calculate_crc (data ++ [c]) = 0 -> c = _calculate_crc data).
Proof.
  split; [apply calculate_crc_byte |]. split.
  - rewrite calculate_crc_snoc, Z.lxor_nilpotent. reflexivity.
  - intros Hc Hzero. rewrite calculate_crc_snoc in Hzero.
    pose proof (calculate_crc_byte data) as Hcrc.
    pose proof (lxor_byte _ _ Hcrc Hc) as Hx.
    assert (Hinj : (negb (crc_shift 8 (Z.lxor (_calculate_crc data) c) =? 0)
                    || (Z.lxor (_calculate_crc data) c =? 0)) = true).
    { apply (forall_bytes (fun y => negb (crc_shift 8 y =? 0) || (y =? 0)));
        [vm_compute; reflexivity | exact Hx]. }
    rewrite Hzero in Hinj. cbn in Hinj. apply Z.eqb_eq in Hinj.
    apply Z.lxor_eq in Hinj. symmetry. exact Hinj.
Qed.

Lemma calculate_crc_residue_witness :
  _calculate_crc [49; 50] = 253
  /\ forall c : Z, 0 <= c < 256 -> _calculate_crc ([49; 50] ++ [c]) = 0 -> c = 253.
Proof.
  split; [reflexivity |]. intros c Hc Hzero.
  exact (proj2 (proj2 (calculate_crc_residue [49; 50] c)) Hc Hzero).
Defined.

(** ** Signal strength: errors and range *)

Lemma ratio_le (m t : Z) (a b : positive) :
  0 < t -> Z.pos b * m <= Z.pos a * t ->
  (inject_Z m / inject_Z t <= Z.pos a # b)%Q.
Proof.
  intros Ht Hm. apply Qle_shift_div_r.
  - unfold Qlt, inject_Z; cbn; lia.
  - unfold Qle, Qmult, inject_Z. cbn [Qnum Qden]. lia.
Qed.

(** X2.  [last_signal_strength] raises [ZeroDivisionError] exactly for a
    threshold of 0 with a non-zero margin.  For a positive threshold it
    is at most 1; a margin between 0 and the threshold gives at least
    0.3, and a margin of at most 30% of the threshold gives 1. *)
Theorem last_signal_strength_edges (self : InfraredDecoder) :
  let m := _last_error_margin self in
  let t := _error_threshold self in
  (last_signal_strength self = Raise ZeroDivisionError <-> t = 0 /\ m <> 0)
  /\ (0 < t ->
      exists s : Q,
        last_signal_strength self = Ok s
        /\ (s <= 1)%Q
        /\ (m <= t -> (3 # 10 <= s)%Q)
        /\ (10 * m <= 3 * t -> (s == 1)%Q)).
Proof.
  cbv zeta. unfold last_signal_strength.
  destruct (Z.eqb_spec (_last_error_margin self) 0) as [Hm0 | Hmnz].
  - split.
    + split; [discriminate | intros [_ H]; contradiction].
    + intros Ht. exists 1%Q. repeat split; try (intros; reflexivity).
      * apply Qle_refl.
      * intros _. discriminate.
  - destruct (Z.eqb_spec (_error_threshold self) 0) as [Ht0 | Htnz].
    + split; [split; [intros _; split; assumption | reflexivity] | intros Ht; lia].
    + split; [split; [discriminate | intros [H _]; contradiction] |].
      intros Ht. eexists. split; [reflexivity |].
      split; [apply Q.le_min_l |]. split.
      * intros Hle. apply Q.min_glb; [discriminate |].
        pose proof (ratio_le (_last_error_margin self) (_error_threshold self) 1 1 Ht
                      ltac:(lia)) as Hr.
        apply (Qplus_le_r _ _ (inject_Z (_last_error_margin self)
                               / inject_Z (_error_threshold self) - (3 # 10))).
        ring_simplify. exact Hr.
      * intros Hle. apply Q.min_l.
        pose proof (ratio_le (_last_error_margin self) (_error_threshold self) 3 10 Ht
                      ltac:(lia)) as Hr.
        apply (Qplus_le_r _ _ (inject_Z (_last_error_margin self)
                               / inject_Z (_error_threshold self) - 1)).
        ring_simplify. exact Hr.
Qed.

Lemma last_signal_strength_edges_witness :
  last_signal_strength (mkDecoder 0 0 [] 7 0 0 5) = Raise ZeroDivisionError
  /\ exists s : Q,
       last_signal_strength (mkDecoder 500 0 [] 7 0 0 150) = Ok s /\ (s == 1)%Q.
Proof.
  split.
  - apply (proj1 (last_signal_strength_edges (mkDecoder 0 0 [] 7 0 0 5))).
    cbn. split; [reflexivity | discriminate].
  - destruct (proj2 (last_signal_strength_edges (mkDecoder 500 0 [] 7 0 0 150)))
      as (s & Hs & _ & _ & Hfull); [cbn; lia |].
    exists s. split; [exact Hs |]. apply Hfull. cbn. lia.
Defined.

(** ** The tag decoder under timing deviations *)

Ltac tol_side :=
  cbn -[Z.abs Z.max Z.sub];
  unfold TAG_MARK, TAG_SPACE_ONE, TAG_SPACE_ZERO, TAG_ERROR_MARGIN in *;
  lia.

Ltac step_tol :=
  match goal with
  | |- context [bind (check_pulse ?r ?e) ?k ?d] =>
      first
        [ rewrite (bind_ok _ _ _ _ _ (check_pulse_match d r e ltac:(tol_side)))
        | rewrite (bind_ok _ _ _ _ _ (check_pulse_mismatch d r e ltac:(tol_side))) ];
      cbv beta iota
  end.

Ltac tag_tol :=
  repeat (tag_simpl'; first [step_tol | step_write]); tag_simpl'.

Ltac decode_one_tol :=
  unfold TagInfraredDecoder_decode;
  rewrite (bind_ok get _ _ _ _ eq_refl); cbv beta;
  cbn [decoder_state _decoder_state];
  try match goal with
      | |- context [py_index TAG_PREAMBLE ?s] =>
          let v := eval vm_compute in (py_index TAG_PREAMBLE s) in
          change (py_index TAG_PREAMBLE s) with v
      end;
  tag_tol; tag_fields; reflexivity.

Lemma decode_preamble_tol (mx lst p0 p1 p2 : Z) :
  Z.abs (p0 - 3000) < 500 -> Z.abs (p1 - 6000) < 500 -> Z.abs (p2 - 3000) < 500 ->
  feed TagInfraredDecoder_decode [p0; p1; p2] (mkDecoder 500 0 [] 7 0 mx lst)
  = Ok ([None; None; None],
        mkDecoder 500 3 [] 7 0
          (Z.max (Z.max (Z.max mx (Z.abs (p0 - 3000))) (Z.abs (p1 - 6000)))
                 (Z.abs (p2 - 3000))) lst).
Proof.
  intros H0 H1 H2.
  eapply feed_cons; [decode_one_tol |].
  eapply feed_cons; [decode_one_tol |].
  eapply feed_cons; [decode_one_tol |].
  reflexivity.
Qed.

Lemma decode_bit_tol (j : Z) (bit : bool) (byte mx lst m sp : Z) :
  0 <= j <= 6 ->
  Z.abs (m - TAG_MARK) < 500 ->
  Z.abs (sp - (if bit then TAG_SPACE_ONE else TAG_SPACE_ZERO)) < 500 ->
  feed TagInfraredDecoder_decode [m; sp]
    (mkDecoder 500 (3 + 2 * j) [] (7 - j) byte mx lst)
  = Ok ([None; None],
        mkDecoder 500 (3 + 2 * (j + 1)) [] (7 - j - 1)
          (if bit then Z.lor byte (Z.shiftl 1 (7 - j)) else byte)
          (Z.max (Z.max mx (Z.abs (m - TAG_MARK)))
                 (Z.abs (sp - (if bit then TAG_SPACE_ONE else TAG_SPACE_ZERO))))
          lst).
Proof.
  intros Hj Hm Hsp.
  assert (Hcases : j = 0 \/ j = 1 \/ j = 2 \/ j = 3 \/ j = 4 \/ j = 5 \/ j = 6) by lia.
  clear Hj.
  repeat (destruct Hcases as [-> | Hcases]); try subst j; destruct bit;
    (eapply feed_cons; [decode_one_tol |]);
    (eapply feed_cons; [decode_one_tol |]);
    reflexivity.
Qed.

Lemma decode_bits_tol (lst : Z) (bits : list bool) :
  forall (pulses : list Z) (j s idx byte mx : Z),
    0 <= j -> j + len bits <= 7 -> s = 3 + 2 * j -> idx = 7 - j ->
    within_tolerance 500 pulses (bit_pulses bits) ->
    feed TagInfraredDecoder_decode pulses (mkDecoder 500 s [] idx byte mx lst)
    = Ok (repeat None (2 * List.length bits),
          mkDecoder 500 (s + 2 * len bits) [] (idx - len bits)
            (write_bits bits idx byte)
            (max_deviation pulses (bit_pulses bits) mx) lst).
Proof.
  induction bits as [| bit rest IH]; intros pulses j s idx byte mx Hj Hlen Hs Hidx Htol.
  - inversion Htol; subst. cbn [feed write_bits List.length Nat.mul repeat].
    unfold ret, max_deviation. cbn [combine fold_left]. change (len (@nil bool)) with 0.
    rewrite Z.mul_0_r, Z.add_0_r, Z.sub_0_r. reflexivity.
  - rewrite len_cons in Hlen |- *. subst s idx.
    change (bit_pulses (bit :: rest))
      with (TAG_MARK :: (if bit then TAG_SPACE_ONE else TAG_SPACE_ZERO) :: bit_pulses rest)
      in Htol |- *.
    inversion Htol as [| m nm prest nrest Hm Htol']; subst.
    inversion Htol' as [| sp nsp prest' nrest' Hsp Hrest]; subst.
    assert (Hrange : 0 <= j <= 6) by (unfold len in Hlen; lia).
    pose proof (decode_bit_tol j bit byte mx lst m sp Hrange Hm Hsp) as Hbit.
    pose proof (IH prest' (j + 1) (3 + 2 * (j + 1)) (7 - j - 1)
                   (if bit then Z.lor byte (Z.shiftl 1 (7 - j)) else byte)
                   (Z.max (Z.max mx (Z.abs (m - TAG_MARK)))
                          (Z.abs (sp - (if bit then TAG_SPACE_ONE else TAG_SPACE_ZERO))))
                   ltac:(lia) ltac:(lia) eq_refl ltac:(lia) Hrest) as Hfeed.
    change (m :: sp :: prest') with ([m; sp] ++ prest').
    rewrite (feed_app _ _ _ _ _ _ _ _ Hbit Hfeed).
    cbn [write_bits].
    replace (2 * List.length (bit :: rest))%nat with (S (S (2 * List.length rest)))%nat
      by (cbn [List.length]; lia).
    replace (3 + 2 * (j + 1) + 2 * len rest) with (3 + 2 * j + 2 * (len rest + 1)) by lia.
    replace (7 - j - 1 - len rest) with (7 - j - (len rest + 1)) by lia.
    reflexivity.
Qed.

(** A pulse train within tolerance of the encoded byte [b] takes a
    ready decoder to the completion state, with the byte's seven bits in
    the bit writer and the largest deviation as maximum margin. *)
Lemma tag_decode_train (b mx lst : Z) (pulses : list Z) :
  0 <= b < 256 ->
  within_tolerance 500 pulses (TAG_PREAMBLE ++ bit_pulses (tag_bits b)) ->
  feed TagInfraredDecoder_decode pulses (mkDecoder 500 0 [] 7 0 mx lst)
  = Ok (repeat None 17,
        mkDecoder 500 17 [] 0 (write_bits (tag_bits b) 7 0)
          (max_deviation pulses (TAG_PREAMBLE ++ bit_pulses (tag_bits b)) mx) lst).
Proof.
  intros Hb Htol. unfold within_tolerance in Htol.
  apply Forall2_app_inv_r in Htol.
  destruct Htol as (pre & post & Hpre & Hpost & ->).
  unfold TAG_PREAMBLE in Hpre.
  inversion Hpre as [| p0 n0 r0 s0 H0 Hpre1]; subst.
  inversion Hpre1 as [| p1 n1 r1 s1 H1 Hpre2]; subst.
  inversion Hpre2 as [| p2 n2 r2 s2 H2 Hpre3]; subst.
  inversion Hpre3; subst.
  pose proof (decode_preamble_tol mx lst p0 p1 p2 H0 H1 H2) as Hhead.
  pose proof (decode_bits_tol lst (tag_bits b) post 0 3 7 0
                (Z.max (Z.max (Z.max mx (Z.abs (p0 - 3000))) (Z.abs (p1 - 6000)))
                       (Z.abs (p2 - 3000)))
                ltac:(lia) ltac:(vm_compute; discriminate) eq_refl eq_refl Hpost) as Htail.
  rewrite (feed_app _ _ _ _ _ _ _ _ Hhead Htail). reflexivity.
Qed.

Lemma max_deviation_bound (threshold : Z) (pulses nominal : list Z) :
  within_tolerance threshold pulses nominal ->
  forall start : Z,
    0 <= start < threshold ->
    0 <= max_deviation pulses nominal start < threshold.
Proof.
  unfold within_tolerance, max_deviation.
  induction 1 as [| p n prest nrest Hp Hrest IH]; intros start Hstart.
  - exact Hstart.
  - cbn [combine fold_left fst snd]. apply IH. lia.
Qed.

(** X6.  A pulse train in which every pulse is closer than 500 to the pulse
    the encoder emits for the byte [b] decodes, on a ready decoder, like
    the encoder's own train: no packet during the 17 pulses, the packet
    [b & 0x7F] at the next pulse; the margin recorded for the packet is
    the largest deviation among the 17 pulses (the next pulse is not
    measured), and it is below the threshold when the decoder started
    with a maximum margin of 0. *)
Theorem tag_decode_tolerant (d : InfraredDecoder) (b next_pulse : Z)
    (pulses nominal : list Z) :
  tag_ready d ->
  0 <= b < 256 ->
  TagInfraredEncoder_encode [b] = Ok nominal ->
  within_tolerance TAG_ERROR_MARGIN pulses nominal ->
  exists d1 : InfraredDecoder,
    feed TagInfraredDecoder_decode pulses d = Ok (repeat None 17, d1)
    /\ TagInfraredDecoder_decode next_pulse d1
       = Ok (Some [Z.land b 127],
             mkDecoder TAG_ERROR_MARGIN 0 [] 7 0 0
               (max_deviation pulses nominal (_max_error_margin d)))
    /\ (_max_error_margin d = 0 ->
        0 <= max_deviation pulses nominal (_max_error_margin d) < TAG_ERROR_MARGIN).
Proof.
  intros Hready Hb Hencode Htol.
  destruct d as [t s data idx byte mx lst]. unfold tag_ready in Hready.
  cbn in Hready. destruct Hready as (-> & -> & -> & -> & ->).
  rewrite (encode_pulses b Hb) in Hencode. injection Hencode as <-.
  cbn [_max_error_margin].
  eexists. split; [exact (tag_decode_train b mx lst pulses Hb Htol) |].
  split.
  - rewrite decode_complete
      by (apply write_bits_byte; [lia | lia | vm_compute; discriminate]).
    rewrite (written_bits_value b Hb). reflexivity.
  - intros ->. apply max_deviation_bound; [exact Htol | unfold TAG_ERROR_MARGIN; lia].
Qed.

Lemma tag_decode_tolerant_witness :
  exists d1 : InfraredDecoder,
    feed TagInfraredDecoder_decode
      [3010; 5990; 3000; 2000; 2400; 2000; 1000; 2000; 2000; 1700; 1000;
       2000; 1499; 2000; 2000; 2000; 501]
      (mkDecoder 500 0 [] 7 0 0 500) = Ok (repeat None 17, d1)
    /\ TagInfraredDecoder_decode 9 d1
       = Ok (Some [82], mkDecoder 500 0 [] 7 0 0 499).
Proof.
  destruct (tag_decode_tolerant (mkDecoder 500 0 [] 7 0 0 500) 82 9
              [3010; 5990; 3000; 2000; 2400; 2000; 1000; 2000; 2000; 1700; 1000;
               2000; 1499; 2000; 2000; 2000; 501]
              [3000; 6000; 3000; 2000; 2000; 2000; 1000; 2000; 2000; 2000; 1000;
               2000; 1000; 2000; 2000; 2000; 1000])
    as (d1 & Hfeed & Hnext & _).
  - unfold tag_ready. cbn. repeat split.
  - lia.
  - vm_compute. reflexivity.
  - unfold within_tolerance, TAG_ERROR_MARGIN. repeat constructor; cbn; lia.
  - exists d1. split; [exact Hfeed | exact Hnext].
Defined.

(** ** The tag field codec on arbitrary bytes *)

Lemma land_low_range (x : Z) (n : Z) :
  0 <= n -> 0 <= Z.land x (Z.ones n) < 2 ^ n.
Proof.
  intros Hn. rewrite Z.land_ones by exact Hn. apply Z.mod_pos_bound.
  apply Z.pow_pos_nonneg; lia.
Qed.

Lemma decode_tag_data_cons (b : Z) (rest : bytes) :
  decode_tag_data (b :: rest)
  = Ok (mkTagData (Z.land (Z.shiftr b 5) 3) (1 + Z.land (Z.shiftr b 2) 7)
                  (1 + Z.land b 3)).
Proof.
  unfold decode_tag_data. rewrite len_cons.
  destruct (Z.ltb_spec (len rest + 1) 1) as [Hlt | _]; [unfold len in Hlt; lia |].
  reflexivity.
Qed.

(** X3.  [decode_tag_data] raises [ValueError] on empty data; on any other
    data it reads the first element only and its result always has the
    team in 0..3, the player in 1..8 and the damage in 1..4. *)
Theorem decode_tag_data_fields (b : Z) (rest : bytes) :
  decode_tag_data [] = Raise ValueError
  /\ exists t : TagData,
       decode_tag_data (b :: rest) = Ok t
       /\ decode_tag_data [b] = Ok t
       /\ tag_in_range t.
Proof.
  split; [reflexivity |].
  eexists. split; [apply decode_tag_data_cons |]. split; [apply decode_tag_data_cons |].
  unfold tag_in_range. cbn [team player damage].
  pose proof (land_low_range (Z.shiftr b 5) 2 ltac:(lia)) as Hteam.
  pose proof (land_low_range (Z.shiftr b 2) 3 ltac:(lia)) as Hplayer.
  pose proof (land_low_range b 2 ltac:(lia)) as Hdamage.
  change (Z.ones 2) with 3 in *. change (Z.ones 3) with 7 in *.
  change (2 ^ 2) with 4 in *. change (2 ^ 3) with 8 in *. lia.
Qed.

(** X4.  Encoding the fields decoded from a byte gives the byte without its
    top bit: the codec loses exactly the padding bit. *)
Theorem tag_codec_reverse (b : Z) (rest : bytes) :
  0 <= b < 256 ->
  exists t : TagData,
    decode_tag_data (b :: rest) = Ok t
    /\ encode_tag_data t = Ok [Z.land b 127].
Proof.
  intros Hb.
  assert (Hcheck : codec_check b = true).
  { apply forall_bytes; [vm_compute; reflexivity | exact Hb]. }
  unfold codec_check in Hcheck.
  rewrite decode_tag_data_cons in Hcheck |- *.
  eexists. split; [reflexivity |].
  destruct (encode_tag_data _) as [[| v [| w l]] | e]; try discriminate Hcheck.
  apply Z.eqb_eq in Hcheck. subst v. reflexivity.
Qed.

Lemma tag_codec_reverse_witness :
  exists t : TagData,
    decode_tag_data [210; 7] = Ok t /\ encode_tag_data t = Ok [82].
Proof.
  apply (tag_codec_reverse 210 [7]). lia.
Defined.

(** ** The tag encoder *)

Lemma tag_bits_low (b : Z) : tag_bits (Z.land b 127) = tag_bits b.
Proof.
  unfold tag_bits. cbn [map]. rewrite !Z.land_spec.
  change (Z.testbit 127 6) with true. change (Z.testbit 127 5) with true.
  change (Z.testbit 127 4) with true. change (Z.testbit 127 3) with true.
  change (Z.testbit 127 2) with true. change (Z.testbit 127 1) with true.
  change (Z.testbit 127 0) with true. rewrite !andb_true_r. reflexivity.
Qed.

(** X5.  [TagInfraredEncoder.encode] raises [IndexError] on empty data; on
    other data it encodes the first byte only, as the preamble followed
    by a mark and a space for each of the byte's seven low bits, most
    significant first: 17 durations, the same for a byte with and
    without its top bit. *)
Theorem tag_encoder_shape (b : Z) (rest : bytes) :
  TagInfraredEncoder_encode [] = Raise IndexError
  /\ (0 <= b < 256 ->
      TagInfraredEncoder_encode (b :: rest)
      = Ok (TAG_PREAMBLE ++ bit_pulses (tag_bits b))
      /\ List.length (TAG_PREAMBLE ++ bit_pulses (tag_bits b)) = 17%nat
      /\ TagInfraredEncoder_encode [Z.land b 127]
         = TagInfraredEncoder_encode (b :: rest)).
Proof.
  split; [reflexivity |]. intros Hb.
  assert (Hrest : TagInfraredEncoder_encode (b :: rest) = TagInfraredEncoder_encode [b])
    by reflexivity.
  rewrite Hrest, (encode_pulses b Hb).
  split; [reflexivity |]. split; [reflexivity |].
  rewrite encode_pulses, tag_bits_low; [reflexivity |].
  pose proof (land_low_range b 7 ltac:(lia)) as Hlow.
  change (Z.ones 7) with 127 in Hlow. change (2 ^ 7) with 128 in Hlow. lia.
Qed.

Lemma tag_encoder_shape_witness :
  TagInfraredEncoder_encode [210; 1; 2]
  = Ok [3000; 6000; 3000; 2000; 2000; 2000; 1000; 2000; 2000; 2000; 1000;
        2000; 1000; 2000; 2000; 2000; 1000].
Proof.
  apply (proj2 (tag_encoder_shape 210 [1; 2])). lia.
Defined.

(** ** A TagData through encoder and decoder *)

(** X9.  A valid [TagData], packed by [encode_tag_data], turned into pulses
    by the encoder, received by a ready decoder within tolerance and
    unpacked by [decode_tag_data], comes back with the same fields. *)
Theorem tag_data_through_pulses (t : TagData) (d : InfraredDecoder)
    (pulses : list Z) (next_pulse : Z) :
  tag_in_range t ->
  tag_ready d ->
  (exists (data : bytes) (nominal : list Z),
      encode_tag_data t = Ok data
      /\ TagInfraredEncoder_encode data = Ok nominal
      /\ within_tolerance TAG_ERROR_MARGIN pulses nominal) ->
  exists (d1 d2 : InfraredDecoder) (packet : bytes),
    feed TagInfraredDecoder_decode pulses d = Ok (repeat None 17, d1)
    /\ TagInfraredDecoder_decode next_pulse d1 = Ok (Some packet, d2)
    /\ decode_tag_data packet = Ok t
    /\ tag_ready d2.
Proof.
  intros Hrange Hready (data & nominal & Hdata & Hnominal & Htol).
  destruct d as [th s buf idx byte mx lst]. unfold tag_ready in Hready.
  cbn in Hready. destruct Hready as (-> & -> & -> & -> & ->).
  pose proof (encode_tag_data_in_range t Hrange) as Hbyte.
  set (b := Z.lor (Z.lor (Z.shiftl (team t) 5) (Z.shiftl (player t - 1) 2))
                  (damage t - 1)) in *.
  assert (Hd : data = [b]) by congruence. subst data. clear Hdata Hbyte.
  assert (Hb : 0 <= b <= 127 /\ decode_tag_data [b] = Ok t).
  { subst b. clear Hnominal Htol. revert Hrange.
    tag_cases t; (split; [vm_compute; split; discriminate | reflexivity]). }
  destruct Hb as [Hb Hback].
  rewrite (encode_pulses b ltac:(lia)) in Hnominal. injection Hnominal as <-.
  eexists. eexists. exists [b].
  split; [exact (tag_decode_train b mx lst pulses ltac:(lia) Htol) |].
  split.
  - rewrite decode_complete
      by (apply write_bits_byte; [lia | lia | vm_compute; discriminate]).
    rewrite (written_bits_value b ltac:(lia)).
    change 127 with (Z.ones 7). rewrite Z.land_ones by lia.
    rewrite Z.mod_small by (change (2 ^ 7) with 128; lia). reflexivity.
  - split; [exact Hback |]. unfold tag_ready. cbn. repeat split.
Qed.

Lemma tag_data_through_pulses_witness :
  exists (d1 d2 : InfraredDecoder) (packet : bytes),
    feed TagInfraredDecoder_decode
      [3000; 6000; 3000; 2000; 2000; 2000; 1000; 2000; 2000; 2000; 1000;
       2000; 1000; 2000; 2000; 2000; 1000]
      (mkDecoder 500 0 [] 7 0 0 500) = Ok (repeat None 17, d1)
    /\ TagInfraredDecoder_decode 3000 d1 = Ok (Some packet, d2)
    /\ decode_tag_data packet = Ok (mkTagData 2 5 3)
    /\ tag_ready d2.
Proof.
  apply (tag_data_through_pulses (mkTagData 2 5 3)).
  - unfold tag_in_range; cbn; lia.
  - unfold tag_ready. cbn. repeat split.
  - exists [82], [3000; 6000; 3000; 2000; 2000; 2000; 1000; 2000; 2000; 2000; 1000;
                  2000; 1000; 2000; 2000; 2000; 1000].
    split; [reflexivity |]. split; [vm_compute; reflexivity |].
    unfold within_tolerance, TAG_ERROR_MARGIN. repeat constructor; cbn; lia.
Defined.

(** ** Abort and advance of the tag decoder *)

Ltac abort_side Hall :=
  exfalso;
  try (pose proof (Hall _ (or_introl eq_refl)));
  try (pose proof (Hall _ (or_intror (or_introl eq_refl))));
  lia.

Ltac tag_before_completion_case p :=
  match goal with
  | |- context [tag_expected ?s] =>
      let v := eval vm_compute in (tag_expected s) in
      change (tag_expected s) with v
  end;
  repeat match goal with
         | |- context [In _ (?e :: _)] =>
             lazymatch goal with
             | _ : Z.abs (p - e) < 500 |- _ => fail
             | _ : 500 <= Z.abs (p - e) |- _ => fail
             | _ => destruct (Z_lt_le_dec (Z.abs (p - e)) 500)
             end
         | |- context [In _ (_ :: ?e :: _)] =>
             lazymatch goal with
             | _ : Z.abs (p - e) < 500 |- _ => fail
             | _ : 500 <= Z.abs (p - e) |- _ => fail
             | _ => destruct (Z_lt_le_dec (Z.abs (p - e)) 500)
             end
         end;
  (eexists; split;
  [ decode_one_tol
  | split;
    [ let Hall := fresh "Hall" in
      intros Hall; first [reflexivity | abort_side Hall]
    | let e := fresh "e" in
      let Hin := fresh "Hin" in
      let He := fresh "He" in
      intros (e & Hin & He);
      first [ split; reflexivity
            | exfalso; cbn [In] in Hin;
              repeat (destruct Hin as [Hin | Hin]; [subst e; lia |]);
              exact Hin ] ] ]).

(** X7.  Before the completion state a call never returns a packet.  A pulse
    that is 500 or more away from every duration expected in the current
    state aborts the packet: the decoder is reset and records the
    threshold as margin.  A pulse closer than 500 to an expected
    duration moves the decoder to the next state and leaves the recorded
    margin alone. *)
Theorem tag_decode_before_completion (d : InfraredDecoder) (pulse : Z) :
  tag_reachable d ->
  _decoder_state d < 17 ->
  exists d' : InfraredDecoder,
    TagInfraredDecoder_decode pulse d = Ok (None, d')
    /\ ((forall e : Z, In e (tag_expected (_decoder_state d)) ->
                       500 <= Z.abs (pulse - e)) ->
        d' = mkDecoder 500 0 [] 7 0 0 500)
    /\ ((exists e : Z, In e (tag_expected (_decoder_state d))
                       /\ Z.abs (pulse - e) < 500) ->
        _decoder_state d' = _decoder_state d + 1
        /\ _last_error_margin d' = _last_error_margin d).
Proof.
  intros Hreach Hstate. pose proof (tag_reachable_inv d Hreach) as Hinv.
  destruct d as [t s data idx byte mx lst]. unfold tag_inv in Hinv.
  cbn [_error_threshold _decoder_state _received_data _received_bit_index
       _received_byte _last_error_margin] in *.
  destruct Hinv as (-> & Hs & Hbyte & Hshape).
  assert (Hcases : s = 0 \/ s = 1 \/ s = 2 \/ s = 3 \/ s = 4 \/ s = 5 \/ s = 6 \/ s = 7
                   \/ s = 8 \/ s = 9 \/ s = 10 \/ s = 11 \/ s = 12 \/ s = 13 \/ s = 14
                   \/ s = 15 \/ s = 16) by lia.
  clear Hs Hstate.
  repeat (destruct Hcases as [-> | Hcases]); try subst s;
    (destruct Hshape as [(-> & ->) | [(-> & -> & Hle) | (b & -> & Hb & Hge & ->)]];
     [ | try lia .. ]).
  all: tag_before_completion_case pulse.
Qed.

Lemma tag_decode_before_completion_witness :
  (exists d' : InfraredDecoder,
      TagInfraredDecoder_decode 3600 TagInfraredDecoder_init = Ok (None, d')
      /\ d' = mkDecoder 500 0 [] 7 0 0 500)
  /\ (exists d' : InfraredDecoder,
         TagInfraredDecoder_decode 3400 TagInfraredDecoder_init = Ok (None, d')
         /\ _decoder_state d' = 1).
Proof.
  split.
  - destruct (tag_decode_before_completion TagInfraredDecoder_init 3600 reach_init)
      as (d' & Hdecode & Habort & _); [cbn; lia |].
    exists d'. split; [exact Hdecode |]. apply Habort.
    intros e Hin. vm_compute in Hin. destruct Hin as [<- | []]. lia.
  - destruct (tag_decode_before_completion TagInfraredDecoder_init 3400 reach_init)
      as (d' & Hdecode & _ & Hnext); [cbn; lia |].
    exists d'. split; [exact Hdecode |]. apply Hnext.
    exists 3000. split; [vm_compute; left; reflexivity | lia].
Defined.

Lemma bits_written_range (s : Z) :
  0 <= s <= 17 ->
  0 <= bits_written s <= 7 /\ (5 <= s -> 1 <= bits_written s).
Proof.
  intros Hs.
  assert (Hcases : s = 0 \/ s = 1 \/ s = 2 \/ s = 3 \/ s = 4 \/ s = 5 \/ s = 6 \/ s = 7
                   \/ s = 8 \/ s = 9 \/ s = 10 \/ s = 11 \/ s = 12 \/ s = 13 \/ s = 14
                   \/ s = 15 \/ s = 16 \/ s = 17) by lia.
  clear Hs.
  repeat (destruct Hcases as [-> | Hcases]); try subst s;
    (split;
     [ split; vm_compute; discriminate
     | intros H5; first [exfalso; lia | vm_compute; discriminate] ]).
Qed.

(** X8.  Between calls a tag decoder keeps its threshold, a state from 0 to
    17, a bit index from 0 to 7, a current byte below 256 and at most
    one buffered byte, itself below 256. *)
Theorem tag_reachable_bounds (d : InfraredDecoder) :
  tag_reachable d ->
  _error_threshold d = TAG_ERROR_MARGIN
  /\ 0 <= _decoder_state d <= 17
  /\ 0 <= _received_bit_index d <= 7
  /\ 0 <= _received_byte d < 256
  /\ (List.length (_received_data d) <= 1)%nat
  /\ Forall (fun x : Z => 0 <= x < 256) (_received_data d).
Proof.
  intros Hreach. destruct (tag_reachable_inv d Hreach) as (Ht & Hs & Hbyte & Hshape).
  split; [exact Ht |]. split; [exact Hs |].
  pose proof (bits_written_range _ Hs) as Hwritten.
  destruct Hwritten as [Hw Hw5].
  destruct Hshape as [(Hdata & Hidx) | [(Hdata & Hidx & Hle) | (b & Hdata & Hb & Hge & Hidx)]];
    rewrite Hdata, Hidx.
  - repeat split; try lia; try (cbn; lia). constructor.
  - repeat split; try lia; try (cbn; lia). constructor.
  - specialize (Hw5 Hge). repeat split; try lia; try (cbn; lia).
    constructor; [exact Hb | constructor].
Qed.

Lemma tag_reachable_bounds_witness :
  0 <= _received_bit_index TagInfraredDecoder_init <= 7.
Proof.
  exact (proj1 (proj2 (proj2 (tag_reachable_bounds TagInfraredDecoder_init reach_init)))).
Defined.

(** ** The CRC protocol encoder *)

Lemma len_app {A : Type} (l1 l2 : list A) : len (l1 ++ l2) = len l1 + len l2.
Proof. unfold len. rewrite length_app. lia. Qed.

Lemma len_nonneg {A : Type} (l : list A) : 0 <= len l.
Proof. unfold len. lia. Qed.

Lemma array_set_middle (l1 l2 : list Z) (x v : Z) :
  0 <= v <= 65535 ->
  array_set (l1 ++ x :: l2) (len l1) v = Ok (l1 ++ v :: l2).
Proof.
  intros Hv. pose proof (len_nonneg l1) as Hl1. pose proof (len_nonneg l2) as Hl2.
  assert (E1 : (v <? 0) = false) by (apply Z.ltb_ge; lia).
  assert (E2 : (65535 <? v) = false) by (apply Z.ltb_ge; lia).
  assert (E3 : (len l1 <? 0) = false) by (apply Z.ltb_ge; lia).
  assert (E4 : (len (l1 ++ x :: l2) <=? len l1) = false).
  { apply Z.leb_gt. rewrite len_app, len_cons. lia. }
  unfold array_set. rewrite E1, E2. cbn [orb]. cbv zeta. rewrite E3. cbv iota.
  rewrite E3, E4. cbn [orb]. cbv iota.
  unfold len. rewrite Nat2Z.id.
  rewrite firstn_app, Nat.sub_diag, firstn_all. cbn [firstn]. rewrite app_nil_r.
  replace (S (List.length l1)) with (List.length l1 + 1)%nat by lia.
  rewrite skipn_app, skipn_all2 by lia.
  replace (List.length l1 + 1 - List.length l1)%nat with 1%nat by lia.
  reflexivity.
Qed.

Lemma array_set_last (l1 : list Z) (x v : Z) :
  0 <= v <= 65535 ->
  array_set (l1 ++ [x]) (-1) v = Ok (l1 ++ [v]).
Proof.
  intros Hv. rewrite <- (array_set_middle l1 [] x v Hv).
  pose proof (len_nonneg l1) as Hl1.
  assert (E3 : (len l1 <? 0) = false) by (apply Z.ltb_ge; lia).
  unfold array_set. cbn [Z.ltb Z.compare]. cbv zeta. rewrite E3. cbv iota.
  rewrite len_app. change (len [x]) with 1.
  replace (-1 + (len l1 + 1)) with (len l1) by lia. reflexivity.
Qed.

Lemma array_set_first (l : list Z) (x v : Z) :
  0 <= v <= 65535 -> array_set (x :: l) 0 v = Ok (v :: l).
Proof. exact (array_set_middle [] l x v). Qed.

Lemma array_set_second (l : list Z) (a x v : Z) :
  0 <= v <= 65535 -> array_set (a :: x :: l) 1 v = Ok (a :: v :: l).
Proof. exact (array_set_middle [a] l x v). Qed.

Lemma encode_byte_loop_spec (n : nat) :
  forall (l1 zs l2 : list Z) (value : Z),
    List.length zs = n ->
    _encode_byte_loop n (l1 ++ zs ++ l2) (len l1) value
    = Ok (l1 ++ shift_pulses n value ++ l2).
Proof.
  induction n as [| n IH]; intros l1 zs l2 value Hlen.
  - destruct zs; [reflexivity | discriminate Hlen].
  - destruct zs as [| z zs]; [discriminate Hlen |]. injection Hlen as Hlen.
    cbn [_encode_byte_loop shift_pulses app].
    rewrite array_set_middle
      by (destruct (Z.land value 128 >? 0); unfold IR_ONE, IR_ZERO, IR_UNIT; lia).
    replace (len l1 + 1) with (len (l1 ++ [if Z.land value 128 >? 0 then IR_ONE else IR_ZERO]))
      by (rewrite len_app; reflexivity).
    change (l1 ++ (if Z.land value 128 >? 0 then IR_ONE else IR_ZERO) :: zs ++ l2)
      with (l1 ++ [if Z.land value 128 >? 0 then IR_ONE else IR_ZERO] ++ zs ++ l2).
    rewrite app_assoc. rewrite (IH _ zs l2 _ Hlen). rewrite <- app_assoc. reflexivity.
Qed.

Lemma encode_data_bytes_spec (data : bytes) :
  forall (l1 zs l2 : list Z),
    List.length zs = (8 * List.length data)%nat ->
    encode_data_bytes data (l1 ++ zs ++ l2) (len l1)
    = Ok (l1 ++ flat_map (shift_pulses 8) data ++ l2, len l1 + 8 * len data).
Proof.
  induction data as [| x rest IH]; intros l1 zs l2 Hlen.
  - destruct zs; [| discriminate Hlen]. cbn. rewrite Z.add_0_r. reflexivity.
  - cbn [encode_data_bytes flat_map]. unfold _encode_byte.
    rewrite <- (firstn_skipn 8 zs), <- app_assoc.
    rewrite encode_byte_loop_spec by (rewrite firstn_length_le; cbn [List.length] in Hlen; lia).
    assert (Hshift : List.length (shift_pulses 8 x) = 8%nat) by reflexivity.
    replace (len l1 + 8) with (len (l1 ++ shift_pulses 8 x))
      by (rewrite len_app; unfold len at 2; rewrite Hshift; reflexivity).
    rewrite app_assoc.
    rewrite IH by (rewrite length_skipn; cbn [List.length] in Hlen; lia).
    rewrite len_app, len_cons. unfold len at 2. rewrite Hshift.
    rewrite <- !app_assoc. f_equal. f_equal. lia.
Qed.

Lemma test_encoder_shift_pulses (data : bytes) :
  TestEncoder_encode data
  = Ok ([IR_HEADER_MARK; IR_HEADER_SPACE] ++ flat_map (shift_pulses 8) data
        ++ shift_pulses 8 (_calculate_crc data) ++ [IR_LEAD_OUT]).
Proof.
  unfold TestEncoder_encode.
  replace (repeat 0 (Z.to_nat (2 + len data * 8 + 8 + 1)))
    with (0 :: 0 :: repeat 0 (8 * List.length data + 8) ++ [0]).
  2:{ replace (Z.to_nat (2 + len data * 8 + 8 + 1))
        with (S (S ((8 * List.length data + 8) + 1)))%nat by (unfold len; lia).
      cbn [repeat]. rewrite (repeat_app 0 (8 * List.length data + 8) 1). reflexivity. }
  rewrite array_set_first by (unfold IR_HEADER_MARK, IR_UNIT; lia).
  rewrite array_set_second by (unfold IR_HEADER_SPACE, IR_UNIT; lia).
  change (IR_HEADER_MARK :: IR_HEADER_SPACE :: repeat 0 (8 * List.length data + 8) ++ [0])
    with (([IR_HEADER_MARK; IR_HEADER_SPACE] ++ repeat 0 (8 * List.length data + 8)) ++ [0]).
  rewrite array_set_last by (unfold IR_LEAD_OUT, IR_UNIT; lia).
  rewrite repeat_app, <- !app_assoc.
  rewrite (encode_data_bytes_spec data [IR_HEADER_MARK; IR_HEADER_SPACE])
    by apply repeat_length.
  unfold _encode_byte.
  assert (Hflat : List.length (flat_map (shift_pulses 8) data) = (8 * List.length data)%nat).
  { induction data as [| x rest IH]; [reflexivity |].
    cbn [flat_map]. rewrite length_app, IH. cbn [List.length shift_pulses]. lia. }
  replace (len [IR_HEADER_MARK; IR_HEADER_SPACE] + 8 * len data)
    with (len ([IR_HEADER_MARK; IR_HEADER_SPACE] ++ flat_map (shift_pulses 8) data))
    by (rewrite len_app; unfold len; rewrite Hflat; lia).
  rewrite (app_assoc [IR_HEADER_MARK; IR_HEADER_SPACE]).
  rewrite encode_byte_loop_spec by apply repeat_length.
  rewrite <- !app_assoc. reflexivity.
Qed.

Lemma shift_pulses_byte (v : Z) :
  0 <= v < 256 -> shift_pulses 8 v = byte_pulses v /\ write_bits (bits8 v) 7 0 = v.
Proof.
  intros Hv.
  assert (Hcheck : shift_check v = true).
  { apply forall_bytes; [vm_compute; reflexivity | exact Hv]. }
  unfold shift_check in Hcheck. apply andb_prop in Hcheck. destruct Hcheck as [Hp Hw].
  split; [apply pulses_eqb_eq, Hp | apply Z.eqb_eq, Hw].
Qed.

Lemma flat_map_byte_pulses (data : bytes) :
  Forall (fun x : Z => 0 <= x < 256) data ->
  flat_map (shift_pulses 8) data = flat_map byte_pulses data.
Proof.
  induction 1 as [| x rest Hx Hrest IH]; [reflexivity |].
  cbn [flat_map]. rewrite IH, (proj1 (shift_pulses_byte x Hx)). reflexivity.
Qed.

Lemma test_encoder_pulses (data : bytes) :
  Forall (fun x : Z => 0 <= x < 256) data ->
  TestEncoder_encode data
  = Ok ([IR_HEADER_MARK; IR_HEADER_SPACE]
        ++ flat_map byte_pulses (data ++ [_calculate_crc data])
        ++ [IR_LEAD_OUT]).
Proof.
  intros Hdata.
  rewrite test_encoder_shift_pulses, (flat_map_byte_pulses data Hdata).
  rewrite (proj1 (shift_pulses_byte _ (calculate_crc_byte data))).
  rewrite flat_map_app. cbn [flat_map]. rewrite app_nil_r, <- !app_assoc. reflexivity.
Qed.

(** X11.  [TestEncoder.encode] of a byte string: the header mark and space,
    eight pulses for each byte and eight for the CRC of the bytes, most
    significant bit first (1500 for a 1, 500 for a 0), and the lead-out:
    [8 * len(data) + 11] durations. *)
Theorem test_encoder_shape (data : bytes) :
  Forall (fun x : Z => 0 <= x < 256) data ->
  TestEncoder_encode data
  = Ok ([IR_HEADER_MARK; IR_HEADER_SPACE]
        ++ flat_map byte_pulses (data ++ [_calculate_crc data])
        ++ [IR_LEAD_OUT])
  /\ List.length ([IR_HEADER_MARK; IR_HEADER_SPACE]
                  ++ flat_map byte_pulses (data ++ [_calculate_crc data])
                  ++ [IR_LEAD_OUT]) = (8 * List.length data + 11)%nat.
Proof.
  intros Hdata. split.
  - exact (test_encoder_pulses data Hdata).
  - rewrite !length_app, flat_map_app, length_app. cbn [flat_map List.length].
    rewrite app_nil_r.
    assert (Hflat : List.length (flat_map byte_pulses data) = (8 * List.length data)%nat).
    { clear Hdata. induction data as [| x rest IH]; [reflexivity |].
      cbn [flat_map]. rewrite length_app, IH. cbn [List.length]. 
      change (List.length (byte_pulses x)) with 8%nat. lia. }
    rewrite Hflat. change (List.length (byte_pulses (_calculate_crc data))) with 8%nat. lia.
Qed.

Lemma test_encoder_shape_witness :
  TestEncoder_encode [129]
  = Ok ([4000; 3000]
        ++ [1500; 500; 500; 500; 500; 500; 500; 1500]
        ++ byte_pulses (_calculate_crc [129])
        ++ [5000]).
Proof.
  rewrite (proj1 (test_encoder_shape [129] ltac:(repeat constructor; lia))).
  reflexivity.
Defined.

(** ** The CRC protocol: encoder to decoder *)

Ltac mw_side :=
  cbn -[Z.abs Z.max Z.sub];
  unfold bit_pulse, IR_ONE, IR_ZERO, IR_LEAD_OUT, IR_HEADER_MARK, IR_HEADER_SPACE,
    IR_ERROR_MARGIN, IR_UNIT in *;
  cbn -[Z.abs Z.max]; lia.

Ltac step_mw :=
  match goal with
  | |- context [bind (check_pulse ?r ?e) ?k ?d] =>
      first
        [ rewrite (bind_ok _ _ _ _ _ (check_pulse_match d r e ltac:(mw_side)))
        | rewrite (bind_ok _ _ _ _ _ (check_pulse_mismatch d r e ltac:(mw_side))) ];
      cbv beta iota
  end.

Ltac mw_one :=
  unfold MWDecoder_decode;
  rewrite (bind_ok get _ _ _ _ eq_refl); cbv beta;
  repeat (tag_simpl'; first [step_mw | step_write]); tag_simpl';
  tag_fields; reflexivity.

Lemma mw_decode_header (mx lst : Z) :
  exists mx' : Z,
    feed MWDecoder_decode [IR_HEADER_MARK; IR_HEADER_SPACE]
      (mkDecoder IR_ERROR_MARGIN 0 [] 7 0 mx lst)
    = Ok ([None; None], mkDecoder IR_ERROR_MARGIN 2 [] 7 0 mx' lst).
Proof.
  eexists.
  eapply feed_cons; [mw_one |].
  eapply feed_cons; [mw_one |].
  reflexivity.
Qed.

Lemma mw_decode_bit_inside (idx : Z) (bit : bool) (data : bytes) (byte mx lst : Z) :
  1 <= idx <= 7 ->
  exists mx' : Z,
    MWDecoder_decode (bit_pulse bit) (mkDecoder IR_ERROR_MARGIN 2 data idx byte mx lst)
    = Ok (None,
          mkDecoder IR_ERROR_MARGIN 2 data (idx - 1)
            (if bit then Z.lor byte (Z.shiftl 1 idx) else byte) mx' lst).
Proof.
  intros Hidx. destruct bit; eexists; mw_one.
Qed.

Lemma mw_decode_bit_last (bit : bool) (data : bytes) (byte mx lst : Z) :
  0 <= byte < 256 ->
  exists mx' : Z,
    MWDecoder_decode (bit_pulse bit) (mkDecoder IR_ERROR_MARGIN 2 data 0 byte mx lst)
    = Ok (None,
          mkDecoder IR_ERROR_MARGIN 2
            (data ++ [if bit then Z.lor byte (Z.shiftl 1 0) else byte]) 7 0 mx' lst).
Proof.
  intros Hbyte. destruct bit; eexists; mw_one.
Qed.

Lemma mw_decode_bits (lst : Z) (data : bytes) (bits : list bool) :
  forall idx byte mx : Z,
    len bits <= idx <= 7 ->
    exists mx' : Z,
      feed MWDecoder_decode (map bit_pulse bits)
        (mkDecoder IR_ERROR_MARGIN 2 data idx byte mx lst)
      = Ok (repeat None (List.length bits),
            mkDecoder IR_ERROR_MARGIN 2 data (idx - len bits)
              (write_bits bits idx byte) mx' lst).
Proof.
  induction bits as [| bit rest IH]; intros idx byte mx Hidx.
  - exists mx. cbn [map feed write_bits List.length repeat]. unfold ret.
    change (len (@nil bool)) with 0. rewrite Z.sub_0_r. reflexivity.
  - rewrite len_cons in Hidx |- *. pose proof (len_nonneg rest) as Hrest.
    destruct (mw_decode_bit_inside idx bit data byte mx lst ltac:(lia)) as (mx1 & Hbit).
    destruct (IH (idx - 1) (if bit then Z.lor byte (Z.shiftl 1 idx) else byte) mx1
                 ltac:(lia)) as (mx' & Hfeed).
    exists mx'. cbn [map List.length repeat write_bits].
    rewrite (feed_cons _ _ _ _ _ _ _ _ Hbit Hfeed).
    replace (idx - 1 - len rest) with (idx - (len rest + 1)) by lia. reflexivity.
Qed.

(** The eight pulses of a byte append the byte to the received data. *)
Lemma mw_decode_byte (lst : Z) (v : Z) (data : bytes) (mx : Z) :
  0 <= v < 256 ->
  exists mx' : Z,
    feed MWDecoder_decode (byte_pulses v) (mkDecoder IR_ERROR_MARGIN 2 data 7 0 mx lst)
    = Ok (repeat None 8, mkDecoder IR_ERROR_MARGIN 2 (data ++ [v]) 7 0 mx' lst).
Proof.
  intros Hv. pose proof (proj2 (shift_pulses_byte v Hv)) as Hvalue.
  unfold byte_pulses, bits8 in *. cbn [map] in *.
  set (first7 := [Z.testbit v 7; Z.testbit v 6; Z.testbit v 5; Z.testbit v 4;
                  Z.testbit v 3; Z.testbit v 2; Z.testbit v 1]).
  destruct (mw_decode_bits lst data first7 7 0 mx ltac:(vm_compute; split; discriminate))
    as (mx1 & Hseven).
  assert (Hbyte : 0 <= write_bits first7 7 0 < 256)
    by (apply write_bits_byte; [lia | lia | vm_compute; discriminate]).
  destruct (mw_decode_bit_last (Z.testbit v 0) data (write_bits first7 7 0) mx1 lst Hbyte)
    as (mx' & Hlast).
  exists mx'.
  change [bit_pulse (Z.testbit v 7); bit_pulse (Z.testbit v 6); bit_pulse (Z.testbit v 5);
          bit_pulse (Z.testbit v 4); bit_pulse (Z.testbit v 3); bit_pulse (Z.testbit v 2);
          bit_pulse (Z.testbit v 1); bit_pulse (Z.testbit v 0)]
    with (map bit_pulse first7 ++ [bit_pulse (Z.testbit v 0)]).
  change (7 - len first7) with 0 in Hseven.
  rewrite (feed_app _ _ _ _ _ _ _ _ Hseven
             (feed_cons _ _ [] _ _ _ _ [] Hlast eq_refl)).
  change (write_bits first7 7 0) with
    (write_bits [Z.testbit v 7; Z.testbit v 6; Z.testbit v 5; Z.testbit v 4;
                 Z.testbit v 3; Z.testbit v 2; Z.testbit v 1] 7 0).
  change (if Z.testbit v 0
          then Z.lor (write_bits [Z.testbit v 7; Z.testbit v 6; Z.testbit v 5;
                                  Z.testbit v 4; Z.testbit v 3; Z.testbit v 2;
                                  Z.testbit v 1] 7 0) (Z.shiftl 1 0)
          else write_bits [Z.testbit v 7; Z.testbit v 6; Z.testbit v 5; Z.testbit v 4;
                           Z.testbit v 3; Z.testbit v 2; Z.testbit v 1] 7 0)
    with (write_bits [Z.testbit v 7; Z.testbit v 6; Z.testbit v 5; Z.testbit v 4;
                      Z.testbit v 3; Z.testbit v 2; Z.testbit v 1; Z.testbit v 0] 7 0).
  rewrite Hvalue. reflexivity.
Qed.

Lemma mw_decode_bytes (lst : Z) (vs : bytes) :
  Forall (fun x : Z => 0 <= x < 256) vs ->
  forall (data : bytes) (mx : Z),
    exists mx' : Z,
      feed MWDecoder_decode (flat_map byte_pulses vs)
        (mkDecoder IR_ERROR_MARGIN 2 data 7 0 mx lst)
      = Ok (repeat None (8 * List.length vs),
            mkDecoder IR_ERROR_MARGIN 2 (data ++ vs) 7 0 mx' lst).
Proof.
  induction 1 as [| v rest Hv Hrest IH]; intros data mx.
  - exists mx. cbn. unfold ret. rewrite app_nil_r. reflexivity.
  - destruct (mw_decode_byte lst v data mx Hv) as (mx1 & Hbyte).
    destruct (IH (data ++ [v]) mx1) as (mx' & Hfeed).
    exists mx'. cbn [flat_map].
    rewrite (feed_app _ _ _ _ _ _ _ _ Hbyte Hfeed).
    rewrite <- app_assoc. cbn [app].
    replace (8 * List.length (v :: rest))%nat with (8 + 8 * List.length rest)%nat
      by (cbn [List.length]; lia).
    rewrite repeat_app. reflexivity.
Qed.

(** The lead-out after some received bytes. *)
Lemma mw_decode_lead_out (data : bytes) (mx lst : Z) :
  exists mx' : Z,
    MWDecoder_decode IR_LEAD_OUT (mkDecoder IR_ERROR_MARGIN 2 data 7 0 mx lst)
    = (if len data <? 2 then
         Ok (None, mkDecoder IR_ERROR_MARGIN 0 [] 7 0 0 IR_ERROR_MARGIN)
       else
         match py_index data (-1) with
         | Ok received_crc =>
             Ok (if received_crc =? _calculate_crc (firstn (Z.to_nat (len data - 1)) data)
                 then Some (firstn (Z.to_nat (len data - 1)) data)
                 else None,
                 mkDecoder IR_ERROR_MARGIN 0 [] 7 0 0 mx')
         | Raise e => Raise e
         end).
Proof.
  eexists. unfold MWDecoder_decode.
  rewrite (bind_ok get _ _ _ _ eq_refl). cbv beta.
  cbn [decoder_state _decoder_state].
  change (2 =? 0) with false. change (2 =? 1) with false. change (2 =? 2) with true.
  cbv iota.
  step_mw. step_mw. step_mw.
  rewrite (bind_ok get _ _ _ _ eq_refl). cbv beta.
  cbn [received_data _received_data set_max_error_margin _error_threshold _decoder_state
       _received_bit_index _received_byte _max_error_margin _last_error_margin].
  destruct (len data <? 2); [reflexivity |].
  unfold bind at 1. unfold lift at 1.
  destruct (py_index data (-1)) as [crc | e]; [| reflexivity].
  destruct (crc =? _calculate_crc (firstn (Z.to_nat (len data - 1)) data)); reflexivity.
Qed.

(** X12.  Feeding the pulses [TestEncoder.encode] produces for a byte string
    to a ready [MWDecoder]: no call returns anything before the last
    pulse; the call for the lead-out returns the byte string, unless it
    is empty (then a single byte, the CRC, was received and the packet
    is dropped); the decoder is ready again. *)
Theorem mw_roundtrip (data : bytes) (d : InfraredDecoder) :
  mw_ready d ->
  Forall (fun x : Z => 0 <= x < 256) data ->
  exists (pulses : list Z) (d' : InfraredDecoder),
    TestEncoder_encode data = Ok pulses
    /\ feed MWDecoder_decode pulses d
       = Ok (repeat None (8 * List.length data + 10)
             ++ [match data with [] => None | _ :: _ => Some data end], d')
    /\ mw_ready d'.
Proof.
  intros Hready Hdata.
  destruct d as [t s buf idx byte mx lst]. unfold mw_ready in Hready.
  cbn in Hready. destruct Hready as (-> & -> & -> & -> & ->).
  pose proof (calculate_crc_byte data) as Hcrc.
  destruct (mw_decode_header mx lst) as (mx1 & Hheader).
  destruct (mw_decode_bytes lst (data ++ [_calculate_crc data])
              ltac:(apply Forall_app; split; [exact Hdata | repeat constructor; lia])
              [] mx1) as (mx2 & Hbytes).
  destruct (mw_decode_lead_out (data ++ [_calculate_crc data]) mx2 lst) as (mx3 & Hlead).
  cbn [app] in Hbytes.
  rewrite py_index_last, firstn_body, Z.eqb_refl in Hlead.
  assert (Hlen : (len (data ++ [_calculate_crc data]) <? 2)
                 = match data with [] => true | _ :: _ => false end).
  { destruct data as [| x rest]; [reflexivity |].
    cbn [app]. rewrite !len_cons, len_app. pose proof (len_nonneg rest).
    change (len [_calculate_crc (x :: rest)]) with 1. apply Z.ltb_ge. lia. }
  rewrite Hlen in Hlead. clear Hlen.
  assert (Hcount : (repeat (@None bytes) (8 * List.length data + 10))
                   = [None; None]
                     ++ repeat None (8 * List.length (data ++ [_calculate_crc data]))).
  { rewrite length_app. cbn [List.length].
    replace (8 * List.length data + 10)%nat
      with (2 + 8 * (List.length data + 1))%nat by lia.
    apply (repeat_app None 2). }
  exists ([IR_HEADER_MARK; IR_HEADER_SPACE]
          ++ flat_map byte_pulses (data ++ [_calculate_crc data]) ++ [IR_LEAD_OUT]).
  rewrite Hcount, <- app_assoc.
  destruct data as [| x rest]; eexists;
    (split; [exact (test_encoder_pulses _ Hdata) |]);
    (split;
     [ exact (feed_app _ _ _ _ _ _ _ _ Hheader
                (feed_app _ _ _ _ _ _ _ _ Hbytes
                   (feed_cons _ _ [] _ _ _ _ [] Hlead eq_refl)))
     | unfold mw_ready; cbn; repeat split ]).
Qed.

Lemma mw_roundtrip_witness :
  exists (pulses : list Z) (d' : InfraredDecoder),
    TestEncoder_encode [49; 50] = Ok pulses
    /\ feed MWDecoder_decode pulses (mkDecoder IR_ERROR_MARGIN 0 [] 7 0 0 0)
       = Ok (repeat None 26 ++ [Some [49; 50]], d')
    /\ mw_ready d'.
Proof.
  apply (mw_roundtrip [49; 50] (mkDecoder IR_ERROR_MARGIN 0 [] 7 0 0 0)).
  - unfold mw_ready. cbn. repeat split.
  - repeat constructor; lia.
Defined.

(** ** The bit writer *)

Lemma write_bit_each_app (l1 l2 : list Z) (d d1 : InfraredDecoder) :
  write_bit_each l1 d = Ok (tt, d1) ->
  write_bit_each (l1 ++ l2) d = write_bit_each l2 d1.
Proof.
  revert d. induction l1 as [| bit rest IH]; intros d H.
  - cbn in H. injection H as <-. reflexivity.
  - cbn [write_bit_each app] in H |- *. unfold bind in H |- *.
    destruct (write_bit bit d) as [[[] d0] | e]; [| discriminate H].
    exact (IH d0 H).
Qed.

Lemma shiftl_one_byte (idx : Z) : 0 <= idx <= 7 -> 0 <= Z.shiftl 1 idx < 256.
Proof.
  intros H. rewrite Z.shiftl_1_l. split; [apply Z.pow_nonneg; lia |].
  change 256 with (2 ^ 8). apply Z.pow_lt_mono_r; lia.
Qed.

Lemma write_bit_each_fill (bits : list bool) :
  forall (t st : Z) (data : bytes) (idx byte mx lst : Z),
    0 <= byte < 256 -> 0 <= idx <= 7 -> len bits = idx + 1 ->
    write_bit_each (map bit_value bits) (mkDecoder t st data idx byte mx lst)
    = Ok (tt, mkDecoder t st (data ++ [write_bits bits idx byte]) 7 0 mx lst).
Proof.
  induction bits as [| bit rest IH]; intros t st data idx byte mx lst Hbyte Hidx Hlen.
  - unfold len in Hlen. cbn in Hlen. lia.
  - rewrite len_cons in Hlen. cbn [map write_bit_each write_bits].
    destruct (Z.eq_dec idx 0) as [-> | Hpos].
    + destruct rest as [| bit' rest']; [| rewrite len_cons in Hlen; pose proof (len_nonneg rest'); lia].
      rewrite (bind_ok _ _ _ _ _
                 (write_bit_last (mkDecoder t st data 0 byte mx lst) (bit_value bit)
                    eq_refl Hbyte)).
      cbv beta. cbn. destruct bit; reflexivity.
    + rewrite (bind_ok _ _ _ _ _
                 (write_bit_inside (mkDecoder t st data idx byte mx lst) (bit_value bit)
                    ltac:(cbn; lia))).
      cbv beta. unfold set_received_bit_index, set_received_byte.
      cbn [_received_bit_index _received_byte
           _error_threshold _decoder_state _received_data _max_error_margin
           _last_error_margin].
      rewrite IH; [destruct bit; reflexivity | | lia | lia].
      destruct bit; cbn [bit_value Z.eqb]; [| exact Hbyte].
      apply lor_byte; [exact Hbyte | apply shiftl_one_byte; lia].
Qed.

(** X1.  Written most significant bit first, the bits of byte values are
    assembled into those bytes: on a decoder whose bit writer is at its
    start, the calls append exactly the bytes to the received data and
    leave the bit writer at its start again. *)
Theorem write_bit_assembles_bytes (self : InfraredDecoder) (values : bytes) :
  _received_bit_index self = 7 ->
  _received_byte self = 0 ->
  Forall (fun v : Z => 0 <= v < 256) values ->
  write_bit_each (flat_map (fun v => map bit_value (bits8 v)) values) self
  = Ok (tt, set_received_data (_received_data self ++ values) self).
Proof.
  intros Hidx Hbyte Hvalues. destruct self as [t st data idx byte mx lst].
  cbn in Hidx, Hbyte. subst idx byte.
  unfold set_received_data.
  cbn [_error_threshold _decoder_state _received_data _received_bit_index
       _received_byte _max_error_margin _last_error_margin].
  revert data. induction Hvalues as [| v rest Hv Hrest IH]; intros data.
  - rewrite app_nil_r. reflexivity.
  - cbn [flat_map].
    rewrite (write_bit_each_app _ _ _ _
               (write_bit_each_fill (bits8 v) t st data 7 0 mx lst
                  ltac:(lia) ltac:(lia) eq_refl)).
    rewrite (proj2 (shift_pulses_byte v Hv)), IH, <- app_assoc. reflexivity.
Qed.

Lemma write_bit_assembles_bytes_witness :
  write_bit_each [0; 1; 0; 1; 0; 0; 1; 0; 1; 1; 1; 1; 1; 1; 1; 1]
    (mkDecoder 500 3 [9] 7 0 4 5)
  = Ok (tt, mkDecoder 500 3 [9; 82; 255] 7 0 4 5).
Proof.
  apply (write_bit_assembles_bytes (mkDecoder 500 3 [9] 7 0 4 5) [82; 255]).
  - reflexivity.
  - reflexivity.
  - repeat constructor; lia.
Defined.

(** ** The single-sensor receiver *)

Section SingleReceiver.

Variable decode : Z -> M (option bytes).

Lemma single_receive_skip (pre : list Z) :
  forall (rest : list Z) (d d1 : InfraredDecoder),
    feed decode pre d = Ok (repeat None (List.length pre), d1) ->
    single_receive_loop decode (pre ++ rest) d = single_receive_loop decode rest d1.
Proof.
  induction pre as [| p pre IH]; intros rest d d1 Hfeed.
  - cbn in Hfeed. injection Hfeed as <-. reflexivity.
  - cbn [feed List.length repeat] in Hfeed. unfold bind in Hfeed.
    destruct (decode p d) as [[out d0] | e] eqn:Hdecode; [| discriminate Hfeed].
    destruct (feed decode pre d0) as [[outs d2] | e] eqn:Hrest; [| discriminate Hfeed].
    cbn in Hfeed. injection Hfeed as -> -> ->.
    cbn [app single_receive_loop]. rewrite Hdecode. apply IH. exact Hrest.
Qed.

(** X13.  [receive] hands the pulses to the decoder in queue order and stops
    at the first call that returns a packet: that packet is returned,
    the decoder is as that call left it, and the pulses behind it stay
    in the queue.  If no call returns a packet, [receive] returns [None]
    with the queue empty. *)
Theorem single_receive_first_packet (pre post : list Z) (p : Z)
    (d d1 d2 : InfraredDecoder) (data : bytes) :
  feed decode pre d = Ok (repeat None (List.length pre), d1) ->
  (decode p d1 = Ok (Some data, d2) ->
   InfraredSingleReceiver_receive decode (mkSingle (pre ++ p :: post) d)
   = Ok (Some data, mkSingle post d2))
  /\ InfraredSingleReceiver_receive decode (mkSingle pre d) = Ok (None, mkSingle [] d1).
Proof.
  intros Hfeed. unfold InfraredSingleReceiver_receive. cbn [_pulse_reader _decoder].
  split.
  - intros Hdecode. rewrite (single_receive_skip pre (p :: post) d d1 Hfeed).
    cbn [single_receive_loop]. rewrite Hdecode. reflexivity.
  - rewrite <- (app_nil_r pre) at 1.
    rewrite (single_receive_skip pre [] d d1 Hfeed). reflexivity.
Qed.

(** X14.  When [receive] returns [None] no pulse is left in the queue; when it
    returns a packet the queue is a tail of the old queue. *)
Theorem single_receive_queue (self self' : InfraredSingleReceiver) (out : option bytes) :
  InfraredSingleReceiver_receive decode self = Ok (out, self') ->
  (out = None -> _pulse_reader self' = [])
  /\ exists taken : list Z,
       _pulse_reader self = taken ++ _pulse_reader self'
       /\ (out <> None -> taken <> []).
Proof.
  destruct self as [reader d]. unfold InfraredSingleReceiver_receive.
  cbn [_pulse_reader _decoder].
  revert d. induction reader as [| p rest IH]; intros d H.
  - cbn in H. injection H as <- <-. cbn. split; [reflexivity |].
    exists []. split; [reflexivity | congruence].
  - cbn [single_receive_loop] in H.
    destruct (decode p d) as [[[data |] d0] | e]; [| | discriminate H].
    + injection H as <- <-. cbn. split; [discriminate |].
      exists [p]. split; [reflexivity | discriminate].
    + destruct (IH d0 H) as (Hnone & taken & Htaken & Hsome).
      split; [exact Hnone |]. exists (p :: taken). cbn [app]. rewrite <- Htaken.
      split; [reflexivity | discriminate].
Qed.

End SingleReceiver.

Lemma single_receive_first_packet_witness :
  InfraredSingleReceiver_receive TagInfraredDecoder_decode
    (mkSingle ([3000; 6000; 3000; 2000; 2000; 2000; 1000; 2000; 2000; 2000; 1000;
                2000; 1000; 2000; 2000; 2000; 1000] ++ 3000 :: [6000; 3000])
              (mkDecoder 500 0 [] 7 0 0 500))
  = Ok (Some [82], mkSingle [6000; 3000] (mkDecoder 500 0 [] 7 0 0 0)).
Proof.
  refine (proj1 (single_receive_first_packet TagInfraredDecoder_decode _ _ 3000
                   (mkDecoder 500 0 [] 7 0 0 500)
                   (mkDecoder 500 17 [] 0 164 0 500) _ _ _) _).
  - vm_compute. reflexivity.
  - vm_compute. reflexivity.
Defined.

Lemma single_receive_queue_witness :
  (@None bytes = None ->
   _pulse_reader (mkSingle [] (mkDecoder 500 1 [] 7 0 0 500)) = [])
  /\ exists taken : list Z,
       _pulse_reader (mkSingle [3000] (mkDecoder 500 0 [] 7 0 0 500))
       = taken ++ _pulse_reader (mkSingle [] (mkDecoder 500 1 [] 7 0 0 500))
       /\ (@None bytes <> None -> taken <> []).
Proof.
  apply (single_receive_queue TagInfraredDecoder_decode
           (mkSingle [3000] (mkDecoder 500 0 [] 7 0 0 500))
           (mkSingle [] (mkDecoder 500 1 [] 7 0 0 500)) None).
  vm_compute. reflexivity.
Defined.

(** X15.  A receiver with a [LoggingInfraredDecoder] never returns a packet:
    it empties the queue and leaves the decoder as it was. *)
Theorem logging_receiver_drains (reader : PulseReader) (d : InfraredDecoder) :
  InfraredSingleReceiver_receive LoggingInfraredDecoder_decode (mkSingle reader d)
  = Ok (None, mkSingle [] d).
Proof.
  unfold InfraredSingleReceiver_receive. cbn [_pulse_reader _decoder].
  induction reader as [| p rest IH]; [reflexivity |].
  cbn [single_receive_loop]. exact IH.
Qed.

(** ** The multi-sensor receiver: what a call leaves behind *)

Lemma dict_set_not_nil {V : Type} (d : dict V) (k : string) (v : V) :
  dict_set d k v <> [].
Proof.
  destruct d as [| [k' v'] rest]; cbn; [discriminate |].
  destruct (String.eqb k' k); discriminate.
Qed.

Lemma dict_set_keys_incl {V : Type} (d : dict V) (k n : string) (v : V) :
  In n (keys (dict_set d k v)) -> n = k \/ In n (keys d).
Proof.
  induction d as [| [k' v'] rest IH]; cbn.
  - intros [H | []]. left. congruence.
  - destruct (String.eqb_spec k' k) as [Heq | Hne]; cbn.
    + intros H. right. exact H.
    + intros [H | H]; [right; left; exact H |].
      destruct (IH H) as [Hk | Hin]; [left; exact Hk | right; right; exact Hin].
Qed.

Lemma dict_get_not_in {V : Type} (d : dict V) (k : string) :
  ~ In k (keys d) -> dict_get d k = None.
Proof.
  induction d as [| [k' v'] rest IH]; cbn; [reflexivity |].
  intros Hnot. destruct (String.eqb_spec k' k) as [Heq | Hne].
  - exfalso. apply Hnot. left. exact Heq.
  - apply IH. intros Hin. apply Hnot. right. exact Hin.
Qed.

Lemma queued_zero (readers : dict PulseReader) :
  queued readers = 0%nat ->
  forall (name : string) (reader : PulseReader), In (name, reader) readers -> reader = [].
Proof.
  induction readers as [| [n r] rest IH]; intros Hq name reader Hin; [destruct Hin |].
  rewrite queued_cons in Hq. destruct Hin as [Heq | Hin].
  - injection Heq as <- <-. destruct r; [reflexivity | cbn in Hq; lia].
  - apply (IH ltac:(lia) name reader Hin).
Qed.

Lemma read_pulses_nothing (readers : dict PulseReader) :
  forall (acc : dict Z) (readers' : dict PulseReader),
    read_pulses readers acc = (readers', []) ->
    acc = [] /\ readers' = readers /\ queued readers = 0%nat.
Proof.
  induction readers as [| [name reader] rest IH]; intros acc readers' H.
  - cbn in H. injection H as <- <-. repeat split.
  - cbn [read_pulses] in H. destruct reader as [| p reader]; cbn [read_pulse] in H.
    + destruct (read_pulses rest acc) as [rest' out] eqn:Hrest.
      injection H as <- ->. destruct (IH _ _ Hrest) as (Hacc & Hsame & Hq).
      subst rest'. rewrite queued_cons. repeat split; [exact Hacc | cbn; lia].
    + destruct (read_pulses rest (dict_set acc name p)) as [rest' out] eqn:Hrest.
      injection H as <- ->. destruct (IH _ _ Hrest) as (Hacc & _).
      exfalso. exact (dict_set_not_nil _ _ _ Hacc).
Qed.

Lemma read_pulses_sources (readers : dict PulseReader) :
  forall (acc out : dict Z) (readers' : dict PulseReader),
    read_pulses readers acc = (readers', out) ->
    forall n : string,
      In n (keys out) ->
      In n (keys acc) \/ exists (p : Z) (q : list Z), In (n, p :: q) readers.
Proof.
  induction readers as [| [name reader] rest IH]; intros acc out readers' H n Hn.
  - cbn in H. injection H as <- <-. left. exact Hn.
  - cbn [read_pulses] in H. destruct reader as [| p reader]; cbn [read_pulse] in H.
    + destruct (read_pulses rest acc) as [rest' out'] eqn:Hrest.
      injection H as <- <-. destruct (IH _ _ _ Hrest n Hn) as [Hacc | (p & q & Hin)].
      * left. exact Hacc.
      * right. exists p, q. right. exact Hin.
    + destruct (read_pulses rest (dict_set acc name p)) as [rest' out'] eqn:Hrest.
      injection H as <- <-. destruct (IH _ _ _ Hrest n Hn) as [Hacc | (p' & q & Hin)].
      * destruct (dict_set_keys_incl _ _ _ _ Hacc) as [-> | Hold].
        -- right. exists p, reader. left. reflexivity.
        -- left. exact Hold.
      * right. exists p', q. right. exact Hin.
Qed.

Lemma record_stats_keys (datas : dict bytes) (decoders : dict InfraredDecoder) :
  forall (margins margins' : dict Z) (strengths strengths' : dict Q),
    record_stats decoders datas margins strengths = Ok (margins', strengths') ->
    forall n : string,
      In n (keys margins') -> In n (keys margins) \/ has_data datas n = true.
Proof.
  induction decoders as [| [name decoder] rest IH];
    intros margins margins' strengths strengths' H n Hn.
  - cbn in H. injection H as <- <-. left. exact Hn.
  - cbn [record_stats] in H. destruct (dict_get datas name) as [b |] eqn:Hget.
    + unfold last_error_margin in H.
      destruct (last_signal_strength decoder) as [s | e]; [| discriminate H].
      destruct (IH _ _ _ _ H n Hn) as [Hin | Hdata]; [| right; exact Hdata].
      destruct (dict_set_keys_incl _ _ _ _ Hin) as [-> | Hold]; [| left; exact Hold].
      right. unfold has_data. rewrite Hget. reflexivity.
    + exact (IH _ _ _ _ H n Hn).
Qed.

Lemma best_scan_in (items : dict Z) :
  forall (m : option Z) (start : option string) (best : string),
    best_scan items m start = Some best ->
    start = Some best \/ In best (keys items).
Proof.
  induction items as [| [name margin] rest IH]; intros m start best H.
  - left. exact H.
  - cbn [best_scan] in H.
    destruct (match m with None => true | Some m0 => margin <? m0 end).
    + destruct (IH _ _ _ H) as [Heq | Hin].
      * injection Heq as <-. right. left. reflexivity.
      * right. right. exact Hin.
    + destruct (IH _ _ _ H) as [Heq | Hin]; [left; exact Heq | right; right; exact Hin].
Qed.

Section AfterReceive.

Variable decode : Z -> M (option bytes).

Lemma decode_pulses_sources (pulses : dict Z) :
  forall (decoders decoders' : dict InfraredDecoder) (datas datas' : dict bytes),
    decode_pulses decode pulses decoders datas = Ok (decoders', datas') ->
    forall n : string,
      has_data datas' n = true -> has_data datas n = true \/ In n (keys pulses).
Proof.
  induction pulses as [| [name pulse] rest IH];
    intros decoders decoders' datas datas' H n Hn; cbn in H.
  - injection H as <- <-. left. exact Hn.
  - destruct (dict_get decoders name) as [decoder |]; [| discriminate H].
    destruct (decode pulse decoder) as [[data decoder'] | e]; [| discriminate H].
    destruct (IH _ _ _ _ H n Hn) as [Hd | Hin]; [| right; right; exact Hin].
    destruct data as [b |]; [| left; exact Hd].
    destruct (has_data_set _ _ _ _ Hd) as [-> | Hold];
      [right; left; reflexivity | left; exact Hold].
Qed.

(** X21.  Only a sensor that had a pulse queued at the start of the round can
    enter the snapshot of a completed packet or be named the best
    receiver: a sensor without pulses takes no part in the arbitration. *)
Theorem multi_snapshot_pulsed (self self' : InfraredMultiReceiver) (data : bytes)
    (n : string) :
  receive_round decode self = Ok (Packet data, self') ->
  In n (keys (_last_error_margins self')) \/ last_best_receiver self' = Some n ->
  exists (p : Z) (q : list Z), In (n, p :: q) (_pulse_readers self).
Proof.
  unfold receive_round.
  destruct (read_pulses (_pulse_readers self) []) as [readers pulses] eqn:Hread.
  destruct (len pulses =? 0); [discriminate |].
  destruct (decode_pulses decode pulses (_decoders self) []) as [[decoders datas] | e]
    eqn:Hdecode; [| discriminate].
  destruct (len datas >? 0); [| discriminate].
  destruct (record_stats decoders datas [] []) as [[margins strengths] | e] eqn:Hstats;
    [| discriminate].
  destruct (reset_all decoders) as [decoders' | e]; [| discriminate].
  destruct (best_scan margins None None) as [best |] eqn:Hbest; [| discriminate].
  destruct (dict_get datas best) as [packet |]; [| discriminate].
  intros H Hn. injection H as _ <-.
  unfold last_best_receiver in Hn. cbn [_last_error_margins] in Hn.
  assert (Hin : In n (keys margins)).
  { destruct Hn as [Hin | Hwin]; [exact Hin |].
    destruct (best_scan_in _ _ _ _ Hwin) as [Hnone | Hin]; [discriminate | exact Hin]. }
  destruct (record_stats_keys _ _ _ _ _ _ Hstats n Hin) as [[] | Hdata].
  destruct (decode_pulses_sources _ _ _ _ _ Hdecode n Hdata) as [Hfalse | Hpulse];
    [discriminate |].
  destruct (read_pulses_sources _ _ _ _ Hread n Hpulse) as [[] | Hsource].
  exact Hsource.
Qed.

Lemma receive_round_no_pulses (self self' : InfraredMultiReceiver) :
  receive_round decode self = Ok (NoPulses, self') ->
  self' = self /\ queued (_pulse_readers self) = 0%nat.
Proof.
  unfold receive_round.
  destruct (read_pulses (_pulse_readers self) []) as [readers pulses] eqn:Hread.
  destruct pulses as [| item pulses].
  - destruct (read_pulses_nothing _ _ _ Hread) as (_ & -> & Hq).
    cbn. intros H. injection H as <-. split; [destruct self; reflexivity | exact Hq].
  - change (len (item :: pulses) =? 0) with false. cbv iota.
    destruct (decode_pulses decode (item :: pulses) (_decoders self) [])
      as [[decoders datas] | e]; [| discriminate].
    destruct (len datas >? 0); [| discriminate].
    destruct (record_stats decoders datas [] []) as [[margins strengths] | e];
      [| discriminate].
    destruct (reset_all decoders); [| discriminate].
    destruct (best_scan margins None None); [| discriminate].
    destruct (dict_get datas s); discriminate.
Qed.

Lemma receive_round_no_packet (self self' : InfraredMultiReceiver) :
  receive_round decode self = Ok (NoPacket, self') ->
  _last_error_margins self' = _last_error_margins self
  /\ _last_signal_strengths self' = _last_signal_strengths self.
Proof.
  unfold receive_round.
  destruct (read_pulses (_pulse_readers self) []) as [readers pulses].
  destruct (len pulses =? 0); [discriminate |].
  destruct (decode_pulses decode pulses (_decoders self) []) as [[decoders datas] | e];
    [| discriminate].
  destruct (len datas >? 0).
  - destruct (record_stats decoders datas [] []) as [[margins strengths] | e];
      [| discriminate].
    destruct (reset_all decoders); [| discriminate].
    destruct (best_scan margins None None); [| discriminate].
    destruct (dict_get datas s); discriminate.
  - intros H. injection H as <-. split; reflexivity.
Qed.

Lemma receive_loop_none (fuel : nat) :
  forall self self' : InfraredMultiReceiver,
    receive_loop decode fuel self = Some (Ok (None, self')) ->
    queued (_pulse_readers self') = 0%nat
    /\ _last_error_margins self' = _last_error_margins self
    /\ _last_signal_strengths self' = _last_signal_strengths self.
Proof.
  induction fuel as [| fuel IH]; intros self self' H; [discriminate H |].
  cbn [receive_loop] in H.
  destruct (receive_round decode self) as [[[| | data] self1] | e] eqn:Hround.
  - injection H as <-. destruct (receive_round_no_pulses _ _ Hround) as [-> Hq].
    repeat split. exact Hq.
  - destruct (IH _ _ H) as (Hq & Hm & Hs).
    destruct (receive_round_no_packet _ _ Hround) as [Hm1 Hs1].
    repeat split; [exact Hq | congruence | congruence].
  - discriminate H.
  - discriminate H.
Qed.

(** X19.  When [receive] returns [None] every sensor's queue is empty and the
    snapshot of the last completed packet is as it was before the
    call. *)
Theorem multi_receive_none (self self' : InfraredMultiReceiver) :
  InfraredMultiReceiver_receive decode self = Some (Ok (None, self')) ->
  (forall (name : string) (reader : PulseReader),
      In (name, reader) (_pulse_readers self') -> reader = [])
  /\ _last_error_margins self' = _last_error_margins self
  /\ _last_signal_strengths self' = _last_signal_strengths self.
Proof.
  intros H. destruct (receive_loop_none _ _ _ H) as (Hq & Hm & Hs).
  split; [exact (queued_zero _ Hq) | split; assumption].
Qed.

End AfterReceive.

Lemma multi_snapshot_pulsed_witness :
  exists (p : Z) (q : list Z),
    In ("Right"%string, p :: q) (_pulse_readers arbitration_example).
Proof.
  apply (multi_snapshot_pulsed TagInfraredDecoder_decode arbitration_example
           (mkMulti [("Left"%string, []); ("NA"%string, []); ("Right"%string, [])]
                    [("Left"%string, mkDecoder 500 0 [] 7 0 0 40);
                     ("NA"%string, mkDecoder 500 0 [] 7 0 0 0);
                     ("Right"%string, mkDecoder 500 0 [] 7 0 0 10)]
                    [("Left"%string, 40); ("Right"%string, 10)]
                    [("Left"%string, 1%Q); ("Right"%string, 1%Q)])
           [82] "Right"%string).
  - vm_compute. reflexivity.
  - right. reflexivity.
Defined.

Lemma multi_receive_none_witness :
  (forall (name : string) (reader : PulseReader),
      In (name, reader) [("Left"%string, []); ("Right"%string, [])] -> reader = [])
  /\ [("Left"%string, 7)] = [("Left"%string, 7)]
  /\ [("Left"%string, 1%Q)] = [("Left"%string, 1%Q)].
Proof.
  apply (multi_receive_none TagInfraredDecoder_decode
           (mkMulti [("Left"%string, [3000; 6000]); ("Right"%string, [3000])]
                    [("Left"%string, mkDecoder 500 0 [] 7 0 0 500);
                     ("Right"%string, mkDecoder 500 0 [] 7 0 0 500)]
                    [("Left"%string, 7)] [("Left"%string, 1%Q)])
           (mkMulti [("Left"%string, []); ("Right"%string, [])]
                    [("Left"%string, mkDecoder 500 2 [] 7 0 0 500);
                     ("Right"%string, mkDecoder 500 1 [] 7 0 0 500)]
                    [("Left"%string, 7)] [("Left"%string, 1%Q)])).
  vm_compute. reflexivity.
Defined.

(** ** The queries of the multi-sensor receiver *)

Section Sorting.

Context {A : Type}.

Variable le : A -> A -> bool.

Lemma insert_sorted_perm (x : A) (l : list A) :
  Permutation (insert_sorted le x l) (x :: l).
Proof.
  induction l as [| y rest IH]; cbn; [apply Permutation_refl |].
  destruct (le x y); [apply Permutation_refl |].
  apply Permutation_trans with (y :: x :: rest);
    [apply perm_skip; exact IH | apply perm_swap].
Qed.

Lemma py_sorted_perm (l : list A) : Permutation (py_sorted le l) l.
Proof.
  induction l as [| x rest IH]; cbn; [apply perm_nil |].
  apply Permutation_trans with (x :: py_sorted le rest);
    [apply insert_sorted_perm | apply perm_skip; exact IH].
Qed.

Hypothesis le_total : forall x y : A, le x y = false -> le y x = true.
Hypothesis le_trans : forall x y z : A, le x y = true -> le y z = true -> le x z = true.

Lemma insert_sorted_sorted (x : A) (l : list A) :
  StronglySorted (fun a b => le a b = true) l ->
  StronglySorted (fun a b => le a b = true) (insert_sorted le x l).
Proof.
  induction l as [| y rest IH]; intros Hs; cbn.
  - constructor; constructor.
  - inversion Hs as [| y' rest' Hrest Hall]; subst.
    destruct (le x y) eqn:Hxy.
    + constructor; [exact Hs |].
      constructor; [exact Hxy |].
      apply Forall_impl with (P := fun b => le y b = true); [| exact Hall].
      intros b Hb. exact (le_trans _ _ _ Hxy Hb).
    + constructor; [exact (IH Hrest) |].
      apply (Permutation_Forall (Permutation_sym (insert_sorted_perm x rest))).
      constructor; [exact (le_total _ _ Hxy) | exact Hall].
Qed.

Lemma py_sorted_sorted (l : list A) :
  StronglySorted (fun a b => le a b = true) (py_sorted le l).
Proof.
  induction l as [| x rest IH]; cbn; [constructor |].
  apply insert_sorted_sorted. exact IH.
Qed.

End Sorting.

Lemma keys_app {V : Type} (a b : dict V) : keys (a ++ b) = keys a ++ keys b.
Proof. unfold keys. apply map_app. Qed.

Lemma dict_of_items_from {V : Type} (items : list (string * V)) :
  forall acc : dict V,
    NoDup (keys (acc ++ items)) ->
    fold_left (fun acc item => dict_set acc (fst item) (snd item)) items acc
    = acc ++ items.
Proof.
  induction items as [| [k v] rest IH]; intros acc Hnodup; cbn [fold_left fst snd].
  - rewrite app_nil_r. reflexivity.
  - rewrite dict_set_fresh.
    + rewrite IH; rewrite <- app_assoc; [reflexivity | exact Hnodup].
    + rewrite keys_app in Hnodup. cbn in Hnodup.
      apply NoDup_remove_2 in Hnodup. intros Hin. apply Hnodup.
      apply in_or_app. left. exact Hin.
Qed.

Lemma dict_of_items_nodup {V : Type} (items : list (string * V)) :
  NoDup (keys items) -> dict_of_items items = items.
Proof. intros H. exact (dict_of_items_from items [] H). Qed.

Lemma dict_get_in {V : Type} (d : dict V) (k : string) (v : V) :
  NoDup (keys d) -> In (k, v) d -> dict_get d k = Some v.
Proof.
  induction d as [| [k' v'] rest IH]; intros Hnodup Hin; [destruct Hin |].
  cbn in Hnodup. inversion Hnodup as [| x xs Hnotin Hrest]; subst. cbn.
  destruct Hin as [Heq | Hin].
  - injection Heq as -> ->. rewrite String.eqb_refl. reflexivity.
  - destruct (String.eqb_spec k' k) as [-> | Hne]; [| exact (IH Hrest Hin)].
    exfalso. apply Hnotin. apply (in_map fst) in Hin. exact Hin.
Qed.

Lemma dict_get_some_in {V : Type} (d : dict V) (k : string) (v : V) :
  dict_get d k = Some v -> In (k, v) d.
Proof.
  induction d as [| [k' v'] rest IH]; cbn; [discriminate |].
  destruct (String.eqb_spec k' k) as [-> | Hne]; intros H.
  - injection H as ->. left. reflexivity.
  - right. exact (IH H).
Qed.

Lemma margin_keys_sub (margins sub : dict Z) :
  (forall (k : string) (m : Z), In (k, m) sub -> dict_get margins k = Some m) ->
  margin_keys margins (keys sub) = Ok sub.
Proof.
  unfold keys. induction sub as [| [k m] rest IH]; intros H; [reflexivity |].
  cbn [map fst margin_keys]. rewrite (H k m (or_introl eq_refl)).
  rewrite IH; [reflexivity |]. intros k' m' Hin. apply H. right. exact Hin.
Qed.

Lemma margin_le_total (x y : string * Z) : margin_le x y = false -> margin_le y x = true.
Proof. unfold margin_le. intros H. apply Z.leb_gt in H. apply Z.leb_le. lia. Qed.

Lemma margin_le_trans (x y z : string * Z) :
  margin_le x y = true -> margin_le y z = true -> margin_le x z = true.
Proof. unfold margin_le. rewrite !Z.leb_le. lia. Qed.

Lemma strength_ge_total (x y : string * Q) :
  strength_ge x y = false -> strength_ge y x = true.
Proof.
  unfold strength_ge. intros H. apply Qle_bool_iff.
  destruct (Qlt_le_dec (snd y) (snd x)) as [Hlt | Hle].
  - apply Qlt_le_weak in Hlt. apply Qle_bool_iff in Hlt. congruence.
  - exact Hle.
Qed.

Lemma strength_ge_trans (x y z : string * Q) :
  strength_ge x y = true -> strength_ge y z = true -> strength_ge x z = true.
Proof.
  unfold strength_ge. rewrite !Qle_bool_iff. intros H1 H2.
  exact (Qle_trans _ _ _ H2 H1).
Qed.

Lemma sorted_head_first_min (items : dict Z) :
  hd_error (py_sorted margin_le items) = first_min items.
Proof.
  induction items as [| x rest IH]; cbn [py_sorted fold_right first_min]; [reflexivity |].
  fold (py_sorted margin_le rest). rewrite <- IH.
  destruct (py_sorted margin_le rest) as [| y tail]; cbn; [reflexivity |].
  unfold margin_le. destruct (snd x <=? snd y); reflexivity.
Qed.

Ltac order_props :=
  repeat match goal with
         | H : (_ <? _) = true |- _ => apply Z.ltb_lt in H
         | H : (_ <? _) = false |- _ => apply Z.ltb_ge in H
         | H : (_ <=? _) = true |- _ => apply Z.leb_le in H
         | H : (_ <=? _) = false |- _ => apply Z.leb_gt in H
         end.

Lemma best_scan_from (items : dict Z) :
  forall (m0 : Z) (n0 : string),
    best_scan items (Some m0) (Some n0)
    = match first_min items with
      | Some (n, m) => if m <? m0 then Some n else Some n0
      | None => Some n0
      end.
Proof.
  induction items as [| [name margin] rest IH]; intros m0 n0; [reflexivity |].
  cbn [best_scan first_min]. rewrite !IH.
  destruct (first_min rest) as [[n m] |]; cbn [snd].
  - destruct (margin <? m0) eqn:E1, (margin <=? m) eqn:E2, (m <? margin) eqn:E3,
      (m <? m0) eqn:E4; cbn; rewrite ?E1, ?E4; try reflexivity; exfalso; order_props; lia.
  - destruct (margin <? m0); reflexivity.
Qed.

Lemma best_scan_first_min (items : dict Z) :
  best_scan items None None = option_map fst (first_min items).
Proof.
  destruct items as [| [name margin] rest]; [reflexivity |].
  cbn [best_scan first_min]. rewrite best_scan_from.
  destruct (first_min rest) as [[n m] |]; cbn [snd]; [| reflexivity].
  destruct (m <? margin) eqn:E1, (margin <=? m) eqn:E2; cbn; try reflexivity;
    exfalso; order_props; lia.
Qed.

Lemma first_min_lowest (items : dict Z) :
  match first_min items with
  | None => items = []
  | Some best => In best items /\ forall x : string * Z, In x items -> snd best <= snd x
  end.
Proof.
  induction items as [| x rest IH]; cbn [first_min]; [reflexivity |].
  destruct (first_min rest) as [y |].
  - destruct IH as [Hin Hall]. destruct (Z.leb_spec (snd x) (snd y)).
    + split; [left; reflexivity |].
      intros z [<- | Hz]; [lia | specialize (Hall z Hz); lia].
    + split; [right; exact Hin |].
      intros z [<- | Hz]; [lia | exact (Hall z Hz)].
  - subst rest. split; [left; reflexivity |]. intros z [<- | []]. lia.
Qed.

Lemma sorted_keys_nodup {V : Type} (le : string * V -> string * V -> bool) (d : dict V) :
  NoDup (keys d) -> NoDup (keys (py_sorted le d)).
Proof.
  intros H. apply Permutation_NoDup with (l := keys d); [| exact H].
  unfold keys. apply Permutation_map. apply Permutation_sym. apply py_sorted_perm.
Qed.

Lemma strongly_sorted_impl {A : Type} (R R' : A -> A -> Prop) (l : list A) :
  (forall x y : A, R x y -> R' x y) -> StronglySorted R l -> StronglySorted R' l.
Proof.
  intros Himpl. induction 1 as [| a l Hs IH Hall]; constructor; [exact IH |].
  apply Forall_impl with (P := R a); [exact (Himpl a) | exact Hall].
Qed.

Lemma dict_get_of_key {V : Type} (d : dict V) (k : string) :
  In k (keys d) -> exists v : V, dict_get d k = Some v.
Proof.
  induction d as [| [k' v'] rest IH]; intros Hin; [destruct Hin |].
  cbn. destruct (String.eqb_spec k' k) as [Heq | Hne]; [eauto |].
  destruct Hin as [Heq | Hin]; [contradiction | exact (IH Hin)].
Qed.

Lemma dict_set_nodup {V : Type} (d : dict V) (k : string) (v : V) :
  NoDup (keys d) -> NoDup (keys (dict_set d k v)).
Proof.
  intros Hnodup. destruct (in_dec string_dec k (keys d)) as [Hin | Hnot].
  - rewrite dict_set_keys by exact Hin. exact Hnodup.
  - rewrite dict_set_fresh by exact Hnot. rewrite keys_app. cbn.
    apply NoDup_app; [exact Hnodup | repeat constructor; intros [] |].
    intros x Hx [<- | []]. exact (Hnot Hx).
Qed.

Lemma dict_set_same_keys {V W : Type} (d : dict V) (e : dict W) (k : string)
    (v : V) (w : W) :
  keys d = keys e -> keys (dict_set d k v) = keys (dict_set e k w).
Proof.
  revert e. induction d as [| [k1 v1] rest IH]; intros [| [k2 w2] rest'] H;
    try discriminate H; [reflexivity |].
  cbn in H. injection H as -> Hrest. cbn.
  destruct (String.eqb k2 k); cbn; [congruence |].
  f_equal. exact (IH rest' Hrest).
Qed.

Lemma record_stats_snapshot (datas : dict bytes) (decoders : dict InfraredDecoder) :
  forall (margins margins' : dict Z) (strengths strengths' : dict Q),
    record_stats decoders datas margins strengths = Ok (margins', strengths') ->
    NoDup (keys margins) ->
    keys strengths = keys margins ->
    NoDup (keys margins') /\ keys strengths' = keys margins'.
Proof.
  induction decoders as [| [name decoder] rest IH];
    intros margins margins' strengths strengths' H Hnodup Hkeys.
  - cbn in H. injection H as <- <-. split; assumption.
  - cbn [record_stats] in H. destruct (dict_get datas name).
    + unfold last_error_margin in H.
      destruct (last_signal_strength decoder) as [s | e]; [| discriminate H].
      apply (IH _ _ _ _ H); [apply dict_set_nodup; exact Hnodup |].
      apply dict_set_same_keys. exact Hkeys.
    + exact (IH _ _ _ _ H Hnodup Hkeys).
Qed.

(** Sorting by margin is stable: the entries with a given margin stand
    in the result in the order they had before. *)
Lemma insert_sorted_same_margin (m : Z) (x : string * Z) (l : dict Z) :
  filter (fun y => snd y =? m) (insert_sorted margin_le x l)
  = filter (fun y => snd y =? m) (x :: l).
Proof.
  induction l as [| y rest IH]; [reflexivity |].
  cbn [insert_sorted]. unfold margin_le at 1.
  destruct (Z.leb_spec (snd x) (snd y)) as [Hle | Hgt]; [reflexivity |].
  cbn [filter] in IH |- *. rewrite IH.
  destruct (Z.eqb_spec (snd x) m) as [Hx | Hx]; [| reflexivity].
  destruct (Z.eqb_spec (snd y) m) as [Hy | Hy]; [lia | reflexivity].
Qed.

Lemma py_sorted_same_margin (m : Z) (l : dict Z) :
  filter (fun y => snd y =? m) (py_sorted margin_le l)
  = filter (fun y => snd y =? m) l.
Proof.
  induction l as [| x rest IH]; [reflexivity |].
  cbn [py_sorted fold_right]. fold (py_sorted margin_le rest).
  rewrite insert_sorted_same_margin. cbn [filter]. rewrite IH. reflexivity.
Qed.

(** X23.  The dict [last_error_margins] returns holds the entries of the
    snapshot, each once, in ascending order of margin, and the entries
    that share a margin keep the order in which they were recorded;
    [last_receivers] returns its keys in that order, and the first of
    them is [last_best_receiver]. *)
Theorem last_receivers_sorted (self : InfraredMultiReceiver) :
  NoDup (keys (_last_error_margins self)) ->
  Permutation (InfraredMultiReceiver_last_error_margins self) (_last_error_margins self)
  /\ StronglySorted (fun x y => snd x <= snd y)
       (InfraredMultiReceiver_last_error_margins self)
  /\ InfraredMultiReceiver_last_receivers self
     = Ok (keys (InfraredMultiReceiver_last_error_margins self))
  /\ hd_error (keys (InfraredMultiReceiver_last_error_margins self))
     = last_best_receiver self
  /\ (forall m : Z,
        filter (fun entry => snd entry =? m)
               (InfraredMultiReceiver_last_error_margins self)
        = filter (fun entry => snd entry =? m) (_last_error_margins self)).
Proof.
  intros Hnodup.
  unfold InfraredMultiReceiver_last_error_margins, InfraredMultiReceiver_last_receivers.
  rewrite dict_of_items_nodup by (apply sorted_keys_nodup; exact Hnodup).
  split; [apply py_sorted_perm |]. split.
  - apply strongly_sorted_impl with (R := fun a b => margin_le a b = true).
    + intros x y H. apply Z.leb_le. exact H.
    + apply py_sorted_sorted; [exact margin_le_total | exact margin_le_trans].
  - split; [| split].
    + rewrite margin_keys_sub; [reflexivity |].
      intros k m Hin. apply dict_get_in; assumption.
    + unfold last_best_receiver. rewrite best_scan_first_min, <- sorted_head_first_min.
      destruct (py_sorted margin_le (_last_error_margins self)); reflexivity.
    + intros m. apply py_sorted_same_margin.
Qed.

Lemma last_receivers_sorted_witness :
  InfraredMultiReceiver_last_receivers
    (mkMulti [] [] [("North"%string, 40); ("East"%string, 10); ("South"%string, 40);
                    ("West"%string, 10)] [])
  = Ok ["East"%string; "West"%string; "North"%string; "South"%string].
Proof.
  refine (proj1 (proj2 (proj2 (last_receivers_sorted
            (mkMulti [] [] [("North"%string, 40); ("East"%string, 10);
                            ("South"%string, 40); ("West"%string, 10)] []) _)))).
  repeat constructor; cbn; intuition discriminate.
Defined.

(** X24.  [last_error_margin] never raises on a snapshot without repeated
    names: it is [None] exactly for the empty snapshot, and otherwise
    the margin recorded for [last_best_receiver], which no recorded
    margin is below. *)
Theorem multi_last_error_margin_lowest (self : InfraredMultiReceiver) :
  NoDup (keys (_last_error_margins self)) ->
  exists r : option Z,
    InfraredMultiReceiver_last_error_margin self = Ok r
    /\ match r with
       | None => _last_error_margins self = [] /\ last_best_receiver self = None
       | Some m =>
           (exists best : string,
               last_best_receiver self = Some best
               /\ In (best, m) (_last_error_margins self))
           /\ forall (name : string) (m' : Z),
                In (name, m') (_last_error_margins self) -> m <= m'
       end.
Proof.
  intros Hnodup. unfold InfraredMultiReceiver_last_error_margin, last_best_receiver.
  rewrite best_scan_first_min.
  pose proof (first_min_lowest (_last_error_margins self)) as Hmin.
  destruct (first_min (_last_error_margins self)) as [[best m] |]; cbn [option_map fst].
  - destruct Hmin as [Hin Hall]. rewrite (dict_get_in _ _ _ Hnodup Hin).
    exists (Some m). split; [reflexivity |]. split; [exists best; split; [reflexivity | exact Hin] |].
    intros name m' Hin'. exact (Hall (name, m') Hin').
  - exists None. split; [reflexivity | split; [exact Hmin | reflexivity]].
Qed.

Lemma multi_last_error_margin_lowest_witness :
  exists r : option Z,
    InfraredMultiReceiver_last_error_margin
      (mkMulti [] [] [("North"%string, 40); ("East"%string, 10)] []) = Ok r
    /\ match r with
       | None => [("North"%string, 40); ("East"%string, 10)] = []
                 /\ last_best_receiver
                      (mkMulti [] [] [("North"%string, 40); ("East"%string, 10)] []) = None
       | Some m =>
           (exists best : string,
               last_best_receiver
                 (mkMulti [] [] [("North"%string, 40); ("East"%string, 10)] []) = Some best
               /\ In (best, m) [("North"%string, 40); ("East"%string, 10)])
           /\ forall (name : string) (m' : Z),
                In (name, m') [("North"%string, 40); ("East"%string, 10)] -> m <= m'
       end.
Proof.
  apply (multi_last_error_margin_lowest
           (mkMulti [] [] [("North"%string, 40); ("East"%string, 10)] [])).
  repeat constructor; cbn; intuition discriminate.
Defined.

(** X25.  The dict [last_signal_strengths] returns holds the entries of the
    strength snapshot, each once, strongest first. *)
Theorem last_signal_strengths_sorted (self : InfraredMultiReceiver) :
  NoDup (keys (_last_signal_strengths self)) ->
  Permutation (InfraredMultiReceiver_last_signal_strengths self)
              (_last_signal_strengths self)
  /\ StronglySorted (fun x y => (snd y <= snd x)%Q)
       (InfraredMultiReceiver_last_signal_strengths self).
Proof.
  intros Hnodup. unfold InfraredMultiReceiver_last_signal_strengths.
  rewrite dict_of_items_nodup by (apply sorted_keys_nodup; exact Hnodup).
  split; [apply py_sorted_perm |].
  apply strongly_sorted_impl with (R := fun a b => strength_ge a b = true).
  - intros x y H. apply Qle_bool_iff. exact H.
  - apply py_sorted_sorted; [exact strength_ge_total | exact strength_ge_trans].
Qed.

Lemma last_signal_strengths_sorted_witness :
  Permutation
    (InfraredMultiReceiver_last_signal_strengths
       (mkMulti [] [] [] [("North"%string, 1 # 2); ("East"%string, 1%Q)]))
    [("North"%string, 1 # 2); ("East"%string, 1%Q)]
  /\ StronglySorted (fun x y => (snd y <= snd x)%Q)
       (InfraredMultiReceiver_last_signal_strengths
          (mkMulti [] [] [] [("North"%string, 1 # 2); ("East"%string, 1%Q)])).
Proof.
  apply (last_signal_strengths_sorted
           (mkMulti [] [] [] [("North"%string, 1 # 2); ("East"%string, 1%Q)])).
  repeat constructor; cbn; intuition discriminate.
Defined.

Section Queries.

Variable decode : Z -> M (option bytes).

(** X22.  After a round that returns a packet the snapshot has a name at most
    once and the same names for margins and strengths, so the queries
    for the best sensor do not raise: [last_best_receiver] names a
    sensor, and [last_error_margin] and [last_signal_strength] return
    the values recorded for it. *)
Theorem multi_queries_after_packet (self self' : InfraredMultiReceiver) (data : bytes) :
  receive_round decode self = Ok (Packet data, self') ->
  NoDup (keys (_last_error_margins self'))
  /\ keys (_last_signal_strengths self') = keys (_last_error_margins self')
  /\ exists (best : string) (m : Z) (s : Q),
       last_best_receiver self' = Some best
       /\ InfraredMultiReceiver_last_error_margin self' = Ok (Some m)
       /\ In (best, m) (_last_error_margins self')
       /\ InfraredMultiReceiver_last_signal_strength self' = Ok (Some s)
       /\ In (best, s) (_last_signal_strengths self').
Proof.
  unfold receive_round.
  destruct (read_pulses (_pulse_readers self) []) as [readers pulses].
  destruct (len pulses =? 0); [discriminate |].
  destruct (decode_pulses decode pulses (_decoders self) []) as [[decoders datas] | e];
    [| discriminate].
  destruct (len datas >? 0); [| discriminate].
  destruct (record_stats decoders datas [] []) as [[margins strengths] | e] eqn:Hstats;
    [| discriminate].
  destruct (reset_all decoders) as [decoders' | e]; [| discriminate].
  destruct (best_scan margins None None) as [best |] eqn:Hbest; [| discriminate].
  destruct (dict_get datas best) as [packet |]; [| discriminate].
  intros H. injection H as _ <-.
  destruct (record_stats_snapshot _ _ _ _ _ _ Hstats (NoDup_nil _) eq_refl)
    as [Hnodup Hkeys].
  unfold InfraredMultiReceiver_last_error_margin,
    InfraredMultiReceiver_last_signal_strength, last_best_receiver.
  cbn [_last_error_margins _last_signal_strengths].
  split; [exact Hnodup |]. split; [exact Hkeys |].
  rewrite Hbest.
  assert (Hin : In best (keys margins)).
  { destruct (best_scan_in _ _ _ _ Hbest) as [Hnone | Hin]; [discriminate | exact Hin]. }
  destruct (dict_get_of_key margins best Hin) as [m Hm].
  rewrite <- Hkeys in Hin. destruct (dict_get_of_key strengths best Hin) as [s Hs].
  exists best, m, s. rewrite Hm, Hs.
  repeat split; [exact (dict_get_some_in _ _ _ Hm) | exact (dict_get_some_in _ _ _ Hs)].
Qed.

End Queries.

Lemma multi_queries_after_packet_witness :
  NoDup ["Left"%string; "Right"%string].
Proof.
  apply (proj1 (multi_queries_after_packet TagInfraredDecoder_decode arbitration_example
           (mkMulti [("Left"%string, []); ("NA"%string, []); ("Right"%string, [])]
                    [("Left"%string, mkDecoder 500 0 [] 7 0 0 40);
                     ("NA"%string, mkDecoder 500 0 [] 7 0 0 0);
                     ("Right"%string, mkDecoder 500 0 [] 7 0 0 10)]
                    [("Left"%string, 40); ("Right"%string, 10)]
                    [("Left"%string, 1%Q); ("Right"%string, 1%Q)])
           [82] ltac:(vm_compute; reflexivity))).
Defined.

(** ** A round without a packet *)

Lemma read_pulses_get (readers : dict PulseReader) :
  forall (acc out : dict Z) (readers' : dict PulseReader),
    NoDup (keys readers) ->
    NoDup (keys acc) ->
    read_pulses readers acc = (readers', out) ->
    NoDup (keys out)
    /\ forall name : string,
         dict_get out name
         = match dict_get readers name with
           | Some (p :: _) => Some p
           | _ => dict_get acc name
           end
         /\ dict_get readers' name
            = match dict_get readers name with
              | Some (_ :: q) => Some q
              | other => other
              end.
Proof.
  induction readers as [| [n reader] rest IH]; intros acc out readers' Hnodup Hacc H.
  - cbn in H. injection H as <- <-. split; [exact Hacc |]. intros name. split; reflexivity.
  - cbn in Hnodup. inversion Hnodup as [| x xs Hnotin Hrest]; subst.
    cbn [read_pulses] in H. destruct reader as [| p q]; cbn [read_pulse] in H.
    + destruct (read_pulses rest acc) as [rest' out'] eqn:Hread.
      injection H as <- <-. destruct (IH _ _ _ Hrest Hacc Hread) as [Hout Hget].
      split; [exact Hout |]. intros name. cbn [dict_get].
      destruct (String.eqb_spec n name) as [-> | Hne]; [| exact (Hget name)].
      destruct (Hget name) as [Hget1 _]. rewrite (dict_get_not_in rest name Hnotin) in Hget1.
      split; [exact Hget1 | reflexivity].
    + destruct (read_pulses rest (dict_set acc n p)) as [rest' out'] eqn:Hread.
      injection H as <- <-.
      destruct (IH _ _ _ Hrest (dict_set_nodup acc n p Hacc) Hread) as [Hout Hget].
      split; [exact Hout |]. intros name. cbn [dict_get].
      destruct (String.eqb_spec n name) as [-> | Hne].
      * destruct (Hget name) as [Hget1 _].
        rewrite (dict_get_not_in rest name Hnotin), dict_get_set_same in Hget1.
        split; [exact Hget1 | reflexivity].
      * destruct (Hget name) as [Hget1 Hget2].
        rewrite (dict_get_set_other acc n name p Hne) in Hget1.
        split; [exact Hget1 | exact Hget2].
Qed.

Section QuietRound.

Variable decode : Z -> M (option bytes).

Lemma decode_pulses_get (pulses : dict Z) :
  forall (decoders decoders' : dict InfraredDecoder) (datas : dict bytes),
    NoDup (keys pulses) ->
    decode_pulses decode pulses decoders datas = Ok (decoders', []) ->
    forall (name : string) (decoder : InfraredDecoder),
      dict_get decoders name = Some decoder ->
      match dict_get pulses name with
      | Some p =>
          exists d' : InfraredDecoder,
            decode p decoder = Ok (None, d') /\ dict_get decoders' name = Some d'
      | None => dict_get decoders' name = Some decoder
      end.
Proof.
  induction pulses as [| [n p] rest IH];
    intros decoders decoders' datas Hnodup H name decoder Hget.
  - cbn in H. injection H as <- _. exact Hget.
  - cbn in Hnodup. inversion Hnodup as [| x xs Hnotin Hrest]; subst.
    cbn [decode_pulses] in H.
    destruct (dict_get decoders n) as [d0 |] eqn:Hd0; [| discriminate H].
    destruct (decode p d0) as [[data d1] | e] eqn:Hdecode; [| discriminate H].
    cbn [dict_get]. destruct (String.eqb_spec n name) as [-> | Hne].
    + assert (Hsame : d0 = decoder) by congruence. subst d0.
      pose proof (IH _ _ _ Hrest H name d1 (dict_get_set_same decoders name d1)) as Hlater.
      rewrite (dict_get_not_in rest name Hnotin) in Hlater.
      destruct data as [b |].
      * destruct (decode_pulses_keys decode _ _ _ _ _ H) as (_ & _ & Hnil).
        exfalso. exact (dict_set_not_nil _ _ _ (Hnil eq_refl)).
      * exists d1. split; [exact Hdecode | exact Hlater].
    + apply (IH _ _ _ Hrest H name decoder).
      rewrite dict_get_set_other by exact Hne. exact Hget.
Qed.

(** X20.  A round in which no decoder returns a packet: each sensor's decoder
    is given the oldest pulse of that sensor's own queue and nothing
    else, that pulse leaves the queue, and the decoder of a sensor with
    an empty queue is not touched. *)
Theorem multi_round_independent (self self' : InfraredMultiReceiver)
    (name : string) (decoder : InfraredDecoder) :
  NoDup (keys (_pulse_readers self)) ->
  receive_round decode self = Ok (NoPacket, self') ->
  dict_get (_decoders self) name = Some decoder ->
  match dict_get (_pulse_readers self) name with
  | Some (p :: q) =>
      exists d' : InfraredDecoder,
        decode p decoder = Ok (None, d')
        /\ dict_get (_decoders self') name = Some d'
        /\ dict_get (_pulse_readers self') name = Some q
  | other =>
      dict_get (_decoders self') name = Some decoder
      /\ dict_get (_pulse_readers self') name = other
  end.
Proof.
  intros Hnodup Hround Hget. unfold receive_round in Hround.
  destruct (read_pulses (_pulse_readers self) []) as [readers pulses] eqn:Hread.
  destruct (read_pulses_get _ [] _ _ Hnodup (NoDup_nil _) Hread) as [Hpulses Hat].
  destruct (Hat name) as [Hpulse Hreader]. clear Hat.
  destruct (len pulses =? 0); [discriminate Hround |].
  destruct (decode_pulses decode pulses (_decoders self) []) as [[decoders datas] | e]
    eqn:Hdecode; [| discriminate Hround].
  destruct datas as [| item datas].
  - change (len (@nil (string * bytes)) >? 0) with false in Hround. cbv iota in Hround.
    injection Hround as <-. cbn [_decoders _pulse_readers].
    pose proof (decode_pulses_get _ _ _ _ Hpulses Hdecode name decoder Hget) as Hstep.
    rewrite Hpulse in Hstep. rewrite Hreader.
    destruct (dict_get (_pulse_readers self) name) as [[| p q] |].
    + split; [exact Hstep | reflexivity].
    + destruct Hstep as (d' & Hd & Hd'). exists d'. repeat split; assumption.
    + split; [exact Hstep | reflexivity].
  - assert (Hpos : (len (item :: datas) >? 0) = true).
    { rewrite len_cons. apply Z.gtb_lt. pose proof (len_nonneg datas). lia. }
    rewrite Hpos in Hround.
    destruct (record_stats decoders (item :: datas) [] []) as [[margins strengths] | e];
      [| discriminate Hround].
    destruct (reset_all decoders); [| discriminate Hround].
    destruct (best_scan margins None None); [| discriminate Hround].
    destruct (dict_get (item :: datas) s); discriminate Hround.
Qed.

End QuietRound.

Lemma multi_round_independent_witness :
  exists d' : InfraredDecoder,
    TagInfraredDecoder_decode 3000 (mkDecoder 500 0 [] 7 0 0 500) = Ok (None, d')
    /\ dict_get [("Left"%string, mkDecoder 500 1 [] 7 0 0 500);
                 ("Right"%string, mkDecoder 500 0 [] 7 0 0 500)] "Left"%string = Some d'
    /\ dict_get [("Left"%string, [6000]); ("Right"%string, [])] "Left"%string
       = Some [6000].
Proof.
  apply (multi_round_independent TagInfraredDecoder_decode
           (mkMulti [("Left"%string, [3000; 6000]); ("Right"%string, [])]
                    [("Left"%string, mkDecoder 500 0 [] 7 0 0 500);
                     ("Right"%string, mkDecoder 500 0 [] 7 0 0 500)] [] [])
           (mkMulti [("Left"%string, [6000]); ("Right"%string, [])]
                    [("Left"%string, mkDecoder 500 1 [] 7 0 0 500);
                     ("Right"%string, mkDecoder 500 0 [] 7 0 0 500)] [] [])
           "Left"%string (mkDecoder 500 0 [] 7 0 0 500)).
  - repeat constructor; cbn; intuition discriminate.
  - vm_compute. reflexivity.
  - reflexivity.
Defined.

(** ** A new multi-sensor receiver *)

Lemma init_decoders_from (factory : unit -> InfraredDecoder) (names : list string) :
  forall acc : dict InfraredDecoder,
    NoDup (keys acc ++ names) ->
    fold_left (fun acc name => dict_set acc name (factory tt)) names acc
    = acc ++ map (fun name => (name, factory tt)) names.
Proof.
  induction names as [| name rest IH]; intros acc Hnodup; cbn [fold_left map].
  - rewrite app_nil_r. reflexivity.
  - rewrite dict_set_fresh.
    + rewrite IH.
      * rewrite <- app_assoc. reflexivity.
      * rewrite keys_app. cbn [keys map fst]. rewrite <- app_assoc. exact Hnodup.
    + apply NoDup_remove_2 in Hnodup. intros Hin. apply Hnodup.
      apply in_or_app. left. exact Hin.
Qed.

(** X17.  [__init__] gives every sensor a decoder of its own from the
    factory, in the order of the sensors, and starts with an empty
    snapshot: no best receiver, no receivers, no margin.  A first
    [receive] on empty queues returns [None] and changes nothing. *)
Theorem multi_receiver_init (pulse_readers : dict PulseReader)
    (decoder_factory : unit -> InfraredDecoder) (decode : Z -> M (option bytes)) :
  NoDup (keys pulse_readers) ->
  _decoders (InfraredMultiReceiver_init pulse_readers decoder_factory)
  = map (fun item => (fst item, decoder_factory tt)) pulse_readers
  /\ last_best_receiver (InfraredMultiReceiver_init pulse_readers decoder_factory) = None
  /\ InfraredMultiReceiver_last_receivers
       (InfraredMultiReceiver_init pulse_readers decoder_factory) = Ok []
  /\ InfraredMultiReceiver_last_error_margin
       (InfraredMultiReceiver_init pulse_readers decoder_factory) = Ok None
  /\ (queued pulse_readers = 0%nat ->
      InfraredMultiReceiver_receive decode
        (InfraredMultiReceiver_init pulse_readers decoder_factory)
      = Some (Ok (None, InfraredMultiReceiver_init pulse_readers decoder_factory))).
Proof.
  intros Hnodup. split.
  - unfold InfraredMultiReceiver_init. cbn [_decoders].
    rewrite init_decoders_from by exact Hnodup. cbn [app]. unfold keys. apply map_map.
  - repeat split. intros Hq.
    unfold InfraredMultiReceiver_receive, InfraredMultiReceiver_init.
    cbn [_pulse_readers]. rewrite Hq. cbn [receive_loop]. unfold receive_round.
    cbn [_pulse_readers _decoders _last_error_margins _last_signal_strengths].
    assert (Hread : read_pulses pulse_readers [] = (pulse_readers, [])).
    { clear Hnodup. induction pulse_readers as [| [n r] rest IH]; [reflexivity |].
      rewrite queued_cons in Hq. destruct r as [| p r]; [| cbn in Hq; lia].
      cbn [read_pulses read_pulse]. rewrite IH by lia. reflexivity. }
    rewrite Hread. reflexivity.
Qed.

Lemma multi_receiver_init_witness :
  _decoders (InfraredMultiReceiver_init
               [("North"%string, [3000]); ("East"%string, [])]
               (fun _ => TagInfraredDecoder_init))
  = [("North"%string, TagInfraredDecoder_init); ("East"%string, TagInfraredDecoder_init)].
Proof.
  apply (proj1 (multi_receiver_init [("North"%string, [3000]); ("East"%string, [])]
                  (fun _ => TagInfraredDecoder_init) TagInfraredDecoder_decode
                  ltac:(repeat constructor; cbn; intuition discriminate))).
Defined.

(** ** From the transmitter to the receiver *)

Lemma within_tolerance_refl (threshold : Z) (pulses : list Z) :
  0 < threshold -> within_tolerance threshold pulses pulses.
Proof.
  intros Ht. unfold within_tolerance. induction pulses as [| p rest IH]; constructor.
  - rewrite Z.sub_diag. cbn. exact Ht.
  - exact IH.
Qed.

Lemma max_deviation_exact (pulses : list Z) :
  forall start : Z, 0 <= start -> max_deviation pulses pulses start = start.
Proof.
  unfold max_deviation. induction pulses as [| p rest IH]; intros start Hstart.
  - reflexivity.
  - cbn [combine fold_left fst snd]. rewrite Z.sub_diag. cbn [Z.abs].
    rewrite Z.max_l by lia. apply IH. exact Hstart.
Qed.

(** X16.  What [send] writes for a valid [TagData] is what a receiver needs:
    [send] appends one pulse sequence to the writer (to the override
    when one is passed, leaving the default writer alone), and a single
    receiver with a ready tag decoder whose queue holds that sequence
    and at least one more pulse returns the packet that unpacks to the
    same [TagData], keeps the pulses behind that one in the queue and
    records a margin of 0. *)
Theorem tag_send_receive (t : TagData) (writer override : PulseWriter)
    (d : InfraredDecoder) (next_pulse : Z) (rest : list Z) :
  tag_in_range t ->
  tag_ready d ->
  _max_error_margin d = 0 ->
  exists (data : bytes) (pulses : list Z),
    encode_tag_data t = Ok data
    /\ InfraredTransmitter_send TagInfraredEncoder_encode writer data None
       = Ok (writer ++ [pulses], None)
    /\ InfraredTransmitter_send TagInfraredEncoder_encode writer data (Some override)
       = Ok (writer, Some (override ++ [pulses]))
    /\ InfraredSingleReceiver_receive TagInfraredDecoder_decode
         (mkSingle (pulses ++ next_pulse :: rest) d)
       = Ok (Some data, mkSingle rest (mkDecoder TAG_ERROR_MARGIN 0 [] 7 0 0 0))
    /\ decode_tag_data data = Ok t.
Proof.
  intros Hrange Hready Hmx.
  destruct d as [th s buf idx byte mx lst]. unfold tag_ready in Hready.
  cbn in Hready, Hmx. destruct Hready as (-> & -> & -> & -> & ->). subst mx.
  pose proof (encode_tag_data_in_range t Hrange) as Hbyte.
  set (b := Z.lor (Z.lor (Z.shiftl (team t) 5) (Z.shiftl (player t - 1) 2))
                  (damage t - 1)) in *.
  assert (Hb : 0 <= b <= 127 /\ decode_tag_data [b] = Ok t).
  { subst b. clear Hbyte. revert Hrange.
    tag_cases t; (split; [vm_compute; split; discriminate | reflexivity]). }
  destruct Hb as [Hb Hback].
  exists [b], (TAG_PREAMBLE ++ bit_pulses (tag_bits b)).
  split; [exact Hbyte |].
  unfold InfraredTransmitter_send, write_pulses.
  rewrite (encode_pulses b ltac:(lia)).
  split; [reflexivity |]. split; [reflexivity |]. split; [| exact Hback].
  pose proof (tag_decode_train b 0 lst (TAG_PREAMBLE ++ bit_pulses (tag_bits b))
                ltac:(lia) (within_tolerance_refl 500 _ ltac:(lia))) as Htrain.
  rewrite max_deviation_exact in Htrain by lia.
  assert (Hlen : List.length (TAG_PREAMBLE ++ bit_pulses (tag_bits b)) = 17%nat).
  { apply (f_equal (fun r => match r with
                             | Ok (outs, _) => List.length outs
                             | Raise _ => O
                             end)) in Htrain.
    clear - Htrain Hb.
    assert (Hcount : forall (pulses : list Z) (d0 : InfraredDecoder),
               match feed TagInfraredDecoder_decode pulses d0 with
               | Ok (outs, _) => List.length outs = List.length pulses
               | Raise _ => True
               end).
    { induction pulses as [| p ps IH]; intros d0; [reflexivity |].
      cbn [feed]. unfold bind at 1.
      destruct (TagInfraredDecoder_decode p d0) as [[out d1] | e]; [| exact I].
      unfold bind at 1. specialize (IH d1).
      destruct (feed TagInfraredDecoder_decode ps d1) as [[outs d2] | e]; [| exact I].
      cbn. f_equal. exact IH. }
    specialize (Hcount (TAG_PREAMBLE ++ bit_pulses (tag_bits b))
                  (mkDecoder 500 0 [] 7 0 0 lst)).
    destruct (feed TagInfraredDecoder_decode (TAG_PREAMBLE ++ bit_pulses (tag_bits b))
                (mkDecoder 500 0 [] 7 0 0 lst)) as [[outs d2] | e]; [| discriminate Htrain].
    rewrite <- Hcount. exact Htrain. }
  rewrite <- Hlen in Htrain.
  unfold InfraredSingleReceiver_receive, TAG_ERROR_MARGIN. cbn [_pulse_reader _decoder].
  rewrite (single_receive_skip TagInfraredDecoder_decode _ (next_pulse :: rest) _ _ Htrain).
  cbn [single_receive_loop].
  rewrite decode_complete
    by (apply write_bits_byte; [lia | lia | vm_compute; discriminate]).
  rewrite (written_bits_value b ltac:(lia)).
  change 127 with (Z.ones 7). rewrite Z.land_ones by lia.
  rewrite Z.mod_small by (change (2 ^ 7) with 128; lia). reflexivity.
Qed.

Lemma tag_send_receive_witness :
  exists (data : bytes) (pulses : list Z),
    encode_tag_data (mkTagData 2 5 3) = Ok data
    /\ InfraredTransmitter_send TagInfraredEncoder_encode [] data None
       = Ok ([] ++ [pulses], None)
    /\ InfraredTransmitter_send TagInfraredEncoder_encode [] data (Some [[1; 2]])
       = Ok ([], Some ([[1; 2]] ++ [pulses]))
    /\ InfraredSingleReceiver_receive TagInfraredDecoder_decode
         (mkSingle (pulses ++ 3000 :: [6000]) (mkDecoder 500 0 [] 7 0 0 500))
       = Ok (Some data, mkSingle [6000] (mkDecoder TAG_ERROR_MARGIN 0 [] 7 0 0 0))
    /\ decode_tag_data data = Ok (mkTagData 2 5 3).
Proof.
  apply (tag_send_receive (mkTagData 2 5 3) [] [[1; 2]] (mkDecoder 500 0 [] 7 0 0 500)
           3000 [6000]).
  - unfold tag_in_range; cbn; lia.
  - unfold tag_ready. cbn. repeat split.
  - reflexivity.
Defined.
